(** * Salesforce metadata relationship extraction: a shallow embedding

    The development follows the Python sources of the repository:
    - [metadata_converter.py]: class [SalesforceMetadataConverter]
      (normalizer, source dependency extractor, relationship synthesizer);
    - [analyze_relationships.py]: [generate_impact_analysis];
    - [comprehensive_metadata_parser.py] and [enhanced_metadata_parser.py]:
      the object-level relationship passes.

    Text is ASCII ([string]); Python's [set] is stdpp's [gset], a Python
    [dict] with string keys is a [gmap] or, where insertion order is
    iterated, an association list.  The converter's mutable attributes
    ([self.relationships], [self.conversion_stats]) are threaded through a
    small state monad. *)

From Stdlib Require Import Ascii String Lia.
From stdpp Require Import gmap strings list pretty.

Set Warnings "-register-all".

Local Open Scope string_scope.
Local Open Scope list_scope.
Local Open Scope nat_scope.

(** ** Python string primitives *)

Module PyStr.

Definition chars (s : string) : list ascii := list_ascii_of_string s.
Definition str (l : list ascii) : string := string_of_list_ascii l.

(** [len(s)] *)
Definition len (s : string) : nat := String.length s.

(** [s.startswith(p)] *)
Definition startswith (s p : string) : bool := String.prefix p s.

Fixpoint is_prefix (p l : list ascii) : bool :=
  match p, l with
  | [], _ => true
  | a :: p', b :: l' => Ascii.eqb a b && is_prefix p' l'
  | _ :: _, [] => false
  end.

(** [s.endswith(p)] *)
Definition endswith (s p : string) : bool :=
  is_prefix (rev (chars p)) (rev (chars s)).

(** [sub in s] for a non-empty [sub]; the empty string is in every string. *)
Fixpoint contains_l (sub l : list ascii) : bool :=
  is_prefix sub l ||
  match l with
  | [] => false
  | _ :: l' => contains_l sub l'
  end.

Definition contains (sub s : string) : bool := contains_l (chars sub) (chars s).

(** [s.replace(old, new)]: every non-overlapping occurrence of [old], scanned
    from the left.  All call sites pass a non-empty [old]; for an empty
    [old] the text is returned as it is. *)
Fixpoint replace_l (fuel : nat) (old new l : list ascii) : list ascii :=
  match fuel with
  | 0 => l
  | S fuel' =>
      match l with
      | [] => []
      | c :: l' =>
          if is_prefix old l
          then new ++ replace_l fuel' old new (drop (length old) l)
          else c :: replace_l fuel' old new l'
      end
  end.

Definition replace (s old new : string) : string :=
  match chars old with
  | [] => s
  | o => str (replace_l (String.length s) o (chars new) (chars s))
  end.

(** Python's whitespace for [str.strip()] and [\s], on ASCII text:
    space, the controls 9..13 (tab, newline, ...) and the separators
    28..31. *)
Definition is_space (c : ascii) : bool :=
  let n := nat_of_ascii c in
  (n =? 32) || ((9 <=? n) && (n <=? 13)) || ((28 <=? n) && (n <=? 31)).

Fixpoint lstrip_l (l : list ascii) : list ascii :=
  match l with
  | c :: l' => if is_space c then lstrip_l l' else l
  | [] => []
  end.

(** [s.strip()] *)
Definition strip (s : string) : string :=
  str (rev (lstrip_l (rev (lstrip_l (chars s))))).

(** [s.split(sep)] for a one-character separator. *)
Fixpoint split_l (sep : ascii) (cur : list ascii) (l : list ascii) : list string :=
  match l with
  | [] => [str (rev cur)]
  | c :: l' =>
      if Ascii.eqb c sep then str (rev cur) :: split_l sep [] l'
      else split_l sep (c :: cur) l'
  end.

Definition split (s : string) (sep : ascii) : list string := split_l sep [] (chars s).

(** [s.split(sep, 1)] when [sep in s]: the text before and after the first
    separator; [None] when the separator does not occur. *)
Fixpoint split1_l (sep : ascii) (cur : list ascii) (l : list ascii) : option (string * string) :=
  match l with
  | [] => None
  | c :: l' =>
      if Ascii.eqb c sep then Some (str (rev cur), str l')
      else split1_l sep (c :: cur) l'
  end.

Definition split1 (s : string) (sep : ascii) : option (string * string) :=
  split1_l sep [] (chars s).

(** [sep.join(l)] *)
Fixpoint join (sep : string) (l : list string) : string :=
  match l with
  | [] => ""
  | [x] => x
  | x :: l' => x +:+ sep +:+ join sep l'
  end.

(** [Path.stem]: the file name without its last suffix. *)
Fixpoint rfind_dot (l : list ascii) (i : nat) (last : option nat) : option nat :=
  match l with
  | [] => last
  | c :: l' => rfind_dot l' (S i) (if Ascii.eqb c "." then Some i else last)
  end.

Definition stem (name : string) : string :=
  match rfind_dot (chars name) 0 None with
  | Some i =>
      if (0 <? i) && (i <? String.length name - 1)
      then str (take i (chars name)) else name
  | None => name
  end.

(** [list(set(l))]: the elements of the set built from [l], each once.
    Python leaves the order of iteration over a set unspecified; the order
    of [elements] stands for it. *)
Definition list_set (l : list string) : list string :=
  elements (list_to_set l : gset string).

End PyStr.

(** ** Python's [re]: a backtracking matcher *)

Module Re.

Inductive citem : Type :=
| CChar (c : ascii)
| CRange (lo hi : ascii)
| CWord          (* \w *)
| CSpace.        (* \s *)

Inductive regex : Type :=
| Eps
| Lit (c : ascii)
| Dot
| Class (neg : bool) (items : list citem)
| Seq (r1 r2 : regex)
| Alt (r1 r2 : regex)
| Star (greedy : bool) (r : regex)
| Group (i : nat) (r : regex)
| WordB.         (* \b *)

Record flags : Type := { IGNORECASE : bool; DOTALL : bool }.

Definition no_flags : flags := {| IGNORECASE := false; DOTALL := false |}.
Definition flag_I : flags := {| IGNORECASE := true; DOTALL := false |}.
Definition flag_IS : flags := {| IGNORECASE := true; DOTALL := true |}.

Definition in_range (lo hi c : ascii) : bool :=
  (nat_of_ascii lo <=? nat_of_ascii c) && (nat_of_ascii c <=? nat_of_ascii hi).

Definition is_upper (c : ascii) : bool := in_range "A" "Z" c.
Definition is_lower (c : ascii) : bool := in_range "a" "z" c.
Definition is_digit (c : ascii) : bool := in_range "0" "9" c.
Definition is_word (c : ascii) : bool :=
  is_upper c || is_lower c || is_digit c || Ascii.eqb c "_".

Definition to_lower (c : ascii) : ascii :=
  if is_upper c then ascii_of_nat (nat_of_ascii c + 32) else c.
Definition to_upper (c : ascii) : ascii :=
  if is_lower c then ascii_of_nat (nat_of_ascii c - 32) else c.

Definition item_matches (it : citem) (c : ascii) : bool :=
  match it with
  | CChar x => Ascii.eqb x c
  | CRange lo hi => in_range lo hi c
  | CWord => is_word c
  | CSpace => PyStr.is_space c
  end.

Definition items_match (fl : flags) (items : list citem) (c : ascii) : bool :=
  existsb (fun it =>
    item_matches it c ||
    (IGNORECASE fl && (item_matches it (to_lower c) || item_matches it (to_upper c))))
    items.

Definition lit_matches (fl : flags) (x c : ascii) : bool :=
  Ascii.eqb x c || (IGNORECASE fl && Ascii.eqb (to_lower x) (to_lower c)).

(** The matcher's position: the text before it (nearest character first),
    the text after it, and the groups captured so far. *)
Record mstate : Type := {
  before : list ascii;
  after : list ascii;
  caps : list (nat * string)
}.

Definition advance (s : mstate) : mstate :=
  match after s with
  | [] => s
  | c :: rest => {| before := c :: before s; after := rest; caps := caps s |}
  end.

Definition step_if (p : ascii -> bool) (s : mstate) (k : mstate -> option mstate) : option mstate :=
  match after s with
  | [] => None
  | c :: _ => if p c then k (advance s) else None
  end.

Definition at_boundary (s : mstate) : bool :=
  let l := match before s with c :: _ => is_word c | [] => false end in
  let r := match after s with c :: _ => is_word c | [] => false end in
  xorb l r.

Definition set_cap (i : nat) (s0 s1 : mstate) : mstate :=
  let n := length (before s1) - length (before s0) in
  {| before := before s1; after := after s1;
     caps := (i, PyStr.str (rev (take n (before s1)))) :: caps s1 |}.

Definition or_else {A} (a b : option A) : option A :=
  match a with Some _ => a | None => b end.

(** [mt fl r s k]: match [r] at [s], then continue with [k]; alternatives
    are tried in Python's priority order and the first success is kept. *)
Fixpoint mt (fl : flags) (r : regex) (s : mstate) (k : mstate -> option mstate)
  {struct r} : option mstate :=
  match r with
  | Eps => k s
  | Lit c => step_if (lit_matches fl c) s k
  | Dot => step_if (fun c => DOTALL fl || negb (Ascii.eqb c "010")) s k
  | Class neg items => step_if (fun c => xorb neg (items_match fl items c)) s k
  | Seq r1 r2 => mt fl r1 s (fun s' => mt fl r2 s' k)
  | Alt r1 r2 => or_else (mt fl r1 s k) (mt fl r2 s k)
  | Star greedy r' =>
      (fix loop (n : nat) (s : mstate) {struct n} : option mstate :=
         match n with
         | 0 => k s
         | S n' =>
             let more :=
               mt fl r' s (fun s' =>
                 if length (after s') <? length (after s) then loop n' s' else None) in
             if greedy then or_else more (k s) else or_else (k s) more
         end) (S (length (after s))) s
  | Group i r' => mt fl r' s (fun s' => k (set_cap i s s'))
  | WordB => if at_boundary s then k s else None
  end.

Fixpoint ngroups (r : regex) : nat :=
  match r with
  | Seq r1 r2 | Alt r1 r2 => ngroups r1 + ngroups r2
  | Star _ r' => ngroups r'
  | Group _ r' => S (ngroups r')
  | _ => 0
  end.

(** A match object: where it starts, and the matcher's final position. *)
Record match_obj : Type := { m_start : nat; m_end : mstate }.

(** [m.group(i)]; a group that did not take part reads as the empty text. *)
Definition group (m : match_obj) (i : nat) : string :=
  match i with
  | 0 =>
      let e := m_end m in
      PyStr.str (rev (take (length (before e) - m_start m) (before e)))
  | _ =>
      match List.find (fun p => fst p =? i) (caps (m_end m)) with
      | Some p => snd p
      | None => ""
      end
  end.

(** The leftmost match starting at or after the current position. *)
Fixpoint search_from (fl : flags) (r : regex) (bef aft : list ascii) : option match_obj :=
  match mt fl r {| before := bef; after := aft; caps := [] |} Some with
  | Some e => Some {| m_start := length bef; m_end := e |}
  | None =>
      match aft with
      | [] => None
      | c :: aft' => search_from fl r (c :: bef) aft'
      end
  end.

(** [re.search(pattern, text, flags)] *)
Definition search (r : regex) (text : string) (fl : flags) : option match_obj :=
  search_from fl r [] (PyStr.chars text).

(** An element of the list [re.findall] returns: a text, or a tuple of
    texts when the pattern has more than one group. *)
Inductive found : Type :=
| FStr (s : string)
| FTuple (l : list string).

Definition found_of (r : regex) (m : match_obj) : found :=
  match ngroups r with
  | 0 => FStr (group m 0)
  | 1 => FStr (group m 1)
  | n => FTuple (map (group m) (seq 1 n))
  end.

Fixpoint findall_from (fuel : nat) (fl : flags) (r : regex) (bef aft : list ascii) : list found :=
  match fuel with
  | 0 => []
  | S fuel' =>
      match search_from fl r bef aft with
      | None => []
      | Some m =>
          let e := m_end m in
          if length (before e) =? m_start m
          then (* an empty match: step over one character *)
            found_of r m ::
            match after e with
            | [] => []
            | c :: aft' => findall_from fuel' fl r (c :: before e) aft'
            end
          else found_of r m :: findall_from fuel' fl r (before e) (after e)
      end
  end.

(** [re.findall(pattern, text, flags)] *)
Definition findall (r : regex) (text : string) (fl : flags) : list found :=
  findall_from (S (String.length text)) fl r [] (PyStr.chars text).

(** *** Pattern syntax *)

Definition plus (r : regex) : regex := Seq r (Star true r).
Definition star (r : regex) : regex := Star true r.
Definition lazy_star (r : regex) : regex := Star false r.
Definition opt (r : regex) : regex := Alt r Eps.

Fixpoint lits (l : list ascii) : regex :=
  match l with
  | [] => Eps
  | [c] => Lit c
  | c :: l' => Seq (Lit c) (lits l')
  end.

(** A literal text (every character stands for itself). *)
Definition lit (s : string) : regex := lits (PyStr.chars s).

Fixpoint seqs (l : list regex) : regex :=
  match l with
  | [] => Eps
  | [r] => r
  | r :: l' => Seq r (seqs l')
  end.

Fixpoint alts (l : list regex) : regex :=
  match l with
  | [] => Eps
  | [r] => r
  | r :: l' => Alt r (alts l')
  end.

Definition ws : regex := Class false [CSpace].          (* \s *)
Definition word : regex := Class false [CWord].         (* \w *)
Definition upper : regex := Class false [CRange "A" "Z"].  (* [A-Z] *)
Definition alpha : regex := Class false [CRange "a" "z"; CRange "A" "Z"].
Definition ident_char : regex :=                        (* [a-zA-Z0-9_] *)
  Class false [CRange "a" "z"; CRange "A" "Z"; CRange "0" "9"; CChar "_"].
Definition dquote : ascii := ascii_of_nat 34.
(** A quote character, single or double, and any character but these. *)
Definition quote : regex := Class false [CChar "'"; CChar dquote].
Definition not_quote : regex := Class true [CChar "'"; CChar dquote].

End Re.

(** ** Parsed definition files: [xml.etree.ElementTree] elements *)

Module Xml.

Inductive element : Type :=
| Element (tag : string) (text : option string)
          (attrib : list (string * string)) (children : list element).

Definition tag (e : element) : string := let 'Element t _ _ _ := e in t.
Definition text (e : element) : option string := let 'Element _ t _ _ := e in t.
Definition children (e : element) : list element := let 'Element _ _ _ c := e in c.

(** [bool(e.text)]: the text is present and not empty. *)
Definition has_text (e : element) : bool :=
  match text e with
  | Some t => negb (t =? "")%string
  | None => false
  end.

(** [e.text.strip()], read where [e.text] is known to be truthy. *)
Definition stripped_text (e : element) : string :=
  match text e with
  | Some t => PyStr.strip t
  | None => ""
  end.

(** [e.iter()]: the element and all its descendants, in document order. *)
Fixpoint iter (e : element) : list element :=
  match e with
  | Element _ _ _ cs =>
      e :: (fix iter_all (l : list element) : list element :=
              match l with
              | [] => []
              | c :: l' => iter c ++ iter_all l'
              end) cs
  end.

(** The outcome of [ET.parse(file).getroot()]: the parser raises on a
    malformed or unreadable file. *)
Inductive parsed : Type :=
| ParseError (msg : string)
| Parsed (root : element).

End Xml.

(** ** Normalized values: what [xml_to_dict] builds *)

Inductive value : Type :=
| VNone
| VStr (s : string)
| VList (l : list value)
| VDict (d : list (string * value)).

(** A Python [dict] whose insertion order is kept: assignment to an
    existing key keeps the key's place. *)
Module Dict.

Fixpoint get {V} (d : list (string * V)) (k : string) : option V :=
  match d with
  | [] => None
  | (k', v) :: d' => if (k' =? k)%string then Some v else get d' k
  end.

Fixpoint set {V} (d : list (string * V)) (k : string) (v : V) : list (string * V) :=
  match d with
  | [] => [(k, v)]
  | (k', v') :: d' =>
      if (k' =? k)%string then (k, v) :: d' else (k', v') :: set d' k v
  end.

(** [d.update(other)] *)
Definition update {V} (d other : list (string * V)) : list (string * V) :=
  fold_left (fun acc kv => set acc (fst kv) (snd kv)) other d.

End Dict.

(** ** Relationships (edges) *)

(** A relationship dictionary.  The converter writes [from], [to], [type]
    and, for most edge types, [details]; the object-level parsers write
    [context] instead. *)
Record relationship : Type := {
  r_from : string;
  r_to : string;
  r_type : string;
  r_details : option string;
  r_context : option string
}.

Global Instance relationship_eq_dec : EqDecision relationship.
Proof. solve_decision. Defined.

(** The (from, to, type) triple that identifies an edge. *)
Definition triple (r : relationship) : string * string * string :=
  (r_from r, r_to r, r_type r).

Definition edge (f t ty : string) : relationship :=
  {| r_from := f; r_to := t; r_type := ty; r_details := None; r_context := None |}.

Definition edge_d (f t ty d : string) : relationship :=
  {| r_from := f; r_to := t; r_type := ty; r_details := Some d; r_context := None |}.

Definition edge_c (f t ty c : string) : relationship :=
  {| r_from := f; r_to := t; r_type := ty; r_details := None; r_context := Some c |}.

Definition has_type (ty : string) (r : relationship) : bool := (r_type r =? ty)%string.

(** ** The source dependency extractor ([metadata_converter.py]) *)

Module Extractor.
Import Re.

(** The pattern tables, in the order of the source.  Each entry is preceded
    by its pattern text, where [quote] stands for the class of the two
    quote characters, (...) for the object-name group
    "([A-Z][a-zA-Z0-9_]*(?:__c)?)", (NAME) for the group of
    "[A-Z][a-zA-Z0-9_]*" and (METHOD) for the group of
    "[a-zA-Z][a-zA-Z0-9_]*". *)

(** "[A-Z][a-zA-Z0-9_]*(?:__c)?" *)
Definition sobject_name : regex := seqs [upper; star ident_char; opt (lit "__c")].
(** "[A-Z][a-zA-Z0-9_]+" *)
Definition class_name : regex := Seq upper (plus ident_char).
(** "[A-Z][a-zA-Z0-9_]*" *)
Definition label_name : regex := Seq upper (star ident_char).

(** "SELECT\s+(.*?)\s+FROM\s+([A-Z][a-zA-Z0-9_]*(?:__c)?)\b" *)
Definition select_from : regex :=
  seqs [lit "SELECT"; plus ws; Group 1 (lazy_star Dot); plus ws; lit "FROM"; plus ws;
        Group 2 sobject_name; WordB].

Definition soql_patterns : list regex := [
  (* "\[SELECT\s+(.*?)\s+FROM\s+(...)\b" *)
  Seq (Lit "[") select_from;
  (* "Database\.query\s*\(\s*[quote]SELECT\s+(.*?)\s+FROM\s+(...)\b" *)
  seqs [lit "Database.query"; star ws; Lit "("; star ws; quote; select_from];
  (* "Database\.getQueryLocator\s*\(\s*[quote]SELECT\s+(.*?)\s+FROM\s+(...)\b" *)
  seqs [lit "Database.getQueryLocator"; star ws; Lit "("; star ws; quote; select_from];
  (* "\bFROM\s+(...)\b" *)
  seqs [WordB; lit "FROM"; plus ws; Group 1 sobject_name; WordB]
].

(** "\b([A-Z][a-zA-Z0-9_]*(?:__c)?)\b", applied to a SELECT clause. *)
Definition select_field : regex := seqs [WordB; Group 1 sobject_name; WordB].

Definition dml_patterns : list regex := [
  (* "\b(?:insert|update|delete|upsert)\s+(...)\b" *)
  seqs [WordB; alts [lit "insert"; lit "update"; lit "delete"; lit "upsert"]; plus ws;
        Group 1 sobject_name; WordB];
  (* "\bnew\s+(...)\s*\(" *)
  seqs [WordB; lit "new"; plus ws; Group 1 sobject_name; star ws; Lit "("];
  (* "List<(...)>" *)
  seqs [lit "List<"; Group 1 sobject_name; Lit ">"];
  (* "Map<[^,]+,\s*(...)>" *)
  seqs [lit "Map<"; plus (Class true [CChar ","]); Lit ","; star ws; Group 1 sobject_name; Lit ">"];
  (* "Set<(...)>" *)
  seqs [lit "Set<"; Group 1 sobject_name; Lit ">"];
  (* "Schema\.(...)" *)
  seqs [lit "Schema."; Group 1 sobject_name];
  (* "Schema\.getGlobalDescribe\(\)\.get\([quote](...)[quote]" *)
  seqs [lit "Schema.getGlobalDescribe().get("; quote; Group 1 sobject_name; quote]
].

Definition field_patterns : list regex := [
  (* "\.(...)(?:\s*=|\s*!=|\s*>|\s*<)" *)
  seqs [Lit "."; Group 1 sobject_name;
        alts [Seq (star ws) (Lit "="); Seq (star ws) (lit "!=");
              Seq (star ws) (Lit ">"); Seq (star ws) (Lit "<")]];
  (* "\.get\([quote](...)[quote]" *)
  seqs [lit ".get("; quote; Group 1 sobject_name; quote];
  (* "\.put\([quote](...)[quote]" *)
  seqs [lit ".put("; quote; Group 1 sobject_name; quote]
].

Definition class_patterns : list regex := [
  (* "\b([A-Z][a-zA-Z0-9_]+)\.(METHOD)\s*\(" *)
  seqs [WordB; Group 1 class_name; Lit "."; Group 2 (Seq alpha (star ident_char));
        star ws; Lit "("];
  (* "\bnew\s+([A-Z][a-zA-Z0-9_]+)\s*\(" *)
  seqs [WordB; lit "new"; plus ws; Group 1 class_name; star ws; Lit "("];
  (* "extends\s+([A-Z][a-zA-Z0-9_]+)\b" *)
  seqs [lit "extends"; plus ws; Group 1 class_name; WordB];
  (* "implements\s+([A-Z][a-zA-Z0-9_]+)\b" *)
  seqs [lit "implements"; plus ws; Group 1 class_name; WordB];
  (* "@([A-Z][a-zA-Z0-9_]+)" *)
  seqs [Lit "@"; Group 1 class_name];
  (* "catch\s*\(\s*([A-Z][a-zA-Z0-9_]+Exception)" *)
  seqs [lit "catch"; star ws; Lit "("; star ws;
        Group 1 (seqs [upper; plus ident_char; lit "Exception"])]
].

Definition system_classes : gset string :=
  list_to_set
    ["System"; "Database"; "String"; "Integer"; "Boolean"; "Decimal"; "Date"; "DateTime";
     "Time"; "Messaging"; "Http"; "HttpRequest"; "HttpResponse"; "JSON"; "Math"; "Test";
     "Schema"; "UserInfo"; "Limits"; "ApexPages"; "PageReference"; "Blob"; "Crypto";
     "Pattern"; "Matcher"; "Exception"; "DmlException"; "QueryException"].

Definition custom_settings_patterns : list regex := [
  (* "([A-Z][a-zA-Z0-9_]*__c)\.getInstance\(\)" *)
  seqs [Group 1 (seqs [upper; star ident_char; lit "__c"]); lit ".getInstance()"];
  (* "([A-Z][a-zA-Z0-9_]*__c)\.getValues\(\)" *)
  seqs [Group 1 (seqs [upper; star ident_char; lit "__c"]); lit ".getValues()"];
  (* "([A-Z][a-zA-Z0-9_]*__c)\.getAll\(\)" *)
  seqs [Group 1 (seqs [upper; star ident_char; lit "__c"]); lit ".getAll()"];
  (* "([A-Z][a-zA-Z0-9_]*__mdt)\b" *)
  seqs [Group 1 (seqs [upper; star ident_char; lit "__mdt"]); WordB]
].

Definition webservice_patterns : list regex := [
  (* "\.setEndpoint\s*\(\s*[quote]([^quote]+)[quote]" *)
  seqs [lit ".setEndpoint"; star ws; Lit "("; star ws; quote; Group 1 (plus not_quote); quote];
  (* "@RestResource\s*\(\s*urlMapping\s*=\s*[quote]([^quote]+)[quote]" *)
  seqs [lit "@RestResource"; star ws; Lit "("; star ws; lit "urlMapping"; star ws; Lit "=";
        star ws; quote; Group 1 (plus not_quote); quote];
  (* "@HttpGet|@HttpPost|@HttpPut|@HttpDelete|@HttpPatch" *)
  alts [lit "@HttpGet"; lit "@HttpPost"; lit "@HttpPut"; lit "@HttpDelete"; lit "@HttpPatch"];
  (* "Webservice\s+static" *)
  seqs [lit "Webservice"; plus ws; lit "static"];
  (* "Http\s+\w+\s*=\s*new\s+Http\(\)" *)
  seqs [lit "Http"; plus ws; plus word; star ws; Lit "="; star ws; lit "new"; plus ws;
        lit "Http()"]
].

Definition email_patterns : list regex := [
  (* "\.setTemplateId\s*\(\s*[quote]([^quote]+)[quote]" *)
  seqs [lit ".setTemplateId"; star ws; Lit "("; star ws; quote; Group 1 (plus not_quote); quote];
  (* "EmailTemplate\s+\w+" *)
  seqs [lit "EmailTemplate"; plus ws; plus word];
  (* "Messaging\.SingleEmailMessage" *)
  lit "Messaging.SingleEmailMessage";
  (* "Messaging\.MassEmailMessage" *)
  lit "Messaging.MassEmailMessage";
  (* "Messaging\.sendEmail" *)
  lit "Messaging.sendEmail"
].

Definition label_patterns : list regex := [
  (* "Label\.(NAME)" *)
  seqs [lit "Label."; Group 1 label_name];
  (* "\$Label\.(NAME)" *)
  seqs [lit "$Label."; Group 1 label_name]
].

Definition static_resource_patterns : list regex := [
  (* "\$Resource\.(NAME)" *)
  seqs [lit "$Resource."; Group 1 label_name];
  (* "StaticResource\.(NAME)" *)
  seqs [lit "StaticResource."; Group 1 label_name]
].

(** A dependency record: category name to list of referenced names. *)
Abbreviation deps := (gmap string (list string)).

(** [dependencies[k].append(x)] and [dependencies[k].extend(xs)]; every key
    used below is a key of the initial record. *)
Definition append (k x : string) (d : deps) : deps := alter (λ l, l ++ [x]) k d.
Definition extend (k : string) (xs : list string) (d : deps) : deps :=
  alter (λ l, l ++ xs) k d.

(** The texts among the results of [findall]; for a pattern with at most
    one group every result is a text. *)
Definition texts (l : list found) : list string :=
  omap (λ f, match f with FStr s => Some s | FTuple _ => None end) l.

Definition initial_dependencies : deps :=
  list_to_map
    [("objects", []); ("classes", []); ("fields", []); ("methods", []);
     ("custom_settings", []); ("web_services", []); ("email_templates", []);
     ("custom_labels", []); ("static_resources", []); ("triggers", []);
     ("workflows", [])].

(** 1. SOQL/SOSL queries: objects and fields. *)
Definition soql_match (d : deps) (m : found) : deps :=
  match m with
  | FTuple [fields_str; object_name] =>
      let d := append "objects" object_name d in
      let field_matches := texts (findall select_field fields_str no_flags) in
      extend "fields" (map (λ field, object_name +:+ "." +:+ field) field_matches) d
  | FTuple _ => d
  | FStr s => append "objects" s d
  end.

Definition soql_step (source_code : string) (d : deps) (pattern : regex) : deps :=
  fold_left soql_match (findall pattern source_code flag_IS) d.

(** 2. DML operations and object references. *)
Definition dml_step (source_code : string) (d : deps) (pattern : regex) : deps :=
  extend "objects" (texts (findall pattern source_code flag_I)) d.

(** 3, 5..9: the matches of each pattern are added to one category. *)
Definition plain_step (k source_code : string) (d : deps) (pattern : regex) : deps :=
  extend k (texts (findall pattern source_code no_flags)) d.

(** 4. Class dependencies and method calls. *)
Definition class_match (d : deps) (m : found) : deps :=
  match m with
  | FTuple [class_name; method_name] =>
      if decide (class_name ∈ system_classes) then d
      else append "methods" (class_name +:+ "." +:+ method_name)
             (append "classes" class_name d)
  | FTuple _ => d
  | FStr s =>
      if decide (s ∈ system_classes) then d else append "classes" s d
  end.

Definition class_step (source_code : string) (d : deps) (pattern : regex) : deps :=
  fold_left class_match (findall pattern source_code no_flags) d.

(** The record before the final clean-up. *)
Definition raw_dependencies (source_code : string) : deps :=
  let d := initial_dependencies in
  let d := fold_left (soql_step source_code) soql_patterns d in
  let d := fold_left (dml_step source_code) dml_patterns d in
  let d := fold_left (plain_step "fields" source_code) field_patterns d in
  let d := fold_left (class_step source_code) class_patterns d in
  let d := fold_left (plain_step "custom_settings" source_code) custom_settings_patterns d in
  let d := fold_left (plain_step "web_services" source_code) webservice_patterns d in
  let d := fold_left (plain_step "email_templates" source_code) email_patterns d in
  let d := fold_left (plain_step "custom_labels" source_code) label_patterns d in
  fold_left (plain_step "static_resources" source_code) static_resource_patterns d.

(** [dep and len(dep) > 1] *)
Definition keep (dep : string) : bool :=
  negb (dep =? "")%string && (1 <? PyStr.len dep).

(** [list(set([dep for dep in l if dep and len(dep) > 1]))] *)
Definition clean (l : list string) : list string :=
  PyStr.list_set (List.filter keep l).

(** [extract_comprehensive_dependencies(source_code, component_name,
    component_type)]; the name and the kind are not read. *)
Definition extract_comprehensive_dependencies
    (source_code component_name component_type : string) : deps :=
  clean <$> raw_dependencies source_code.

(** [dependencies[k]] *)
Definition category (d : deps) (k : string) : list string := default [] (d !! k).

(** The category set of the specification's dependency record. *)
Definition category_set : list string :=
  ["objects"; "classes"; "fields"; "methods"; "custom_settings"; "web_services";
   "email_templates"; "custom_labels"; "static_resources"].

(** "trigger\s+\w+\s+on\s+(\w+)\s*\(" *)
Definition trigger_object_pattern : regex :=
  seqs [lit "trigger"; plus ws; plus word; plus ws; lit "on"; plus ws;
        Group 1 (plus word); star ws; Lit "("].

(** [extract_trigger_object(source_code)] *)
Definition extract_trigger_object (source_code : string) : option string :=
  match search trigger_object_pattern source_code flag_I with
  | Some m => Some (group m 1)
  | None => None
  end.

(** "trigger\s+\w+\s+on\s+\w+\s*\(\s*([^)]+)\s*\)" *)
Definition trigger_events_pattern : regex :=
  seqs [lit "trigger"; plus ws; plus word; plus ws; lit "on"; plus ws;
        plus word; star ws; Lit "("; star ws;
        Group 1 (plus (Class true [CChar ")"])); star ws; Lit ")"].

(** [extract_trigger_events(source_code)] *)
Definition extract_trigger_events (source_code : string) : list string :=
  match search trigger_events_pattern source_code flag_I with
  | Some m => map PyStr.strip (PyStr.split (group m 1) ",")
  | None => []
  end.

End Extractor.

(** ** The converter ([SalesforceMetadataConverter]) *)

Module Converter.
Import Extractor.

(** [self.conversion_stats] *)
Record stats : Type := {
  objects_processed : nat;
  fields_processed : nat;
  layouts_processed : nat;
  classes_processed : nat;
  triggers_processed : nat;
  workflows_processed : nat;
  errors : list string
}.

(** The mutable attributes of the converter. *)
Record converter : Type := {
  relationships : list relationship;
  conversion_stats : stats
}.

Definition initial_stats : stats :=
  {| objects_processed := 0; fields_processed := 0; layouts_processed := 0;
     classes_processed := 0; triggers_processed := 0; workflows_processed := 0;
     errors := [] |}.

(** [__init__] *)
Definition init : converter :=
  {| relationships := []; conversion_stats := initial_stats |}.

(** *** Methods as state transformers *)

Definition M (A : Type) : Type := converter → A * converter.

Definition ret {A} (x : A) : M A := λ st, (x, st).
Definition bind {A B} (m : M A) (f : A → M B) : M B :=
  λ st, let '(x, st') := m st in f x st'.

Notation "'let*' x ':=' m 'in' k" := (bind m (λ x, k))
  (at level 10, x name, m at level 100, k at level 200).
Notation "m1 '>>' m2" := (bind m1 (λ _, m2))
  (at level 100, m2 at level 200, right associativity).

(** [self.relationships.append(r)] *)
Definition add_relationship (r : relationship) : M unit :=
  λ st, (tt, {| relationships := relationships st ++ [r];
                conversion_stats := conversion_stats st |}).

Definition modify_stats (f : stats → stats) : M unit :=
  λ st, (tt, {| relationships := relationships st;
                conversion_stats := f (conversion_stats st) |}).

(** [self.conversion_stats['errors'].append(msg)] *)
Definition record_error (msg : string) : M unit :=
  modify_stats (λ s,
    {| objects_processed := objects_processed s; fields_processed := fields_processed s;
       layouts_processed := layouts_processed s; classes_processed := classes_processed s;
       triggers_processed := triggers_processed s;
       workflows_processed := workflows_processed s;
       errors := errors s ++ [msg] |}).

(** [self.conversion_stats[counter] += 1] *)
Inductive counter : Type :=
| Objects | Fields | Layouts | Classes | Triggers | Workflows.

Definition count_of (c : counter) (s : stats) : nat :=
  match c with
  | Objects => objects_processed s
  | Fields => fields_processed s
  | Layouts => layouts_processed s
  | Classes => classes_processed s
  | Triggers => triggers_processed s
  | Workflows => workflows_processed s
  end.

Definition bump (c : counter) (c' : counter) (n : nat) : nat :=
  match c, c' with
  | Objects, Objects | Fields, Fields | Layouts, Layouts
  | Classes, Classes | Triggers, Triggers | Workflows, Workflows => n + 1
  | _, _ => n
  end.

Definition increment (c : counter) : M unit :=
  modify_stats (λ s,
    {| objects_processed := bump c Objects (objects_processed s);
       fields_processed := bump c Fields (fields_processed s);
       layouts_processed := bump c Layouts (layouts_processed s);
       classes_processed := bump c Classes (classes_processed s);
       triggers_processed := bump c Triggers (triggers_processed s);
       workflows_processed := bump c Workflows (workflows_processed s);
       errors := errors s |}).

(** [for x in l: body(x)] *)
Fixpoint for_each {A} (l : list A) (body : A → M unit) : M unit :=
  match l with
  | [] => ret tt
  | x :: l' => body x >> for_each l' body
  end.

(** A loop that collects the truthy results of its body:
    [for x in l: y = body(x); if y: out.append(y)]. *)
Fixpoint collect {A B} (l : list A) (body : A → M (option B)) : M (list B) :=
  match l with
  | [] => ret []
  | x :: l' =>
      let* y := body x in
      let* ys := collect l' body in
      ret (match y with Some b => b :: ys | None => ys end)
  end.

(** *** [remove_namespace] and [xml_to_dict] *)

(** [tag.split(brace)[-1] if brace in tag else tag], for the closing brace. *)
Definition remove_namespace (tag : string) : string :=
  if PyStr.contains "}" tag then List.last (PyStr.split tag "}") tag else tag.

(** One step of the loop over the children: repeated tags collapse into a
    list, in document order. *)
Definition add_child (children : list (string * value)) (child_tag : string)
    (child_value : value) : list (string * value) :=
  match Dict.get children child_tag with
  | Some (VList l) => Dict.set children child_tag (VList (l ++ [child_value]))
  | Some v => Dict.set children child_tag (VList [v; child_value])
  | None => Dict.set children child_tag child_value
  end.

Fixpoint xml_to_dict (element : Xml.element) : value :=
  match element with
  | Xml.Element _ text attrib cs =>
      let stripped := match text with Some t => PyStr.strip t | None => "" end in
      let has_text := negb (stripped =? "")%string in
      if has_text && match cs with [] => true | _ => false end
      then VStr stripped
      else
        let result := if has_text then [("_text", VStr stripped)] else [] in
        let result :=
          match attrib with
          | [] => result
          | _ => Dict.set result "_attributes"
                   (VDict (map (λ kv, (fst kv, VStr (snd kv))) attrib))
          end in
        let children :=
          (fix loop (l : list Xml.element) (children : list (string * value)) :=
             match l with
             | [] => children
             | child :: l' =>
                 loop l' (add_child children (remove_namespace (Xml.tag child))
                                    (xml_to_dict child))
             end) cs [] in
        match Dict.update result children with
        | [] => VNone
        | result => VDict result
        end
  end.

(** *** The input tree *)

(** A definition file found by a [glob]: its file name and what
    [ET.parse] makes of it. *)
Record xml_file : Type := {
  xf_name : string;
  xf_parse : Xml.parsed
}.

(** The outcome of [open(file).read()]. *)
Inductive read_result : Type :=
| ReadError (msg : string)
| ReadOk (content : string).

(** A source file ([*.cls], [*.trigger]) with its optional descriptor. *)
Record source_file : Type := {
  sf_name : string;
  sf_read : read_result;
  sf_meta : option Xml.parsed      (* [None]: no descriptor file *)
}.

(** One directory under [objects/]; an absent sub-directory is an empty
    list of files. *)
Record object_dir : Type := {
  od_name : string;
  od_object_file : option Xml.parsed;   (* [None]: no object file *)
  od_fields : list xml_file;
  od_listViews : list xml_file;
  od_webLinks : list xml_file
}.

Record source_tree : Type := {
  source_dir : string;
  st_objects : list object_dir;
  st_layouts : list xml_file;
  st_classes : list source_file;
  st_triggers : list source_file;
  st_workflows : list xml_file
}.

(** [str(a / b)] *)
Definition path_join (a b : string) : string := a +:+ "/" +:+ b.

(** The message format of the [except] branches, for a file of [kind] at
    [dir/name] whose parser raised [e]. *)
Definition error_message (kind dir name e : string) : string :=
  "Error processing " +:+ kind +:+ " " +:+ path_join dir name +:+ ": " +:+ e.

(** *** Entity records *)

(** A field, list view, web link or workflow. *)
Record component : Type := {
  c_id : string;
  c_type : string;
  c_name : string;
  c_object : string;
  c_metadata : value
}.

Record object_data : Type := {
  o_id : string;
  o_type : string;
  o_name : string;
  o_metadata : value;
  o_fields : list component;
  o_listViews : list component;
  o_webLinks : list component
}.

Record section_data : Type := {
  s_label : string;
  s_columns : nat;
  s_fields : list string
}.

Record related_list_data : Type := {
  rl_object : string;
  rl_fields : list string;
  rl_label : string
}.

Record layout_data : Type := {
  l_id : string;
  l_type : string;
  l_name : string;
  l_object : string;
  l_metadata : value;
  l_fields_on_layout : list string;
  l_sections : list section_data;
  l_related_lists : list related_list_data
}.

Record class_data : Type := {
  k_id : string;
  k_type : string;
  k_name : string;
  k_source_code : string;
  k_metadata : value;
  k_comprehensive_dependencies : deps
}.

Record trigger_data : Type := {
  t_id : string;
  t_type : string;
  t_name : string;
  t_source_code : string;
  t_metadata : value;
  t_trigger_events : list string;
  t_comprehensive_dependencies : deps;
  t_object : option string           (* [None]: the key is absent *)
}.

(** *** Fields, list views, web links, workflows *)

(** The empty dictionary that [metadata] starts as. *)
Definition empty_metadata : value := VDict [].

Definition process_field (dir : string) (field_file : xml_file) (object_name : string)
  : M (option component) :=
  match xf_parse field_file with
  | Xml.Parsed root =>
      let field_name := PyStr.replace (PyStr.stem (xf_name field_file)) ".field-meta" "" in
      let field_data :=
        {| c_id := "field_" +:+ object_name +:+ "_" +:+ field_name;
           c_type := "CustomField"; c_name := field_name; c_object := object_name;
           c_metadata := xml_to_dict root |} in
      increment Fields >> ret (Some field_data)
  | Xml.ParseError e =>
      record_error (error_message "field" dir (xf_name field_file) e) >>
      ret None
  end.

Definition process_listview (dir : string) (listview_file : xml_file) (object_name : string)
  : M (option component) :=
  match xf_parse listview_file with
  | Xml.Parsed root =>
      let listview_name :=
        PyStr.replace (PyStr.stem (xf_name listview_file)) ".listView-meta" "" in
      ret (Some {| c_id := "listview_" +:+ object_name +:+ "_" +:+ listview_name;
                   c_type := "ListView"; c_name := listview_name;
                   c_object := object_name; c_metadata := xml_to_dict root |})
  | Xml.ParseError e =>
      record_error (error_message "listview" dir (xf_name listview_file) e) >>
      ret None
  end.

Definition process_weblink (dir : string) (weblink_file : xml_file) (object_name : string)
  : M (option component) :=
  match xf_parse weblink_file with
  | Xml.Parsed root =>
      let weblink_name :=
        PyStr.replace (PyStr.stem (xf_name weblink_file)) ".webLink-meta" "" in
      ret (Some {| c_id := "weblink_" +:+ object_name +:+ "_" +:+ weblink_name;
                   c_type := "WebLink"; c_name := weblink_name;
                   c_object := object_name; c_metadata := xml_to_dict root |})
  | Xml.ParseError e =>
      record_error (error_message "weblink" dir (xf_name weblink_file) e) >>
      ret None
  end.

Definition process_workflow (dir : string) (workflow_file : xml_file)
  : M (option component) :=
  match xf_parse workflow_file with
  | Xml.Parsed root =>
      let workflow_name :=
        PyStr.replace (PyStr.stem (xf_name workflow_file)) ".workflow-meta" "" in
      let workflow_data :=
        {| c_id := "workflow_" +:+ workflow_name; c_type := "Workflow";
           c_name := workflow_name; c_object := workflow_name;
           c_metadata := xml_to_dict root |} in
      add_relationship (edge ("object_" +:+ workflow_name) (c_id workflow_data)
                             "HAS_WORKFLOW") >>
      increment Workflows >>
      ret (Some workflow_data)
  | Xml.ParseError e =>
      record_error (error_message "workflow" dir (xf_name workflow_file) e) >>
      ret None
  end.

(** *** [process_custom_object] *)

(** One of the three loops over the sub-definitions of an object: each
    file that yields a record adds the record and one structural edge. *)
Definition process_children (dir object_id object_name rel_type : string)
    (process : string → xml_file → string → M (option component))
    (files : list xml_file) : M (list component) :=
  collect files (λ file,
    let* data := process dir file object_name in
    match data with
    | Some d => add_relationship (edge object_id (c_id d) rel_type) >> ret (Some d)
    | None => ret None
    end).

Definition process_custom_object (objects_dir : string) (object_path : object_dir)
  : M object_data :=
  let object_name := od_name object_path in
  let dir := path_join objects_dir object_name in
  let object_id := "object_" +:+ object_name in
  let object_file := path_join dir (object_name +:+ ".object-meta.xml") in
  let* metadata :=
    match od_object_file object_path with
    | None => ret empty_metadata
    | Some (Xml.Parsed root) => increment Objects >> ret (xml_to_dict root)
    | Some (Xml.ParseError e) =>
        record_error ("Error processing " +:+ object_file +:+ ": " +:+ e) >>
        ret empty_metadata
    end in
  let* fields :=
    process_children (path_join dir "fields") object_id object_name "HAS_FIELD"
      process_field (od_fields object_path) in
  let* listViews :=
    process_children (path_join dir "listViews") object_id object_name "HAS_LISTVIEW"
      process_listview (od_listViews object_path) in
  let* webLinks :=
    process_children (path_join dir "webLinks") object_id object_name "HAS_WEBLINK"
      process_weblink (od_webLinks object_path) in
  ret {| o_id := object_id; o_type := "CustomObject"; o_name := object_name;
         o_metadata := metadata; o_fields := fields; o_listViews := listViews;
         o_webLinks := webLinks |}.

(** *** Layouts *)

Definition is_tag (name : string) (e : Xml.element) : bool :=
  (remove_namespace (Xml.tag e) =? name)%string.

(** The stripped texts of the [field] elements among [l]. *)
Definition field_texts (l : list Xml.element) : list string :=
  map Xml.stripped_text (List.filter (λ e, is_tag "field" e && Xml.has_text e) l).

Definition _extract_layout_fields (layout_root : Xml.element) : list string :=
  PyStr.list_set (field_texts (Xml.iter layout_root)).

(** The loop over the children of one [layoutSection]. *)
Definition section_step (sd : section_data) (child : Xml.element) : section_data :=
  if is_tag "label" child && Xml.has_text child then
    {| s_label := Xml.stripped_text child; s_columns := s_columns sd;
       s_fields := s_fields sd |}
  else if is_tag "layoutColumns" child then
    {| s_label := s_label sd; s_columns := s_columns sd;
       s_fields := s_fields sd ++ field_texts (Xml.iter child) |}
  else sd.

Definition section_of (section : Xml.element) : section_data :=
  fold_left section_step (Xml.children section)
    {| s_label := ""; s_columns := 1; s_fields := [] |}.

Definition _extract_layout_sections (layout_root : Xml.element) : list section_data :=
  List.filter
    (λ sd, negb (s_label sd =? "")%string
           || match s_fields sd with [] => false | _ => true end)
    (map section_of (List.filter (is_tag "layoutSection") (Xml.iter layout_root))).

(** The loop over the children of one [relatedList]. *)
Definition related_step (ld : related_list_data) (child : Xml.element)
  : related_list_data :=
  if is_tag "relatedList" child && Xml.has_text child then
    {| rl_object := Xml.stripped_text child; rl_fields := rl_fields ld;
       rl_label := rl_label ld |}
  else if is_tag "fields" child then
    {| rl_object := rl_object ld;
       rl_fields := rl_fields ld ++
         map Xml.stripped_text (List.filter Xml.has_text (Xml.iter child));
       rl_label := rl_label ld |}
  else ld.

Definition related_list_of (related_list : Xml.element) : related_list_data :=
  fold_left related_step (Xml.children related_list)
    {| rl_object := ""; rl_fields := []; rl_label := "" |}.

Definition _extract_related_lists (layout_root : Xml.element) : list related_list_data :=
  List.filter (λ ld, negb (rl_object ld =? "")%string)
    (map related_list_of (List.filter (is_tag "relatedList") (Xml.iter layout_root))).

(** [str(n)] for a natural number. *)
Definition str_of_nat (n : nat) : string := pretty n.

Definition related_list_relationships (layout_id : string) (related_list : related_list_data)
  : list relationship :=
  if negb (rl_object related_list =? "")%string then
    edge_d layout_id ("object_" +:+ rl_object related_list) "SHOWS_RELATED_LIST"
      ("Layout shows related " +:+ rl_object related_list +:+ " records")
    :: map (λ field,
         edge_d layout_id ("field_" +:+ rl_object related_list +:+ "_" +:+ field)
           "DISPLAYS_RELATED_FIELD" ("Related list displays field " +:+ field))
         (rl_fields related_list)
  else [].

(** The edges [_create_layout_relationships] appends, in order. *)
Definition layout_relationships (layout_id object_name : string) (fields : list string)
    (related_lists : list related_list_data) : list relationship :=
  edge_d ("object_" +:+ object_name) layout_id "HAS_LAYOUT"
    ("Layout displays " +:+ str_of_nat (length fields) +:+ " fields")
  :: map (λ field,
       edge_d layout_id ("field_" +:+ object_name +:+ "_" +:+ field) "DISPLAYS_FIELD"
         ("Field " +:+ field +:+ " is displayed on layout")) fields
  ++ flat_map (related_list_relationships layout_id) related_lists.

Definition _create_layout_relationships (layout_id object_name : string)
    (fields : list string) (related_lists : list related_list_data) : M unit :=
  for_each (layout_relationships layout_id object_name fields related_lists)
    add_relationship.

(** The layout id: spaces become underscores; parentheses and their
    URL-encoded forms are dropped. *)
Definition layout_id_of (layout_name : string) : string :=
  let n := PyStr.replace layout_name " " "_" in
  let n := PyStr.replace n "(" "" in
  let n := PyStr.replace n ")" "" in
  let n := PyStr.replace n "%28" "" in
  let n := PyStr.replace n "%29" "" in
  "layout_" +:+ n.

Definition process_layout (dir : string) (layout_file : xml_file)
  : M (option layout_data) :=
  match xf_parse layout_file with
  | Xml.Parsed root =>
      let layout_name := PyStr.replace (PyStr.stem (xf_name layout_file)) ".layout-meta" "" in
      let object_name := List.hd "" (PyStr.split layout_name "-") in
      let fields_on_layout := _extract_layout_fields root in
      let sections := _extract_layout_sections root in
      let related_lists := _extract_related_lists root in
      let layout_data :=
        {| l_id := layout_id_of layout_name; l_type := "Layout"; l_name := layout_name;
           l_object := object_name; l_metadata := xml_to_dict root;
           l_fields_on_layout := fields_on_layout; l_sections := sections;
           l_related_lists := related_lists |} in
      _create_layout_relationships (l_id layout_data) object_name fields_on_layout
        related_lists >>
      increment Layouts >>
      ret (Some layout_data)
  | Xml.ParseError e =>
      record_error (error_message "layout" dir (xf_name layout_file) e) >>
      ret None
  end.

(** *** Relationships of code components *)

(** [obj_name, field_name = field.split('.', 1)], guarded by ['.' in field]:
    the edge of one entry of the fields (or methods) category, if any. *)
Definition dotted (entry : string) (mk : string → string → relationship)
  : list relationship :=
  match PyStr.split1 entry "." with
  | Some (a, b) => [mk a b]
  | None => []
  end.

(** The edges [_create_class_relationships] appends, in order.
    [dependencies[k]] is read with [category]: the extractor's record has
    every key. *)
Definition class_relationships (class_id : string) (dependencies : deps)
  : list relationship :=
  (* Object dependencies *)
  map (λ obj, edge_d class_id ("object_" +:+ obj) "USES_OBJECT"
                "References object in SOQL/DML operations")
      (category dependencies "objects")
  (* Class dependencies *)
  ++ map (λ cls, edge_d class_id ("class_" +:+ cls) "DEPENDS_ON_CLASS"
                   "Calls methods or instantiates class")
         (category dependencies "classes")
  (* Field dependencies *)
  ++ flat_map (λ field, dotted field (λ obj_name field_name,
         edge_d class_id ("field_" +:+ obj_name +:+ "_" +:+ field_name) "ACCESSES_FIELD"
           ("Accesses field " +:+ field_name +:+ " on " +:+ obj_name)))
       (category dependencies "fields")
  (* Method call relationships *)
  ++ flat_map (λ method, dotted method (λ cls_name method_name,
         edge_d class_id ("class_" +:+ cls_name) "CALLS_METHOD"
           ("Calls method " +:+ method_name)))
       (category dependencies "methods")
  (* Custom settings dependencies *)
  ++ map (λ setting, edge_d class_id ("object_" +:+ setting) "USES_CUSTOM_SETTING"
                       "Accesses custom setting or metadata")
         (category dependencies "custom_settings")
  (* Web service relationships *)
  ++ flat_map (λ service,
         if PyStr.startswith service "http" then
           [edge_d class_id
              ("webservice_" +:+ PyStr.replace (PyStr.replace service "/" "_") ":" "_")
              "CALLS_WEBSERVICE" ("Makes HTTP callout to " +:+ service)]
         else [])
       (category dependencies "web_services")
  (* Email template relationships *)
  ++ map (λ template, edge_d class_id ("emailtemplate_" +:+ template)
                        "USES_EMAIL_TEMPLATE" "Uses email template for messaging")
         (category dependencies "email_templates")
  (* Custom label relationships *)
  ++ map (λ label, edge_d class_id ("customlabel_" +:+ label) "USES_CUSTOM_LABEL"
                     "References custom label")
         (category dependencies "custom_labels")
  (* Static resource relationships *)
  ++ map (λ resource, edge_d class_id ("staticresource_" +:+ resource)
                        "USES_STATIC_RESOURCE" "References static resource")
         (category dependencies "static_resources").

Definition _create_class_relationships (class_id : string) (dependencies : deps)
  : M unit :=
  for_each (class_relationships class_id dependencies) add_relationship.

(** The edges [_create_trigger_relationships] appends, in order. *)
Definition trigger_relationships (trigger_id : string) (dependencies : deps)
    (trigger_object : option string) : list relationship :=
  (* Handler class relationships (common pattern) *)
  map (λ cls,
        if PyStr.contains "Handler" cls || PyStr.contains "Helper" cls then
          edge_d trigger_id ("class_" +:+ cls) "DELEGATES_TO_HANDLER"
            "Trigger delegates business logic to handler class"
        else
          edge_d trigger_id ("class_" +:+ cls) "CALLS_CLASS"
            "Trigger calls methods in this class")
      (category dependencies "classes")
  (* Object relationships (beyond the primary trigger object) *)
  ++ map (λ obj, edge_d trigger_id ("object_" +:+ obj) "AFFECTS_OBJECT"
                   ("Trigger performs operations on " +:+ obj))
         (List.filter (λ obj, negb (bool_decide (Some obj = trigger_object)))
            (category dependencies "objects"))
  (* Field access relationships *)
  ++ flat_map (λ field, dotted field (λ obj_name field_name,
         edge_d trigger_id ("field_" +:+ obj_name +:+ "_" +:+ field_name) "MODIFIES_FIELD"
           ("Trigger modifies or reads field " +:+ field_name)))
       (category dependencies "fields").

Definition _create_trigger_relationships (trigger_id : string) (dependencies : deps)
    (trigger_object : option string) : M unit :=
  for_each (trigger_relationships trigger_id dependencies trigger_object)
    add_relationship.

(** *** [process_apex_class] and [process_trigger] *)

(** What the body of the [try] reads before it changes any state: the
    source text and the descriptor.  Either read may raise. *)
Definition load (file : source_file) : string + (string * value) :=
  match sf_read file with
  | ReadError e => inl e
  | ReadOk source_code =>
      match sf_meta file with
      | None => inr (source_code, empty_metadata)
      | Some (Xml.Parsed root) => inr (source_code, xml_to_dict root)
      | Some (Xml.ParseError e) => inl e
      end
  end.

Definition process_apex_class (dir : string) (class_file : source_file)
  : M (option class_data) :=
  match load class_file with
  | inr (source_code, metadata) =>
      let class_name := PyStr.stem (sf_name class_file) in
      let class_id := "class_" +:+ class_name in
      let dependencies :=
        extract_comprehensive_dependencies source_code class_name "ApexClass" in
      _create_class_relationships class_id dependencies >>
      increment Classes >>
      ret (Some {| k_id := class_id; k_type := "ApexClass"; k_name := class_name;
                   k_source_code := source_code; k_metadata := metadata;
                   k_comprehensive_dependencies := dependencies |})
  | inl e =>
      record_error (error_message "class" dir (sf_name class_file) e) >>
      ret None
  end.

(** [bool(trigger_object)] *)
Definition truthy (o : option string) : bool :=
  match o with
  | Some s => negb (s =? "")%string
  | None => false
  end.

Definition process_trigger (dir : string) (trigger_file : source_file)
  : M (option trigger_data) :=
  match load trigger_file with
  | inr (source_code, metadata) =>
      let trigger_name := PyStr.stem (sf_name trigger_file) in
      let trigger_id := "trigger_" +:+ trigger_name in
      let trigger_object := extract_trigger_object source_code in
      let trigger_events := extract_trigger_events source_code in
      (if truthy trigger_object then
         add_relationship
           (edge_d ("object_" +:+ default "" trigger_object) trigger_id "HAS_TRIGGER"
              ("Trigger events: " +:+ PyStr.join ", " trigger_events))
       else ret tt) >>
      let dependencies :=
        extract_comprehensive_dependencies source_code trigger_name "ApexTrigger" in
      _create_trigger_relationships trigger_id dependencies trigger_object >>
      increment Triggers >>
      ret (Some {| t_id := trigger_id; t_type := "ApexTrigger"; t_name := trigger_name;
                   t_source_code := source_code; t_metadata := metadata;
                   t_trigger_events := if truthy trigger_object then trigger_events else [];
                   t_comprehensive_dependencies := dependencies;
                   t_object := if truthy trigger_object then trigger_object else None |})
  | inl e =>
      record_error (error_message "trigger" dir (sf_name trigger_file) e) >>
      ret None
  end.

(** *** [convert_all_metadata] *)

(** The result dictionary (the [conversion_info] entry, a time stamp and
    two paths, is left out). *)
Record all_metadata : Type := {
  am_objects : list object_data;
  am_layouts : list layout_data;
  am_classes : list class_data;
  am_triggers : list trigger_data;
  am_workflows : list component;
  am_relationships : list relationship
}.

Definition convert_all_metadata (tree : source_tree) : M all_metadata :=
  let dir := source_dir tree in
  let* objects :=
    collect (st_objects tree) (λ object_dir,
      let* object_data := process_custom_object (path_join dir "objects") object_dir in
      ret (Some object_data)) in
  let* layouts := collect (st_layouts tree) (process_layout (path_join dir "layouts")) in
  let* classes := collect (st_classes tree) (process_apex_class (path_join dir "classes")) in
  let* triggers := collect (st_triggers tree) (process_trigger (path_join dir "triggers")) in
  let* workflows :=
    collect (st_workflows tree) (process_workflow (path_join dir "workflows")) in
  λ st,
    ({| am_objects := objects; am_layouts := layouts; am_classes := classes;
        am_triggers := triggers; am_workflows := workflows;
        am_relationships := relationships st |}, st).

(** A run of a fresh converter over a tree. *)
Definition run (tree : source_tree) : all_metadata * converter :=
  convert_all_metadata tree init.

End Converter.

(** ** Impact analysis ([analyze_relationships.py]) *)

Module Analyzer.

(** An entry of [affected_by]: [source], [type], [details]. *)
Record dependent : Type := {
  d_source : string;
  d_type : string;
  d_details : string
}.

(** An entry of [affects]: [target], [type], [details]. *)
Record dependency : Type := {
  a_target : string;
  a_type : string;
  a_details : string
}.

(** [rel.get('details', '')] *)
Definition details_of (rel : relationship) : string := default "" (r_details rel).

Definition dependent_of (rel : relationship) : dependent :=
  {| d_source := r_from rel; d_type := r_type rel; d_details := details_of rel |}.

Definition dependency_of (rel : relationship) : dependency :=
  {| a_target := r_to rel; a_type := r_type rel; a_details := details_of rel |}.

(** The loop of [generate_impact_analysis] over [self.relationships],
    with the two lists it grows. *)
Fixpoint impact_loop (rels : list relationship) (component_id : string)
    (affected_by : list dependent) (affects : list dependency)
  : list dependent * list dependency :=
  match rels with
  | [] => (affected_by, affects)
  | rel :: rels' =>
      if (r_from rel =? component_id)%string then
        impact_loop rels' component_id affected_by (affects ++ [dependency_of rel])
      else if (r_to rel =? component_id)%string then
        impact_loop rels' component_id (affected_by ++ [dependent_of rel]) affects
      else impact_loop rels' component_id affected_by affects
  end.

(** [generate_impact_analysis(component_id)]: the pair
    [(affected_by, affects)]; the printed report is not modelled. *)
Definition generate_impact_analysis (relationships : list relationship)
    (component_id : string) : list dependent * list dependency :=
  impact_loop relationships component_id [] [].

(** [analyze_component_connectivity]: the two counters, as functions of
    the component id. *)
Definition incoming (relationships : list relationship) (component : string) : nat :=
  length (List.filter (λ rel, (r_to rel =? component)%string) relationships).
Definition outgoing (relationships : list relationship) (component : string) : nat :=
  length (List.filter (λ rel, (r_from rel =? component)%string) relationships).

End Analyzer.

(** ** The object-level passes *)

(** A field dictionary of the comprehensive parser, whose field names are
    read off the file names; of its keys the relationship analysis reads
    [name] and [referenceTo]. *)
Record parsed_field : Type := {
  pf_name : string;
  pf_type : string;
  pf_label : string;
  pf_referenceTo : option string
}.

(** A list view or web link dictionary, read for its [name]. *)
Record parsed_item : Type := {
  pi_name : string;
  pi_type : string
}.

Record parsed_object : Type := {
  po_name : string;
  po_type : string;
  po_fields : list parsed_field;
  po_listViews : list parsed_item;
  po_webLinks : list parsed_item
}.

(** The three relationships both parsers declare first. *)
Definition standard_relationships : list relationship := [
  edge_c "Contact" "Account" "BELONGS_TO" "Contact.AccountId lookup field";
  edge_c "Opportunity" "Account" "BELONGS_TO" "Opportunity.AccountId lookup field";
  edge_c "Opportunity" "Contact" "RELATES_TO" "Opportunity can have Contact roles"
].

(** [comprehensive_metadata_parser.py] *)
Module Comprehensive.

(** The names [target_object] is looked up in. *)
Definition known_objects : list string := ["Account"; "Contact"; "Opportunity"].

(** [x in l] for a list of texts. *)
Definition mem (x : string) (l : list string) : bool :=
  existsb (λ y, (y =? x)%string) l.

(** The relationships of one field of [obj_name], in the order appended. *)
Definition field_relationships (obj_name : string) (field : parsed_field)
  : list relationship :=
  let field_name := pf_name field in
  [edge_c obj_name field_name "HAS_FIELD"
     (obj_name +:+ " object has field " +:+ field_name)]
  (* Lookup/Reference relationships *)
  ++ match pf_referenceTo field with
     | Some reference_to =>
         if negb (reference_to =? "")%string then
           [edge_c obj_name reference_to "REFERENCES"
              (obj_name +:+ "." +:+ field_name +:+ " references " +:+ reference_to)]
         else []
     | None => []
     end
  (* Special field relationships *)
  ++ (if PyStr.endswith field_name "Id" && negb (field_name =? "Id")%string then
        let target_object := PyStr.replace field_name "Id" "" in
        if mem target_object known_objects then
          [edge_c obj_name target_object "LOOKUP_TO"
             (obj_name +:+ "." +:+ field_name +:+ " lookup to " +:+ target_object)]
        else []
      else []).

Definition object_relationships (obj_name : string) (obj_data : parsed_object)
  : list relationship :=
  flat_map (field_relationships obj_name) (po_fields obj_data)
  ++ map (λ listview,
       edge_c obj_name (pi_name listview) "HAS_LISTVIEW"
         (obj_name +:+ " object has list view " +:+ pi_name listview))
       (po_listViews obj_data)
  ++ map (λ weblink,
       edge_c obj_name (pi_name weblink) "HAS_WEBLINK"
         (obj_name +:+ " object has web link " +:+ pi_name weblink))
       (po_webLinks obj_data).

(** [analyze_comprehensive_relationships()], over [self.objects_data]
    (a dictionary from object name to object record, in insertion order). *)
Definition analyze_comprehensive_relationships
    (objects_data : list (string * parsed_object)) : list relationship :=
  standard_relationships
  ++ flat_map (λ kv, object_relationships (fst kv) (snd kv)) objects_data.

End Comprehensive.

(** [enhanced_metadata_parser.py] *)
Module Enhanced.

(** The exception that leaves the relationship analysis: a [str] method
    called on [None]. *)
Inductive exception : Type := AttributeError.

(** A field dictionary as [parse_contact_object] and
    [parse_opportunity_object] build it: [name], [type] and [label] hold
    the [.text] of an element, which is [None] for an element without
    text. *)
Record field_dict : Type := {
  ef_name : option string;
  ef_type : option string;
  ef_label : option string
}.

Record listview_dict : Type := {
  elv_name : option string;
  elv_type : string
}.

Record object_dict : Type := {
  eo_name : string;
  eo_type : string;
  eo_fields : list field_dict;
  eo_listViews : list listview_dict;
  eo_webLinks : list listview_dict
}.

(** The namespace the parser spells out in every path. *)
Definition ns : string := "{http://soap.sforce.com/2006/04/metadata}".

(** [e.findall('.//' + tag)]: the descendants of [e] with that tag, in
    document order; [e.find('.//' + tag)]: the first of them. *)
Definition findall (tag : string) (e : Xml.element) : list Xml.element :=
  List.filter (λ x, (Xml.tag x =? tag)%string) (List.tl (Xml.iter e)).

Definition find (tag : string) (e : Xml.element) : option Xml.element :=
  List.head (findall tag e).

(** The body of the loop over the [fields] elements. *)
Definition field_of (field : Xml.element) : option field_dict :=
  let field_name := find (ns +:+ "fullName") field in
  let field_type := find (ns +:+ "type") field in
  let field_label := find (ns +:+ "label") field in
  match field_name with
  | Some field_name =>
      Some {| ef_name := Xml.text field_name;
              ef_type := match field_type with
                         | Some field_type => Xml.text field_type
                         | None => Some "Unknown"
                         end;
              ef_label := match field_label with
                          | Some field_label => Xml.text field_label
                          | None => Xml.text field_name
                          end |}
  | None => None
  end.

(** The body of the loop over the [listViews] elements. *)
Definition listview_of (listview : Xml.element) : option listview_dict :=
  match find (ns +:+ "fullName") listview with
  | Some listview_name =>
      Some {| elv_name := Xml.text listview_name; elv_type := "ListView" |}
  | None => None
  end.

(** [parse_contact_object()] and [parse_opportunity_object()], which differ
    in the object name and the file only.  [file] is [None] when the
    object file does not exist; the result is [None] for the empty
    dictionary returned then and in the [except] branch. *)
Definition parse_object (name : string) (file : option Xml.parsed)
  : option object_dict :=
  match file with
  | Some (Xml.Parsed root) =>
      Some {| eo_name := name; eo_type := "CustomObject";
              eo_fields := omap field_of (findall (ns +:+ "fields") root);
              eo_listViews := omap listview_of (findall (ns +:+ "listViews") root);
              eo_webLinks := [] |}
  | Some (Xml.ParseError _) => None
  | None => None
  end.

(** [field_type in ['Lookup', 'MasterDetail']] *)
Definition is_lookup_type (field_type : option string) : bool :=
  match field_type with
  | Some ty => Comprehensive.mem ty ["Lookup"; "MasterDetail"]
  | None => false
  end.

(** The relationships of one field of [obj_name], or the exception its
    test raises.  [field_name.endswith('Id')] is evaluated only when the
    type is not a lookup type, and raises when the name is [None]. *)
Definition field_relationships (obj_name : string) (field : field_dict)
  : exception + list relationship :=
  let field_name := ef_name field in
  let field_type := ef_type field in
  (* Check for lookup fields *)
  match (if is_lookup_type field_type then inr true
         else match field_name with
              | Some n => inr (PyStr.endswith n "Id")
              | None => inl AttributeError
              end) with
  | inl e => inl e
  | inr true =>
      (* Try to determine target object *)
      inr (match field_name with
           | Some n =>
               if (n =? "AccountId")%string then
                 [edge_c obj_name "Account" "LOOKUP_TO"
                    (obj_name +:+ "." +:+ n +:+ " field")]
               else if (n =? "ContactId")%string then
                 [edge_c obj_name "Contact" "LOOKUP_TO"
                    (obj_name +:+ "." +:+ n +:+ " field")]
               else []
           | None => []
           end)
  | inr false => inr []
  end.

(** [for x in l: body(x)] on the list [relationships], where the body may
    raise: the first exception leaves the loop. *)
Fixpoint for_each {A} (l : list A)
    (body : A → list relationship → exception + list relationship)
    (relationships : list relationship) : exception + list relationship :=
  match l with
  | [] => inr relationships
  | x :: l' =>
      match body x relationships with
      | inl e => inl e
      | inr relationships' => for_each l' body relationships'
      end
  end.

(** [analyze_cross_object_relationships(objects_data)]; nothing in it
    catches the exception. *)
Definition analyze_cross_object_relationships (objects_data : list object_dict)
  : exception + list relationship :=
  for_each objects_data
    (λ obj_data relationships,
       for_each (eo_fields obj_data)
         (λ field relationships,
            match field_relationships (eo_name obj_data) field with
            | inl e => inl e
            | inr new => inr (relationships ++ new)
            end)
         relationships)
    standard_relationships.

(** The relationships [save_enhanced_metadata] computes from the two
    object files: the objects that were parsed, Contact first, go to the
    analysis, outside any [try].  Reading and writing the JSON files is
    not modelled. *)
Definition cross_relationships (contact_file opportunity_file : option Xml.parsed)
  : exception + list relationship :=
  let contact_data := parse_object "Contact" contact_file in
  let opportunity_data := parse_object "Opportunity" opportunity_file in
  let all_objects :=
    match contact_data with Some d => [d] | None => [] end
    ++ match opportunity_data with Some d => [d] | None => [] end in
  analyze_cross_object_relationships all_objects.

End Enhanced.

(** ** More of [analyze_relationships.py] *)

(** [Counter(xs)]: a dictionary from the elements of [xs] to their numbers
    of occurrences, keys in order of first occurrence. *)
Definition counter_add (c : list (string * nat)) (x : string) : list (string * nat) :=
  Dict.set c x (default 0 (Dict.get c x) + 1).

Definition Counter (xs : list string) : list (string * nat) :=
  fold_left counter_add xs [].

(** [analyze_relationship_types()]: the counter [rel_types] it returns;
    the printed report is not modelled. *)
Definition analyze_relationship_types (relationships : list relationship)
  : list (string * nat) :=
  Counter (map r_type relationships).

(** [d[k].append(v)] on a [defaultdict(list)]. *)
Definition dd_append (d : list (string * list string)) (k v : string)
  : list (string * list string) :=
  Dict.set d k (default [] (Dict.get d k) ++ [v]).

(** The body of the loop of [analyze_class_dependencies]; [None] stands for
    the [KeyError] of [rel['details']] on an edge without details. *)
Definition class_dependencies_step
    (acc : option (list (string * list string) * list (string * list string)))
    (rel : relationship)
  : option (list (string * list string) * list (string * list string)) :=
  match acc with
  | None => None
  | Some (class_deps, method_calls) =>
      if (r_type rel =? "DEPENDS_ON_CLASS")%string then
        let from_class := PyStr.replace (r_from rel) "class_" "" in
        let to_class := PyStr.replace (r_to rel) "class_" "" in
        Some (dd_append class_deps from_class to_class, method_calls)
      else if (r_type rel =? "CALLS_METHOD")%string then
        let from_class := PyStr.replace (r_from rel) "class_" "" in
        match r_details rel with
        | Some details =>
            let method_info := PyStr.replace details "Calls method " "" in
            Some (class_deps, dd_append method_calls from_class method_info)
        | None => None
        end
      else Some (class_deps, method_calls)
  end.

(** [analyze_class_dependencies()]: the pair [(class_deps, method_calls)];
    the printed report is not modelled. *)
Definition analyze_class_dependencies (relationships : list relationship)
  : option (list (string * list string) * list (string * list string)) :=
  fold_left class_dependencies_step relationships (Some ([], [])).

(** The body of the loop of [analyze_layout_complexity] over
    [self.relationships]; [layout_fields] is a [defaultdict(int)]. *)
Definition layout_complexity_step (layout_fields : list (string * nat))
    (rel : relationship) : list (string * nat) :=
  if has_type "DISPLAYS_FIELD" rel && PyStr.contains "layout_" (r_from rel) then
    let layout_name := PyStr.replace (r_from rel) "layout_" "" in
    counter_add layout_fields layout_name
  else layout_fields.

(** [analyze_layout_complexity()]: the dictionary [layout_fields] it
    returns; the printed report is not modelled. *)
Definition analyze_layout_complexity (relationships : list relationship)
  : list (string * nat) :=
  fold_left layout_complexity_step relationships [].


(** * Properties *)

Import Re Extractor Converter Analyzer.

(** ** Vocabulary of the statements *)

(** *** The extractor *)

(** What may enter [classes], and in which shape entries enter [methods]. *)
Definition user_class (x : string) : Prop := x ∉ system_classes.
Definition user_method (x : string) : Prop :=
  ∃ c m, x = c +:+ "." +:+ m ∧ c ∉ system_classes.

Definition guarded (d : deps) : Prop :=
  (∀ x, x ∈ category d "classes" → user_class x) ∧
  (∀ x, x ∈ category d "methods" → user_method x).

(** The edge types for which one component proposes one edge per
    extracted name: all but those built from a split or rewritten name. *)
Definition one_edge_per_name (r : relationship) : bool :=
  negb (Comprehensive.mem (r_type r)
          ["ACCESSES_FIELD"; "CALLS_METHOD"; "CALLS_WEBSERVICE"; "MODIFIES_FIELD"]).

(** *** Effects of the converter's methods *)

(** Counters add up and lists are appended. *)
Definition add_stats (s d : stats) : stats :=
  {| objects_processed := objects_processed s + objects_processed d;
     fields_processed := fields_processed s + fields_processed d;
     layouts_processed := layouts_processed s + layouts_processed d;
     classes_processed := classes_processed s + classes_processed d;
     triggers_processed := triggers_processed s + triggers_processed d;
     workflows_processed := workflows_processed s + workflows_processed d;
     errors := errors s ++ errors d |}.

(** The state [st] after the effects [d] of a computation started in the
    initial state. *)
Definition app_state (st d : converter) : converter :=
  {| relationships := relationships st ++ relationships d;
     conversion_stats := add_stats (conversion_stats st) (conversion_stats d) |}.

(** The result and the final state of a computation started in the
    initial state. *)
Definition out {A} (m : M A) : A := (m init).1.
Definition eff {A} (m : M A) : converter := (m init).2.

(** A computation is framed when it reads nothing of the state and only
    appends edges and errors and increments counters. *)
Definition framed {A} (m : M A) : Prop :=
  ∀ st, m st = (out m, app_state st (eff m)).

(** What a collecting loop keeps of one result of its body. *)
Definition kept {B} (y : option B) : list B :=
  match y with Some b => [b] | None => [] end.

(** [one_more_error msg d d']: [d] is [d'] with [msg] inserted among the
    errors; edges and counters are the same. *)
Definition one_more_error (msg : string) (d d' : converter) : Prop :=
  relationships d = relationships d'
  ∧ (∀ c, count_of c (conversion_stats d) = count_of c (conversion_stats d'))
  ∧ ∃ e1 e2, errors (conversion_stats d) = e1 ++ msg :: e2
             ∧ errors (conversion_stats d') = e1 ++ e2.

(** The effect of recording one error. *)
Definition error_only (msg : string) : converter :=
  {| relationships := [];
     conversion_stats :=
       {| objects_processed := 0; fields_processed := 0; layouts_processed := 0;
          classes_processed := 0; triggers_processed := 0; workflows_processed := 0;
          errors := [msg] |} |}.

(** *** Trees without one malformed file *)

Definition with_fields (od : object_dir) (l : list xml_file) : object_dir :=
  {| od_name := od_name od; od_object_file := od_object_file od; od_fields := l;
     od_listViews := od_listViews od; od_webLinks := od_webLinks od |}.
Definition with_listViews (od : object_dir) (l : list xml_file) : object_dir :=
  {| od_name := od_name od; od_object_file := od_object_file od;
     od_fields := od_fields od; od_listViews := l; od_webLinks := od_webLinks od |}.
Definition with_webLinks (od : object_dir) (l : list xml_file) : object_dir :=
  {| od_name := od_name od; od_object_file := od_object_file od;
     od_fields := od_fields od; od_listViews := od_listViews od; od_webLinks := l |}.

Definition with_objects (t : source_tree) (l : list object_dir) : source_tree :=
  {| source_dir := source_dir t; st_objects := l; st_layouts := st_layouts t;
     st_classes := st_classes t; st_triggers := st_triggers t;
     st_workflows := st_workflows t |}.
Definition with_layouts (t : source_tree) (l : list xml_file) : source_tree :=
  {| source_dir := source_dir t; st_objects := st_objects t; st_layouts := l;
     st_classes := st_classes t; st_triggers := st_triggers t;
     st_workflows := st_workflows t |}.
Definition with_classes (t : source_tree) (l : list source_file) : source_tree :=
  {| source_dir := source_dir t; st_objects := st_objects t;
     st_layouts := st_layouts t; st_classes := l; st_triggers := st_triggers t;
     st_workflows := st_workflows t |}.
Definition with_triggers (t : source_tree) (l : list source_file) : source_tree :=
  {| source_dir := source_dir t; st_objects := st_objects t;
     st_layouts := st_layouts t; st_classes := st_classes t; st_triggers := l;
     st_workflows := st_workflows t |}.
Definition with_workflows (t : source_tree) (l : list xml_file) : source_tree :=
  {| source_dir := source_dir t; st_objects := st_objects t;
     st_layouts := st_layouts t; st_classes := st_classes t;
     st_triggers := st_triggers t; st_workflows := l |}.

(** [object_without_malformed dir od msg od']: [od'] is the object
    directory [od] (at path [dir]) without one of its malformed field,
    list view or web link files, for which the converter records [msg]. *)
Inductive object_without_malformed (dir : string)
  : object_dir → string → object_dir → Prop :=
| malformed_field od l1 f l2 e :
    od_fields od = l1 ++ f :: l2 → xf_parse f = Xml.ParseError e →
    object_without_malformed dir od
      (error_message "field" (path_join dir "fields") (xf_name f) e)
      (with_fields od (l1 ++ l2))
| malformed_listview od l1 f l2 e :
    od_listViews od = l1 ++ f :: l2 → xf_parse f = Xml.ParseError e →
    object_without_malformed dir od
      (error_message "listview" (path_join dir "listViews") (xf_name f) e)
      (with_listViews od (l1 ++ l2))
| malformed_weblink od l1 f l2 e :
    od_webLinks od = l1 ++ f :: l2 → xf_parse f = Xml.ParseError e →
    object_without_malformed dir od
      (error_message "weblink" (path_join dir "webLinks") (xf_name f) e)
      (with_webLinks od (l1 ++ l2)).

(** [without_malformed t msg t']: [t'] is the tree [t] without one
    malformed field, list view, web link, layout, class, trigger or
    workflow file, for which the converter records [msg]. *)
Inductive without_malformed : source_tree → string → source_tree → Prop :=
| malformed_in_object t o1 od o2 msg od' :
    st_objects t = o1 ++ od :: o2 →
    object_without_malformed
      (path_join (path_join (source_dir t) "objects") (od_name od)) od msg od' →
    without_malformed t msg (with_objects t (o1 ++ od' :: o2))
| malformed_layout t l1 f l2 e :
    st_layouts t = l1 ++ f :: l2 → xf_parse f = Xml.ParseError e →
    without_malformed t
      (error_message "layout" (path_join (source_dir t) "layouts") (xf_name f) e)
      (with_layouts t (l1 ++ l2))
| malformed_class t l1 f l2 e :
    st_classes t = l1 ++ f :: l2 → load f = inl e →
    without_malformed t
      (error_message "class" (path_join (source_dir t) "classes") (sf_name f) e)
      (with_classes t (l1 ++ l2))
| malformed_trigger t l1 f l2 e :
    st_triggers t = l1 ++ f :: l2 → load f = inl e →
    without_malformed t
      (error_message "trigger" (path_join (source_dir t) "triggers") (sf_name f) e)
      (with_triggers t (l1 ++ l2))
| malformed_workflow t l1 f l2 e :
    st_workflows t = l1 ++ f :: l2 → xf_parse f = Xml.ParseError e →
    without_malformed t
      (error_message "workflow" (path_join (source_dir t) "workflows") (xf_name f) e)
      (with_workflows t (l1 ++ l2)).

(** *** The passes of a run *)

(** The steps of [process_custom_object] and of [convert_all_metadata],
    named. *)
Definition object_metadata (dir : string) (od : object_dir) : M value :=
  match od_object_file od with
  | None => ret empty_metadata
  | Some (Xml.Parsed root) => increment Objects >> ret (xml_to_dict root)
  | Some (Xml.ParseError e) =>
      record_error ("Error processing "
                    +:+ path_join dir (od_name od +:+ ".object-meta.xml")
                    +:+ ": " +:+ e) >>
      ret empty_metadata
  end.

Definition fields_pass (dir : string) (od : object_dir) : M (list component) :=
  process_children (path_join dir "fields") ("object_" +:+ od_name od) (od_name od)
    "HAS_FIELD" process_field (od_fields od).
Definition listViews_pass (dir : string) (od : object_dir) : M (list component) :=
  process_children (path_join dir "listViews") ("object_" +:+ od_name od) (od_name od)
    "HAS_LISTVIEW" process_listview (od_listViews od).
Definition webLinks_pass (dir : string) (od : object_dir) : M (list component) :=
  process_children (path_join dir "webLinks") ("object_" +:+ od_name od) (od_name od)
    "HAS_WEBLINK" process_weblink (od_webLinks od).

Definition objects_pass (t : source_tree) : M (list object_data) :=
  collect (st_objects t) (λ object_dir,
    let* object_data :=
      process_custom_object (path_join (source_dir t) "objects") object_dir in
    ret (Some object_data)).
Definition layouts_pass (t : source_tree) : M (list layout_data) :=
  collect (st_layouts t) (process_layout (path_join (source_dir t) "layouts")).
Definition classes_pass (t : source_tree) : M (list class_data) :=
  collect (st_classes t) (process_apex_class (path_join (source_dir t) "classes")).
Definition triggers_pass (t : source_tree) : M (list trigger_data) :=
  collect (st_triggers t) (process_trigger (path_join (source_dir t) "triggers")).
Definition workflows_pass (t : source_tree) : M (list component) :=
  collect (st_workflows t) (process_workflow (path_join (source_dir t) "workflows")).

(** The final state of a run: the effects of the five passes, in order. *)
Definition final_state (t : source_tree) : converter :=
  app_state (eff (objects_pass t))
    (app_state (eff (layouts_pass t))
       (app_state (eff (classes_pass t))
          (app_state (eff (triggers_pass t)) (eff (workflows_pass t))))).

(** *** Impact analysis *)

Definition is_source (x : string) (rel : relationship) : bool := (r_from rel =? x)%string.
Definition is_target_only (x : string) (rel : relationship) : bool :=
  (r_to rel =? x)%string && negb (r_from rel =? x)%string.

(** *** The enhanced pass *)

(** The edges the enhanced pass adds for a field of [obj_name] with that
    name. *)
Definition named_lookup (obj_name : string) (field_name : option string)
  : list relationship :=
  match field_name with
  | Some n =>
      if (n =? "AccountId")%string then
        [edge_c obj_name "Account" "LOOKUP_TO" (obj_name +:+ ".AccountId field")]
      else if (n =? "ContactId")%string then
        [edge_c obj_name "Contact" "LOOKUP_TO" (obj_name +:+ ".ContactId field")]
      else []
  | None => []
  end.

(** The field has no name text and no lookup type. *)
Definition nameless (field : Enhanced.field_dict) : bool :=
  match Enhanced.ef_name field with
  | Some _ => false
  | None => negb (Enhanced.is_lookup_type (Enhanced.ef_type field))
  end.

(** *** Example inputs *)

Module Examples.

Definition empty_tree : source_tree :=
  {| source_dir := "force-app/main/default"; st_objects := []; st_layouts := [];
     st_classes := []; st_triggers := []; st_workflows := [] |}.

(** Scenario A: a trigger that delegates to a handler class. *)
Definition scenario_A_source : string :=
  "trigger T on Account (before insert) { AccountHandler.run(); }".
Definition scenario_A_file : source_file :=
  {| sf_name := "T.trigger"; sf_read := ReadOk scenario_A_source; sf_meta := None |}.
Definition scenario_A_tree : source_tree := with_triggers empty_tree [scenario_A_file].


(** A class that calls two methods of one other class. *)
Definition two_calls_tree : source_tree :=
  with_classes empty_tree
    [{| sf_name := "Caller.cls"; sf_read := ReadOk "Foo.a(); Foo.b();";
        sf_meta := None |}].

(** A class that calls one of its own static methods. *)
Definition registry_tree : source_tree :=
  with_classes empty_tree
    [{| sf_name := "Registry.cls";
        sf_read := ReadOk "public class Registry { static void init() { Registry.load(); } }";
        sf_meta := None |}].

(** Scenario B: the field [AccountId] on the object [Contact]. *)
Definition account_id : parsed_field :=
  {| pf_name := "AccountId"; pf_type := "Lookup"; pf_label := "Account ID";
     pf_referenceTo := None |}.
Definition contact : parsed_object :=
  {| po_name := "Contact"; po_type := "CustomObject"; po_fields := [account_id];
     po_listViews := []; po_webLinks := [] |}.

(** Scenario B for the enhanced parser: the object file of [Contact] with
    the field [AccountId], and what the parser makes of it. *)
Definition contact_file : Xml.parsed :=
  Xml.Parsed
    (Xml.Element "{http://soap.sforce.com/2006/04/metadata}CustomObject" None []
       [Xml.Element "{http://soap.sforce.com/2006/04/metadata}fields" None []
          [Xml.Element "{http://soap.sforce.com/2006/04/metadata}fullName"
             (Some "AccountId") [] [];
           Xml.Element "{http://soap.sforce.com/2006/04/metadata}type"
             (Some "Lookup") [] []]]).
Definition enhanced_account_id : Enhanced.field_dict :=
  {| Enhanced.ef_name := Some "AccountId"; Enhanced.ef_type := Some "Lookup";
     Enhanced.ef_label := Some "AccountId" |}.
Definition enhanced_contact : Enhanced.object_dict :=
  {| Enhanced.eo_name := "Contact"; Enhanced.eo_type := "CustomObject";
     Enhanced.eo_fields := [enhanced_account_id];
     Enhanced.eo_listViews := []; Enhanced.eo_webLinks := [] |}.

(** The object file of [Contact] with a lookup field [OpportunityId], and
    what the parser makes of it. *)
Definition opportunity_id_file : Xml.parsed :=
  Xml.Parsed
    (Xml.Element "{http://soap.sforce.com/2006/04/metadata}CustomObject" None []
       [Xml.Element "{http://soap.sforce.com/2006/04/metadata}fields" None []
          [Xml.Element "{http://soap.sforce.com/2006/04/metadata}fullName"
             (Some "OpportunityId") [] [];
           Xml.Element "{http://soap.sforce.com/2006/04/metadata}label"
             (Some "Opportunity") [] [];
           Xml.Element "{http://soap.sforce.com/2006/04/metadata}type"
             (Some "Lookup") [] []]]).
Definition contact_with_opportunity_id : Enhanced.object_dict :=
  {| Enhanced.eo_name := "Contact"; Enhanced.eo_type := "CustomObject";
     Enhanced.eo_fields :=
       [{| Enhanced.ef_name := Some "OpportunityId"; Enhanced.ef_type := Some "Lookup";
           Enhanced.ef_label := Some "Opportunity" |}];
     Enhanced.eo_listViews := []; Enhanced.eo_webLinks := [] |}.

(** An object file of [Contact] with a text field whose [fullName] element
    is empty. *)
Definition nameless_field_file : Xml.parsed :=
  Xml.Parsed
    (Xml.Element "{http://soap.sforce.com/2006/04/metadata}CustomObject" None []
       [Xml.Element "{http://soap.sforce.com/2006/04/metadata}fields" None []
          [Xml.Element "{http://soap.sforce.com/2006/04/metadata}fullName" None [] [];
           Xml.Element "{http://soap.sforce.com/2006/04/metadata}type"
             (Some "Text") [] []]]).

(** An object directory with one well-formed and one malformed field file. *)
Definition email_field : xml_file :=
  {| xf_name := "Email.field-meta.xml";
     xf_parse := Xml.Parsed
       (Xml.Element "CustomField" None []
          [Xml.Element "fullName" (Some "Email") [] [];
           Xml.Element "type" (Some "Email") [] []]) |}.
Definition broken_field : xml_file :=
  {| xf_name := "Phone.field-meta.xml";
     xf_parse := Xml.ParseError "not well-formed (invalid token): line 3, column 7" |}.
Definition contact_dir : object_dir :=
  {| od_name := "Contact"; od_object_file := None;
     od_fields := [email_field; broken_field]; od_listViews := []; od_webLinks := [] |}.
Definition broken_tree : source_tree := with_objects scenario_A_tree [contact_dir].

(** The layout of Account: one section with one field, one related list. *)
Definition account_layout_root : Xml.element :=
  Xml.Element "Layout" None []
    [Xml.Element "layoutSection" None []
       [Xml.Element "label" (Some "Information") [] [];
        Xml.Element "layoutColumns" None []
          [Xml.Element "layoutItems" None []
             [Xml.Element "field" (Some "Name") [] []]]];
     Xml.Element "relatedList" None []
       [Xml.Element "fields" None [] [Xml.Element "fields" (Some "FULL_NAME") [] []];
        Xml.Element "relatedList" (Some "Contact") [] []]].
Definition account_layout : xml_file :=
  {| xf_name := "Account-Account Layout.layout-meta.xml";
     xf_parse := Xml.Parsed account_layout_root |}.

(** A small tree with every kind of component: the Contact directory, the
    Account layout, two classes and the trigger of scenario A. *)
Definition org_tree : source_tree :=
  with_layouts
    (with_classes broken_tree (st_classes two_calls_tree ++ st_classes registry_tree))
    [account_layout].

(** A trigger on Account that queries Contact and Account. *)
Definition account_trigger_source : string :=
  "trigger T on Account (before insert) { for (Contact c : [SELECT Id FROM Contact]) {} Account a = [SELECT Id FROM Account]; }".
Definition account_trigger : source_file :=
  {| sf_name := "T.trigger"; sf_read := ReadOk account_trigger_source;
     sf_meta := None |}.

(** A tree with distinct names whose run repeats edges: a class that calls
    two methods of one class, reads one field through two spellings and
    calls two endpoints that are rewritten alike; a trigger that reads one
    field through two spellings; a layout with the same related list
    twice. *)
Definition repeating_class : source_file :=
  {| sf_name := "Caller.cls";
     sf_read := ReadOk "Foo.a(); Foo.b(); x = [SELECT B_C FROM A]; y = [SELECT C FROM A_B]; r.setEndpoint('http://a/b'); s.setEndpoint('http://a:b');";
     sf_meta := None |}.
Definition repeating_trigger : source_file :=
  {| sf_name := "T.trigger";
     sf_read := ReadOk "trigger T on Account (before insert) { x = [SELECT B_C FROM A]; y = [SELECT C FROM A_B]; }";
     sf_meta := None |}.
Definition repeating_layout : xml_file :=
  {| xf_name := "Account-Account Layout.layout-meta.xml";
     xf_parse := Xml.Parsed
       (Xml.Element "Layout" None []
          [Xml.Element "relatedList" None []
             [Xml.Element "fields" (Some "NAME") [] [];
              Xml.Element "relatedList" (Some "Contact") [] []];
           Xml.Element "relatedList" None []
             [Xml.Element "fields" (Some "NAME") [] [];
              Xml.Element "relatedList" (Some "Contact") [] []]]) |}.
(** Two field files of one directory with different file names and the
    same field name. *)
Definition same_name_dir : object_dir :=
  {| od_name := "Contact"; od_object_file := None;
     od_fields :=
       [{| xf_name := "Email.field-meta.xml";
           xf_parse := Xml.Parsed (Xml.Element "CustomField" None [] []) |};
        {| xf_name := "Email.field-meta.field-meta.xml";
           xf_parse := Xml.Parsed (Xml.Element "CustomField" None [] []) |}];
     od_listViews := []; od_webLinks := [] |}.

Definition repeating_tree : source_tree :=
  with_layouts
    (with_triggers (with_classes empty_tree [repeating_class]) [repeating_trigger])
    [repeating_layout].

End Examples.

(** *** More of the vocabulary *)

(** *** The effects and the records of a run *)

(** The statistics in which only the counter [c] is one. *)
Definition one (c : counter) : stats :=
  {| objects_processed := bump c Objects 0; fields_processed := bump c Fields 0;
     layouts_processed := bump c Layouts 0; classes_processed := bump c Classes 0;
     triggers_processed := bump c Triggers 0;
     workflows_processed := bump c Workflows 0; errors := [] |}.

(** The effect of adding the edges [rs] and counting one [c]. *)
Definition counted (c : counter) (rs : list relationship) : converter :=
  {| relationships := rs; conversion_stats := one c |}.

(** The effect of adding the edges [rs] only. *)
Definition edges_only (rs : list relationship) : converter :=
  {| relationships := rs; conversion_stats := initial_stats |}.

(** The file is parsed, or read, without error. *)
Definition parses (f : xml_file) : bool :=
  match xf_parse f with Xml.Parsed _ => true | Xml.ParseError _ => false end.

Definition loads (f : source_file) : bool :=
  match load f with inr _ => true | inl _ => false end.

(** The object file of the directory exists and parses; exists and is
    malformed. *)
Definition object_file_parses (od : object_dir) : bool :=
  match od_object_file od with Some (Xml.Parsed _) => true | _ => false end.

Definition object_file_malformed (od : object_dir) : bool :=
  match od_object_file od with Some (Xml.ParseError _) => true | _ => false end.

(** The number of elements that satisfy [p]. *)
Definition count {A} (p : A → bool) (l : list A) : nat := length (List.filter p l).

(** The HAS_TRIGGER edge of a trigger whose header names an object. *)
Definition has_trigger_edge (trigger_id : string) (trigger_object : option string)
    (trigger_events : list string) : list relationship :=
  if truthy trigger_object then
    [edge_d ("object_" +:+ default "" trigger_object) trigger_id "HAS_TRIGGER"
       ("Trigger events: " +:+ PyStr.join ", " trigger_events)]
  else [].

(** The structural edges of an object record. *)
Definition structural_edges (o : object_data) : list relationship :=
  map (λ d, edge (o_id o) (c_id d) "HAS_FIELD") (o_fields o)
  ++ map (λ d, edge (o_id o) (c_id d) "HAS_LISTVIEW") (o_listViews o)
  ++ map (λ d, edge (o_id o) (c_id d) "HAS_WEBLINK") (o_webLinks o).

(** The number of files of an object directory on which the parser raises. *)
Definition malformed_in (od : object_dir) : nat :=
  count object_file_malformed [od]
  + count (λ f, negb (parses f)) (od_fields od)
  + count (λ f, negb (parses f)) (od_listViews od)
  + count (λ f, negb (parses f)) (od_webLinks od).

(** The number of files of a tree on which a parser or a read raises. *)
Definition malformed_files (t : source_tree) : nat :=
  sum_list (map malformed_in (st_objects t))
  + count (λ f, negb (parses f)) (st_layouts t)
  + count (λ f, negb (loads f)) (st_classes t)
  + count (λ f, negb (loads f)) (st_triggers t)
  + count (λ f, negb (parses f)) (st_workflows t).

(** The body of the loop over the object directories. *)
Definition object_body (t : source_tree) (object_dir : object_dir)
  : M (option object_data) :=
  let* object_data :=
    process_custom_object (path_join (source_dir t) "objects") object_dir in
  ret (Some object_data).

(** The edges the converter adds for a layout record. *)
Definition layout_edges (ld : layout_data) : list relationship :=
  layout_relationships (l_id ld) (l_object ld) (l_fields_on_layout ld)
    (l_related_lists ld).

(** The edges the converter adds for a class record. *)
Definition class_edges (cd : class_data) : list relationship :=
  class_relationships (k_id cd) (k_comprehensive_dependencies cd).

(** The edges the converter adds for a trigger record; the header is read
    from the record's source text. *)
Definition trigger_edges (td : trigger_data) : list relationship :=
  let trigger_object := extract_trigger_object (t_source_code td) in
  has_trigger_edge (t_id td) trigger_object (extract_trigger_events (t_source_code td))
  ++ trigger_relationships (t_id td) (t_comprehensive_dependencies td) trigger_object.

(** The edge the converter adds for a workflow record. *)
Definition workflow_edges (w : component) : list relationship :=
  [edge ("object_" +:+ c_name w) (c_id w) "HAS_WORKFLOW"].

(** The edges of a result, pass by pass. *)
Definition edges_of (md : all_metadata) : list relationship :=
  flat_map structural_edges (am_objects md)
  ++ flat_map layout_edges (am_layouts md)
  ++ flat_map class_edges (am_classes md)
  ++ flat_map trigger_edges (am_triggers md)
  ++ flat_map workflow_edges (am_workflows md).

(** *** Types and endpoints of edges *)

(** The edge types the converter can produce. *)
Definition converter_edge_types : list string :=
  ["HAS_FIELD"; "HAS_LISTVIEW"; "HAS_WEBLINK"; "HAS_WORKFLOW"; "HAS_LAYOUT";
   "DISPLAYS_FIELD"; "SHOWS_RELATED_LIST"; "DISPLAYS_RELATED_FIELD"; "HAS_TRIGGER";
   "USES_OBJECT"; "DEPENDS_ON_CLASS"; "ACCESSES_FIELD"; "CALLS_METHOD";
   "USES_CUSTOM_SETTING"; "CALLS_WEBSERVICE"; "USES_EMAIL_TEMPLATE";
   "USES_CUSTOM_LABEL"; "USES_STATIC_RESOURCE"; "DELEGATES_TO_HANDLER"; "CALLS_CLASS";
   "AFFECTS_OBJECT"; "MODIFIES_FIELD"].

(** The type of the edge is one of them. *)
Definition known_type (r : relationship) : bool :=
  Comprehensive.mem (r_type r) converter_edge_types.

(** The ids of the records of a result. *)
Definition entity_ids (md : all_metadata) : list string :=
  map o_id (am_objects md) ++ map l_id (am_layouts md) ++ map k_id (am_classes md)
  ++ map t_id (am_triggers md) ++ map c_id (am_workflows md).

(** One endpoint of the edge is [id]. *)
Definition touches (id : string) (r : relationship) : Prop :=
  r_from r = id ∨ r_to r = id.

(** *** Normalized values *)

(** The dictionary the loop of [xml_to_dict] builds from the children. *)
Definition children_of (cs : list Xml.element) : list (string * value) :=
  fold_left (λ children child,
      add_child children (remove_namespace (Xml.tag child)) (xml_to_dict child))
    cs [].

(** The children of an element whose tag, without namespace, is [k]. *)
Definition siblings (k : string) (cs : list Xml.element) : list Xml.element :=
  List.filter (λ child, (remove_namespace (Xml.tag child) =? k)%string) cs.

(** The value under which children of one tag are stored: a single child
    as it is, several as the list of their values in document order. *)
Definition collapsed (l : list Xml.element) : option value :=
  match l with
  | [] => None
  | [child] => Some (xml_to_dict child)
  | _ => Some (VList (map xml_to_dict l))
  end.

(** The entries of an element's own text and attributes. *)
Definition own_entries (text : option string) (attrib : list (string * string))
  : list (string * value) :=
  let stripped := match text with Some t => PyStr.strip t | None => "" end in
  let result := if negb (stripped =? "")%string then [("_text", VStr stripped)] else [] in
  match attrib with
  | [] => result
  | _ => Dict.set result "_attributes"
           (VDict (map (λ kv, (fst kv, VStr (snd kv))) attrib))
  end.

(** *** Impact analysis against connectivity *)

(** An edge from a component to itself. *)
Definition is_loop (x : string) (rel : relationship) : bool :=
  (r_from rel =? x)%string && (r_to rel =? x)%string.

(** An edge with the component at either end. *)
Definition touches_component (x : string) (rel : relationship) : bool :=
  (r_from rel =? x)%string || (r_to rel =? x)%string.

(** The number of edges of one type. *)
Definition edges_of_type (ty : string) (rels : list relationship) : nat :=
  length (List.filter (has_type ty) rels).

(** *** Class dependencies *)

(** The class name the analyzer reads from an id. *)
Definition class_name_of (id : string) : string := PyStr.replace id "class_" "".

(** The values the edges of type [ty] from the class [k] contribute. *)
Definition entries_of (ty : string) (val : relationship → string)
    (rels : list relationship) (k : string) : list string :=
  map val (List.filter (λ r, has_type ty r && (class_name_of (r_from r) =? k)%string) rels).

(** A dictionary entry: absent for no values. *)
Definition entry (l : list string) : option (list string) :=
  match l with [] => None | _ => Some l end.

(** The edge carries details unless it is a structural edge. *)
Definition detailed (r : relationship) : Prop :=
  is_Some (r_details r)
  ∨ r_type r ∈ ["HAS_FIELD"; "HAS_LISTVIEW"; "HAS_WEBLINK"; "HAS_WORKFLOW"].

(** *** The extractor's record and its names *)

(** No entry in the two categories that no pattern feeds. *)
Definition unfed (d : deps) : Prop :=
  category d "triggers" = [] ∧ category d "workflows" = [].

(** A text without the character [c]. *)
Definition free_of (c : ascii) (s : string) : Prop := c ∉ PyStr.chars s.

(** *** What a match consumed and captured *)

(** The characters a one-character pattern accepts. *)
Definition atom_accepts (fl : flags) (r : regex) (c : ascii) : bool :=
  match r with
  | Lit x => lit_matches fl x c
  | Dot => DOTALL fl || negb (Ascii.eqb c "010")
  | Class neg items => xorb neg (items_match fl items c)
  | _ => false
  end.

(** The concatenations of [n] texts of [L]. *)
Fixpoint lang_iter (L : list ascii → Prop) (n : nat) (w : list ascii) : Prop :=
  match n with
  | 0 => w = []
  | S n' => ∃ w1 w2, w = w1 ++ w2 ∧ L w1 ∧ lang_iter L n' w2
  end.

(** The texts a pattern can consume, whatever surrounds them (a word
    boundary consumes nothing). *)
Fixpoint lang (fl : flags) (r : regex) (w : list ascii) : Prop :=
  match r with
  | Eps | WordB => w = []
  | Lit _ | Dot | Class _ _ => ∃ c, w = [c] ∧ atom_accepts fl r c = true
  | Seq r1 r2 => ∃ w1 w2, w = w1 ++ w2 ∧ lang fl r1 w1 ∧ lang fl r2 w2
  | Alt r1 r2 => lang fl r1 w ∨ lang fl r2 w
  | Star _ r' => ∃ n, lang_iter (lang fl r') n w
  | Group _ r' => lang fl r' w
  end.

(** The groups a pattern can set, latest first, each with a text of its
    body; nothing is said of groups under a repetition. *)
Fixpoint capt (fl : flags) (r : regex) (cs : list (nat * string)) : Prop :=
  match r with
  | Seq r1 r2 => ∃ c1 c2, cs = c2 ++ c1 ∧ capt fl r1 c1 ∧ capt fl r2 c2
  | Alt r1 r2 => capt fl r1 cs ∨ capt fl r2 cs
  | Star _ r' => ngroups r' = 0 → cs = []
  | Group i r' => ∃ w c, cs = (i, PyStr.str w) :: c ∧ lang fl r' w ∧ capt fl r' c
  | _ => cs = []
  end.

(** The loop of a repetition, given the matcher of its body. *)
Definition star_loop (body : mstate → (mstate → option mstate) → option mstate)
    (greedy : bool) (k : mstate → option mstate) : nat → mstate → option mstate :=
  fix loop (n : nat) (s : mstate) {struct n} : option mstate :=
    match n with
    | 0 => k s
    | S n' =>
        let more :=
          body s (λ s', if length (after s') <? length (after s) then loop n' s'
                        else None) in
        if greedy then or_else more (k s) else or_else (k s) more
    end.

(** [s'] lies behind [s] by a text of the pattern, with its groups set. *)
Definition reaches (fl : flags) (r : regex) (s s' : mstate) : Prop :=
  ∃ w cs, after s = w ++ after s' ∧ before s' = rev w ++ before s
          ∧ caps s' = cs ++ caps s ∧ lang fl r w ∧ capt fl r cs.

(** The groups of a pattern whose groups lie under no repetition or
    alternative and hold no group themselves, in the order of the pattern. *)
Fixpoint linear_groups (r : regex) : option (list (nat * regex)) :=
  match r with
  | Seq r1 r2 =>
      match linear_groups r1, linear_groups r2 with
      | Some l1, Some l2 => Some (l1 ++ l2)
      | _, _ => None
      end
  | Alt _ _ | Star _ _ => if ngroups r =? 0 then Some [] else None
  | Group i r' => if ngroups r' =? 0 then Some [(i, r')] else None
  | _ => Some []
  end.

(** A captured text of the group [g]. *)
Definition captured (fl : flags) (g : nat * regex) (c : nat * string) : Prop :=
  c.1 = g.1 ∧ ∃ w, c.2 = PyStr.str w ∧ lang fl g.2 w.

(** The 256 characters. *)
Definition all_ascii : list ascii := map ascii_of_nat (seq 0 256).

(** Every character the pattern can consume satisfies [P]. *)
Fixpoint only (fl : flags) (P : ascii → bool) (r : regex) : bool :=
  match r with
  | Eps | WordB => true
  | Lit _ | Dot | Class _ _ =>
      forallb (λ c, implb (atom_accepts fl r c) (P c)) all_ascii
  | Seq r1 r2 | Alt r1 r2 => only fl P r1 && only fl P r2
  | Star _ r' | Group _ r' => only fl P r'
  end.

(** A lower bound of the length of the texts of a pattern. *)
Fixpoint min_len (r : regex) : nat :=
  match r with
  | Eps | WordB | Star _ _ => 0
  | Lit _ | Dot | Class _ _ => 1
  | Seq r1 r2 => min_len r1 + min_len r2
  | Alt r1 r2 => min_len r1 `min` min_len r2
  | Group _ r' => min_len r'
  end.

(** A text of letters, digits and underscores. *)
Definition identifier (s : string) : Prop :=
  Forall (λ c, is_word c = true) (PyStr.chars s).

(** The categories whose entries are captured names. *)
Definition identifier_categories : list string :=
  ["objects"; "classes"; "custom_settings"; "custom_labels"; "static_resources"].

(** What the loops of the extractor maintain: the entries of the name
    categories are identifiers, a class name has at least two characters,
    and a method entry is qualified by a class that was entered with it. *)
Definition named (d : deps) : Prop :=
  "classes" ∈ dom d
  ∧ (∀ key x, key ∈ identifier_categories → x ∈ category d key → identifier x)
  ∧ (∀ x, x ∈ category d "classes" → 2 ≤ PyStr.len x)
  ∧ (∀ x, x ∈ category d "methods" →
       ∃ c m, x = c +:+ "." +:+ m ∧ c ∈ category d "classes").

(** A pattern with one group, which holds an identifier. *)
Definition one_name_group (fl : flags) (r : regex) : bool :=
  match linear_groups r with
  | Some [(1, g)] => (ngroups r =? 1) && only fl is_word g
  | _ => false
  end.

(** A result of [findall] whose (last) group is an identifier. *)
Definition names_object (f : found) : Prop :=
  match f with
  | FStr s => identifier s
  | FTuple [_; object_name] => identifier object_name
  | FTuple _ => True
  end.

(** A result of [findall] whose (first) group is a class name. *)
Definition names_class (f : found) : Prop :=
  match f with
  | FStr s => identifier s ∧ 2 ≤ PyStr.len s
  | FTuple [class_name; _] => identifier class_name ∧ 2 ≤ PyStr.len class_name
  | FTuple _ => True
  end.

(** *** The classes a trigger names *)

(** [Handler in cls or Helper in cls] *)
Definition is_handler (cls : string) : bool :=
  PyStr.contains "Handler" cls || PyStr.contains "Helper" cls.

(** *** Patterns that match at the same places *)

(** The two patterns differ in their groups only. *)
Inductive similar : regex → regex → Prop :=
| similar_Eps : similar Eps Eps
| similar_Lit c : similar (Lit c) (Lit c)
| similar_Dot : similar Dot Dot
| similar_Class neg items : similar (Class neg items) (Class neg items)
| similar_WordB : similar WordB WordB
| similar_Seq r1 r1' r2 r2' :
    similar r1 r1' → similar r2 r2' → similar (Seq r1 r2) (Seq r1' r2')
| similar_Alt r1 r1' r2 r2' :
    similar r1 r1' → similar r2 r2' → similar (Alt r1 r2) (Alt r1' r2')
| similar_Star g r r' : similar r r' → similar (Star g r) (Star g r')
| similar_Group_l i r r' : similar r r' → similar (Group i r) r'
| similar_Group_r i r r' : similar r r' → similar r (Group i r').

(** The second pattern is the first, up to groups, without its end. *)
Inductive leads : regex → regex → Prop :=
| leads_all r r' : similar r r' → leads r r'
| leads_prefix r r' rest : similar r r' → leads (Seq r rest) r'
| leads_Seq r1 r1' r2 r2' :
    similar r1 r1' → leads r2 r2' → leads (Seq r1 r2) (Seq r1' r2').

(** The two positions are the same, whatever groups are set. *)
Definition same_position (s s' : mstate) : Prop :=
  before s = before s' ∧ after s = after s'.

(** Where [k] succeeds, [k'] succeeds at the same position. *)
Definition succeeds_with (k k' : mstate → option mstate) : Prop :=
  ∀ a b, same_position a b → is_Some (k a) → is_Some (k' b).

(** *** Trimmed texts *)

(** The text does not begin with white space. *)
Definition no_leading_space (l : list ascii) : Prop :=
  match l with
  | [] => True
  | c :: _ => PyStr.is_space c = false
  end.

(** The text neither begins nor ends with white space. *)
Definition trimmed (s : string) : Prop :=
  no_leading_space (PyStr.chars s) ∧ no_leading_space (rev (PyStr.chars s)).

(** *** Layout complexity *)

(** The edges the layout analysis counts. *)
Definition counted_for_layout (rel : relationship) : bool :=
  has_type "DISPLAYS_FIELD" rel && PyStr.contains "layout_" (r_from rel).

(** The DISPLAYS_FIELD edges of a layout record. *)
Definition displays (ld : layout_data) : list relationship :=
  map (λ field,
    edge_d (l_id ld) ("field_" +:+ l_object ld +:+ "_" +:+ field) "DISPLAYS_FIELD"
      ("Field " +:+ field +:+ " is displayed on layout"))
    (l_fields_on_layout ld).

(** *** The edge types of each pass *)

Definition structural_types : list string := ["HAS_FIELD"; "HAS_LISTVIEW"; "HAS_WEBLINK"].
Definition layout_types : list string :=
  ["HAS_LAYOUT"; "DISPLAYS_FIELD"; "SHOWS_RELATED_LIST"; "DISPLAYS_RELATED_FIELD"].
Definition class_types : list string :=
  ["USES_OBJECT"; "DEPENDS_ON_CLASS"; "ACCESSES_FIELD"; "CALLS_METHOD";
   "USES_CUSTOM_SETTING"; "CALLS_WEBSERVICE"; "USES_EMAIL_TEMPLATE";
   "USES_CUSTOM_LABEL"; "USES_STATIC_RESOURCE"].
Definition trigger_types : list string :=
  ["HAS_TRIGGER"; "DELEGATES_TO_HANDLER"; "CALLS_CLASS"; "AFFECTS_OBJECT";
   "MODIFIES_FIELD"].
Definition workflow_types : list string := ["HAS_WORKFLOW"].

(** The type of the edge is one of [tys]. *)
Definition of_types (tys : list string) (r : relationship) : bool :=
  Comprehensive.mem (r_type r) tys.

(** *** The object edges of a record *)

(** The AFFECTS_OBJECT edges of a trigger record: one for each name of its
    objects category other than its owning object. *)
Definition affects_edges (td : trigger_data) : list relationship :=
  map (λ obj, edge_d (t_id td) ("object_" +:+ obj) "AFFECTS_OBJECT"
                ("Trigger performs operations on " +:+ obj))
    (List.filter (λ obj, negb (bool_decide (Some obj = t_object td)))
       (category (t_comprehensive_dependencies td) "objects")).

(** The USES_OBJECT edges of a class record: one for each name of its
    objects category. *)
Definition uses_edges (cd : class_data) : list relationship :=
  map (λ obj, edge_d (k_id cd) ("object_" +:+ obj) "USES_OBJECT"
                "References object in SOQL/DML operations")
    (category (k_comprehensive_dependencies cd) "objects").

(** *** Distinct names *)

(** The name the converter reads off a definition file. *)
Definition component_name (suffix : string) (f : xml_file) : string :=
  PyStr.replace (PyStr.stem (xf_name f)) suffix "".

(** The components of each kind get distinct names; for layouts, distinct
    ids.  The files of a directory have distinct file names; the names
    read off them need not be. *)
Definition distinct_names (t : source_tree) : Prop :=
  NoDup (map od_name (st_objects t))
  ∧ Forall (λ od,
      NoDup (map (component_name ".field-meta") (od_fields od))
      ∧ NoDup (map (component_name ".listView-meta") (od_listViews od))
      ∧ NoDup (map (component_name ".webLink-meta") (od_webLinks od)))
      (st_objects t)
  ∧ NoDup (map (λ f, layout_id_of (component_name ".layout-meta" f)) (st_layouts t))
  ∧ NoDup (map (λ f, PyStr.stem (sf_name f)) (st_classes t))
  ∧ NoDup (map (λ f, PyStr.stem (sf_name f)) (st_triggers t))
  ∧ NoDup (map (component_name ".workflow-meta") (st_workflows t)).

(** The edge types of which a run holds one edge per name: all but those
    built from a split or rewritten name and those of the related lists
    of a layout, which are not deduplicated. *)
Definition one_edge_per_name_in_run (r : relationship) : bool :=
  one_edge_per_name r
  && negb (Comprehensive.mem (r_type r) ["SHOWS_RELATED_LIST"; "DISPLAYS_RELATED_FIELD"]).

(** The id of the record for which an edge with this triple is added: the
    target of an edge towards a layout, a trigger or a workflow, the
    source of any other edge. *)
Definition proposer (tr : string * string * string) : string :=
  if Comprehensive.mem tr.2 ["HAS_LAYOUT"; "HAS_TRIGGER"; "HAS_WORKFLOW"]
  then tr.1.2 else tr.1.1.

(** No type of [a] is a type of [b]. *)
Definition disjoint_types (a b : list string) : bool :=
  forallb (λ ty, negb (Comprehensive.mem ty b)) a.

(** ** The extractor: clean-up, keys and denylist *)

Lemma fold_left_invariant {A B} (P : A → Prop) (f : A → B → A) (l : list B) (a : A) :
  (∀ a x, P a → P (f a x)) → P a → P (fold_left f l a).
Proof.
  intros Hstep. revert a. induction l as [|x l IH]; simpl; intros a Ha; [done|].
  apply IH, Hstep, Ha.
Qed.

Lemma clean_NoDup l : NoDup (clean l).
Proof. unfold clean, PyStr.list_set. apply NoDup_elements. Qed.

Lemma elem_of_clean x l : x ∈ clean l ↔ x ∈ l ∧ keep x = true.
Proof.
  unfold clean, PyStr.list_set.
  rewrite elem_of_elements, elem_of_list_to_set, list_elem_of_In, filter_In.
  by rewrite <- list_elem_of_In.
Qed.

Lemma keep_length x : keep x = true → 2 ≤ PyStr.len x.
Proof.
  unfold keep. intros [_ H]%andb_true_iff. apply Nat.ltb_lt in H. lia.
Qed.

Lemma clean_nil : clean [] = [].
Proof. reflexivity. Qed.

Lemma extract_lookup src name kind key :
  extract_comprehensive_dependencies src name kind !! key
  = clean <$> raw_dependencies src !! key.
Proof. unfold extract_comprehensive_dependencies. apply lookup_fmap. Qed.

(** The keys of the record never change. *)
Lemma dom_append k x d : dom (append k x d) = dom d.
Proof. apply dom_alter_L. Qed.
Lemma dom_extend k xs d : dom (extend k xs d) = dom d.
Proof. apply dom_alter_L. Qed.

Lemma soql_match_dom d m : dom (soql_match d m) = dom d.
Proof.
  destruct m as [s|l]; simpl; [apply dom_append|].
  destruct l as [|a [|b [|c l]]]; try reflexivity.
  by rewrite dom_extend, dom_append.
Qed.

Lemma class_match_dom d m : dom (class_match d m) = dom d.
Proof.
  destruct m as [s|l]; simpl.
  - case_decide; [reflexivity|apply dom_append].
  - destruct l as [|a [|b [|c l]]]; try reflexivity.
    case_decide; [reflexivity|]. by rewrite !dom_append.
Qed.

Lemma fold_left_dom {B} (f : deps → B → deps) l d :
  (∀ d x, dom (f d x) = dom d) → dom (fold_left f l d) = dom d.
Proof.
  intros H. apply (fold_left_invariant (λ d', dom d' = dom d)); [|done].
  intros a x Ha. by rewrite H.
Qed.

Lemma raw_dependencies_dom src : dom (raw_dependencies src) = dom initial_dependencies.
Proof.
  unfold raw_dependencies.
  repeat (rewrite fold_left_dom;
    [|intros d pattern;
      lazymatch goal with
      | |- dom (soql_step _ _ _) = _ => apply fold_left_dom, soql_match_dom
      | |- dom (class_step _ _ _) = _ => apply fold_left_dom, class_match_dom
      | |- _ => apply dom_extend
      end]).
  reflexivity.
Qed.

Lemma initial_keys key :
  key ∈ category_set ++ ["triggers"; "workflows"] ↔ key ∈ dom initial_dependencies.
Proof.
  unfold initial_dependencies. rewrite dom_list_to_map_L. simpl. set_solver.
Qed.

Lemma category_extend k k' xs d y :
  y ∈ category (extend k xs d) k' → y ∈ category d k' ∨ (k = k' ∧ y ∈ xs).
Proof.
  unfold category, extend. destruct (decide (k = k')) as [->|Hne].
  - rewrite lookup_alter_eq. destruct (d !! k') as [l|]; simpl; [|by left].
    rewrite elem_of_app. intros [?|?]; [by left|by right].
  - rewrite lookup_alter_ne by done. by left.
Qed.

Lemma category_append k k' x d y :
  y ∈ category (append k x d) k' → y ∈ category d k' ∨ (k = k' ∧ y = x).
Proof.
  intros [H|[-> H]]%category_extend; [by left|right].
  by apply list_elem_of_singleton in H.
Qed.

Lemma guarded_extend k xs d :
  k ≠ "classes" → k ≠ "methods" → guarded d → guarded (extend k xs d).
Proof.
  intros H1 H2 [Hc Hm].
  split; intros x [Hx|[-> _]]%category_extend;
    [by apply Hc|congruence|by apply Hm|congruence].
Qed.

Lemma guarded_append k x d :
  k ≠ "classes" → k ≠ "methods" → guarded d → guarded (append k x d).
Proof. apply guarded_extend. Qed.

Lemma guarded_soql_match d m : guarded d → guarded (soql_match d m).
Proof.
  intros H. destruct m as [s|l]; simpl; [apply guarded_append; congruence|].
  destruct l as [|a [|b [|c l]]]; try assumption.
  apply guarded_extend; [congruence..|]. apply guarded_append; congruence.
Qed.

Lemma guarded_class_match d m : guarded d → guarded (class_match d m).
Proof.
  intros Hg. pose proof Hg as [Hc Hm]. destruct m as [s|l]; simpl.
  - case_decide; [assumption|].
    split; intros x [Hx|[? ->]]%category_append;
      [by apply Hc|assumption|by apply Hm|congruence].
  - destruct l as [|a [|b [|c l]]]; try assumption.
    case_decide; [assumption|]. split.
    + intros x [Hx|[? ->]]%category_append; [|congruence].
      apply category_append in Hx as [Hx|[? ->]]; [by apply Hc|assumption].
    + intros x [Hx|[? ->]]%category_append.
      * apply category_append in Hx as [Hx|[? ->]]; [by apply Hm|congruence].
      * exists a, b. split; [reflexivity|assumption].
Qed.

Lemma guarded_raw src : guarded (raw_dependencies src).
Proof.
  unfold raw_dependencies.
  repeat (apply (fold_left_invariant guarded);
    [intros d pattern Hd;
     lazymatch goal with
     | |- guarded (soql_step _ _ _) =>
         apply (fold_left_invariant guarded); [|assumption];
         intros; by apply guarded_soql_match
     | |- guarded (class_step _ _ _) =>
         apply (fold_left_invariant guarded); [|assumption];
         intros; by apply guarded_class_match
     | |- _ => apply guarded_extend; [congruence..|assumption]
     end|]).
  split; intros x; unfold category; vm_compute; by intros ?%elem_of_nil.
Qed.

(** C8.  For every source text, component name and kind, the returned
    dependency record has every key of the category set, and a category
    for which the patterns found nothing is mapped to the empty list. *)
Theorem dependency_record_has_every_category (src name kind : string) :
  Forall (λ key,
    ∃ l, extract_comprehensive_dependencies src name kind !! key = Some l ∧
         (category (raw_dependencies src) key = [] → l = []))
    category_set.
Proof.
  apply Forall_forall. intros key Hkey.
  assert (Hdom : key ∈ dom (raw_dependencies src)).
  { rewrite raw_dependencies_dom. apply initial_keys, elem_of_app. by left. }
  apply elem_of_dom in Hdom as [raw Hraw].
  exists (clean raw). rewrite extract_lookup, Hraw. split; [done|].
  unfold category. rewrite Hraw. simpl. by intros ->.
Qed.

(** C3, the claim as stated fails: the objects category of a class that
    declares a [List<String>] contains the denylisted name [String]. *)
Lemma denylisted_name_in_objects :
  ∃ l, extract_comprehensive_dependencies "List<String> names;" "Demo" "ApexClass"
         !! "objects" = Some l
       ∧ "String" ∈ l ∧ "String" ∈ system_classes.
Proof.
  exists ["String"]. split; [by vm_compute|].
  split; [apply list_elem_of_singleton; done|].
  apply (bool_decide_unpack _). by vm_compute.
Qed.

(** C3, amended.  For every source text, component name and kind, every
    category list of the returned record has no duplicate entry and no
    entry shorter than two characters; the classes list holds no
    denylisted name, and every entry of the methods list is a qualified
    call [Class.method] whose class is not denylisted.  (The denylist is
    not applied to the other categories.) *)
Theorem category_lists_clean (src name kind key : string) (l : list string) :
  extract_comprehensive_dependencies src name kind !! key = Some l →
  NoDup l
  ∧ (∀ x, x ∈ l → 2 ≤ PyStr.len x)
  ∧ (key = "classes" → ∀ x, x ∈ l → x ∉ system_classes)
  ∧ (key = "methods" →
       ∀ x, x ∈ l → ∃ c m, x = c +:+ "." +:+ m ∧ c ∉ system_classes).
Proof.
  rewrite extract_lookup. destruct (raw_dependencies src !! key) as [raw|] eqn:Hraw;
    [|done].
  simpl. intros [= <-]. split; [apply clean_NoDup|].
  split; [intros x [_ Hx]%elem_of_clean; by apply keep_length|].
  destruct (guarded_raw src) as [Hc Hm].
  split; intros -> x [Hx _]%elem_of_clean.
  - apply Hc. unfold category. by rewrite Hraw.
  - apply Hm. unfold category. by rewrite Hraw.
Qed.

Lemma category_lists_clean_witness :
  extract_comprehensive_dependencies "List<String> names; Foo.a();" "Demo" "ApexClass"
    !! "classes" = Some ["Foo"]
  ∧ NoDup ["Foo"] ∧ (∀ x, x ∈ ["Foo"] → 2 ≤ PyStr.len x)
  ∧ ("classes" = "classes" → ∀ x, x ∈ ["Foo"] → x ∉ system_classes)
  ∧ ("classes" = "methods" →
       ∀ x, x ∈ ["Foo"] → ∃ c m, x = c +:+ "." +:+ m ∧ c ∉ system_classes).
Proof.
  assert (H : extract_comprehensive_dependencies "List<String> names; Foo.a();"
                "Demo" "ApexClass" !! "classes" = Some ["Foo"])
    by (vm_compute; reflexivity).
  split; [exact H|].
  exact (category_lists_clean "List<String> names; Foo.a();" "Demo" "ApexClass"
           "classes" ["Foo"] H).
Defined.

(** ** Filtering the synthesized edges *)

Section FilterFacts.
Context {A : Type} (P : relationship → bool).

Lemma filter_map_all (f : A → relationship) l :
  (∀ x, P (f x) = true) → List.filter P (map f l) = map f l.
Proof. intros H. induction l as [|x l IH]; simpl; [done|]. by rewrite H, IH. Qed.

Lemma filter_map_none (f : A → relationship) l :
  (∀ x, P (f x) = false) → List.filter P (map f l) = [].
Proof. intros H. induction l as [|x l IH]; simpl; [done|]. by rewrite H. Qed.

Lemma filter_flat_map_all (f : A → list relationship) l :
  (∀ x, List.filter P (f x) = f x) → List.filter P (flat_map f l) = flat_map f l.
Proof.
  intros H. induction l as [|x l IH]; simpl; [done|].
  by rewrite List.filter_app, H, IH.
Qed.

Lemma filter_flat_map_none (f : A → list relationship) l :
  (∀ x, List.filter P (f x) = []) → List.filter P (flat_map f l) = [].
Proof.
  intros H. induction l as [|x l IH]; simpl; [done|].
  by rewrite List.filter_app, H, IH.
Qed.

End FilterFacts.

Lemma filter_dotted_all P entry mk :
  (∀ a b, P (mk a b) = true) → List.filter P (dotted entry mk) = dotted entry mk.
Proof.
  intros H. unfold dotted. destruct (PyStr.split1 entry ".") as [[a b]|]; simpl; [|done].
  by rewrite H.
Qed.

Lemma filter_dotted_none P entry mk :
  (∀ a b, P (mk a b) = false) → List.filter P (dotted entry mk) = [].
Proof.
  intros H. unfold dotted. destruct (PyStr.split1 entry ".") as [[a b]|]; simpl; [|done].
  by rewrite H.
Qed.

(** Each block of [class_relationships] and [trigger_relationships] either
    passes a filter on the edge type whole or not at all. *)
Ltac filter_block :=
  first
    [ apply filter_map_all; intros; reflexivity
    | apply filter_map_none; intros; reflexivity
    | apply filter_map_none; intros; case_match; reflexivity
    | apply filter_map_all; intros; case_match; reflexivity
    | apply filter_flat_map_all; intros; apply filter_dotted_all; intros; reflexivity
    | apply filter_flat_map_none; intros; apply filter_dotted_none; intros; reflexivity
    | apply filter_flat_map_all; intros; case_match; reflexivity
    | apply filter_flat_map_none; intros; case_match; reflexivity ].

Ltac filter_blocks :=
  rewrite ?List.filter_app;
  repeat match goal with
  | |- context [List.filter ?P (map ?f ?l)] =>
      let H := fresh in
      first [ assert (H : List.filter P (map f l) = map f l) by filter_block
            | assert (H : List.filter P (map f l) = []) by filter_block ];
      rewrite H; clear H
  | |- context [List.filter ?P (flat_map ?f ?l)] =>
      let H := fresh in
      first [ assert (H : List.filter P (flat_map f l) = flat_map f l) by filter_block
            | assert (H : List.filter P (flat_map f l) = []) by filter_block ];
      rewrite H; clear H
  end;
  simpl; rewrite ?app_nil_r.

Lemma filter_ext_bool {A} (f g : A → bool) l :
  (∀ x, f x = g x) → List.filter f l = List.filter g l.
Proof. intros H. induction l as [|x l IH]; simpl; [done|]. by rewrite H, IH. Qed.

(** The object edges in the lists the two synthesizers append: for a
    trigger, one AFFECTS_OBJECT edge for each name of the objects category
    other than the owning object, if there is one; for a class, one
    USES_OBJECT edge for each name of the objects category. *)
Lemma object_edges_proposed (id : string) (dependencies : deps)
    (trigger_object : option string) :
  List.filter (has_type "AFFECTS_OBJECT")
    (trigger_relationships id dependencies trigger_object)
  = map (λ obj, edge_d id ("object_" +:+ obj) "AFFECTS_OBJECT"
                  ("Trigger performs operations on " +:+ obj))
      (List.filter (λ obj, negb (bool_decide (Some obj = trigger_object)))
         (category dependencies "objects"))
  ∧ List.filter (has_type "USES_OBJECT") (class_relationships id dependencies)
    = map (λ obj, edge_d id ("object_" +:+ obj) "USES_OBJECT"
                    "References object in SOQL/DML operations")
        (category dependencies "objects").
Proof.
  split.
  - unfold trigger_relationships. filter_blocks. done.
  - unfold class_relationships. filter_blocks. done.
Qed.

(** ** Splitting at the first dot *)

Lemma str_chars s : PyStr.str (PyStr.chars s) = s.
Proof. apply string_of_list_ascii_of_string. Qed.

Lemma chars_str l : PyStr.chars (PyStr.str l) = l.
Proof. apply list_ascii_of_string_of_list_ascii. Qed.

Lemma str_app l1 l2 : PyStr.str (l1 ++ l2) = PyStr.str l1 +:+ PyStr.str l2.
Proof. induction l1 as [|c l1 IH]; simpl; [done|]. by rewrite IH. Qed.







(** ** Distinct edges *)

Lemma NoDup_map_inj {A B} (f : A → B) (l : list A) :
  (∀ x y, f x = f y → x = y) → NoDup l → NoDup (map f l).
Proof.
  intros Hinj. induction 1 as [|x l Hx Hl IH]; simpl; constructor; [|done].
  intros (y & Hy & Hin)%list_elem_of_In%in_map_iff.
  apply Hinj in Hy as ->. by apply list_elem_of_In in Hin.
Qed.

Lemma NoDup_app_split {A} (Q : A → Prop) (l1 l2 : list A) :
  NoDup l1 → NoDup l2 → Forall Q l1 → Forall (λ x, ¬ Q x) l2 → NoDup (l1 ++ l2).
Proof.
  intros H1 H2 HQ1 HQ2. apply NoDup_app. split; [done|]. split; [|done].
  intros x Hx1 Hx2. rewrite Forall_forall in HQ1, HQ2. by eapply HQ2, HQ1.
Qed.

Lemma NoDup_app_typed (ty : string) (l1 l2 : list (string * string * string)) :
  NoDup l1 → NoDup l2 → Forall (λ t, t.2 = ty) l1 → Forall (λ t, ¬ t.2 = ty) l2 →
  NoDup (l1 ++ l2).
Proof. apply (NoDup_app_split (λ t, t.2 = ty)). Qed.

Lemma append_inj_r (p x y : string) : p +:+ x = p +:+ y → x = y.
Proof. induction p as [|c p IH]; simpl; [done|]. intros [= H]. by apply IH. Qed.

Lemma NoDup_filter_bool {A} (f : A → bool) l : NoDup l → NoDup (List.filter f l).
Proof.
  induction 1 as [|x l Hx Hl IH]; simpl; [constructor|].
  destruct (f x); [|done]. constructor; [|done].
  intros [Hin _]%list_elem_of_In%filter_In. by apply list_elem_of_In in Hin.
Qed.

Lemma extract_category_NoDup src name kind k :
  NoDup (category (extract_comprehensive_dependencies src name kind) k).
Proof.
  unfold category. rewrite extract_lookup.
  destruct (raw_dependencies src !! k); simpl; [apply clean_NoDup|constructor].
Qed.

(** One block of edges of a single type, one edge per name. *)
Lemma NoDup_named_block (id prefix ty : string) (d : string → string) l :
  NoDup l → NoDup (map triple (map (λ x, edge_d id (prefix +:+ x) ty (d x)) l)).
Proof.
  intros Hl. rewrite map_map. apply NoDup_map_inj; [|done].
  intros x y [= H]. by apply append_inj_r in H.
Qed.

Lemma typed_block (id ty : string) (to d : string → string) l :
  Forall (λ t, t.2 = ty) (map triple (map (λ x, edge_d id (to x) ty (d x)) l)).
Proof.
  rewrite map_map. apply Forall_forall.
  by intros t (x & <- & _)%list_elem_of_In%in_map_iff.
Qed.

Lemma other_type (ty ty' : string) (l : list (string * string * string)) :
  ty' ≠ ty → Forall (λ t, t.2 = ty') l → Forall (λ t, ¬ t.2 = ty) l.
Proof. intros Hne H. eapply Forall_impl; [exact H|]. by intros t ->. Qed.

Ltac other_types :=
  rewrite ?Forall_app; repeat split;
  (eapply other_type; [|apply typed_block]); done.

(** Among the edges that one class or one trigger proposes, those of the
    types with one edge per extracted name have pairwise distinct
    (from, to, type) triples. *)
Lemma edges_distinct_per_component (src name kind id : string)
    (trigger_object : option string) :
  let dependencies := extract_comprehensive_dependencies src name kind in
  NoDup (map triple
           (List.filter one_edge_per_name (class_relationships id dependencies)))
  ∧ NoDup (map triple
             (List.filter one_edge_per_name
                (trigger_relationships id dependencies trigger_object))).
Proof.
  intros dependencies.
  assert (Hnd : ∀ k, NoDup (category dependencies k))
    by (intros k; apply extract_category_NoDup).
  clearbody dependencies. split.
  - unfold class_relationships. filter_blocks. rewrite !map_app.
    repeat (eapply NoDup_app_typed;
      [apply NoDup_named_block, Hnd
      | | apply typed_block | other_types ]).
    apply NoDup_named_block, Hnd.
  - unfold trigger_relationships. filter_blocks. rewrite !map_app.
    apply (NoDup_app_split (λ t, t.2 ≠ "AFFECTS_OBJECT")).
    + rewrite map_map. apply NoDup_map_inj; [|apply Hnd].
      intros x y. repeat case_match; intros [= Hxy]; by apply append_inj_r in Hxy.
    + apply NoDup_named_block, NoDup_filter_bool, Hnd.
    + rewrite map_map. apply Forall_forall.
      intros t (x & <- & _)%list_elem_of_In%in_map_iff. by case_match.
    + eapply Forall_impl; [apply typed_block|].
      intros t Ht. simpl in *. by intros [].
Qed.

(** ** The converter only ever appends *)

Lemma app_state_init_r st : app_state st init = st.
Proof.
  destruct st as [r [a b c d e f g]]. unfold app_state, add_stats; simpl.
  by rewrite !Nat.add_0_r, !app_nil_r.
Qed.

Lemma app_state_init_l st : app_state init st = st.
Proof. by destruct st as [r [a b c d e f g]]. Qed.

Lemma app_state_assoc a b c :
  app_state (app_state a b) c = app_state a (app_state b c).
Proof.
  unfold app_state, add_stats; simpl. by rewrite !Nat.add_assoc, <- !app_assoc.
Qed.

Lemma framed_ret {A} (x : A) : framed (ret x).
Proof. intros st. unfold ret, out, eff; simpl. by rewrite app_state_init_r. Qed.

Lemma out_bind {A B} (m : M A) (f : A → M B) :
  framed (f (out m)) → out (bind m f) = out (f (out m)).
Proof.
  intros Hf. unfold out at 1, bind. destruct (m init) as [x st'] eqn:E.
  assert (x = out m) as -> by (unfold out; by rewrite E).
  by rewrite Hf.
Qed.

Lemma eff_bind {A B} (m : M A) (f : A → M B) :
  framed (f (out m)) → eff (bind m f) = app_state (eff m) (eff (f (out m))).
Proof.
  intros Hf. unfold eff at 1, bind. destruct (m init) as [x st'] eqn:E.
  assert (x = out m) as -> by (unfold out; by rewrite E).
  assert (st' = eff m) as -> by (unfold eff; by rewrite E).
  by rewrite Hf.
Qed.

Lemma framed_bind {A B} (m : M A) (f : A → M B) :
  framed m → (∀ x, framed (f x)) → framed (bind m f).
Proof.
  intros Hm Hf st. rewrite out_bind, eff_bind by apply Hf.
  unfold bind. rewrite Hm, Hf. by rewrite app_state_assoc.
Qed.

Lemma framed_add_relationship r : framed (add_relationship r).
Proof.
  intros [rs [a b c d e f g]]. unfold add_relationship, out, eff, app_state, add_stats.
  simpl. by rewrite !Nat.add_0_r, !app_nil_r.
Qed.

Lemma framed_record_error msg : framed (record_error msg).
Proof.
  intros [rs [a b c d e f g]].
  unfold record_error, modify_stats, out, eff, app_state, add_stats.
  simpl. by rewrite !Nat.add_0_r, !app_nil_r.
Qed.

Lemma framed_increment c : framed (increment c).
Proof.
  intros [rs [a b c' d e f g]].
  unfold increment, modify_stats, out, eff, app_state, add_stats.
  simpl. rewrite !app_nil_r. by destruct c; simpl; rewrite ?Nat.add_0_r.
Qed.

Lemma framed_for_each {A} (l : list A) (body : A → M unit) :
  (∀ x, framed (body x)) → framed (for_each l body).
Proof.
  intros Hb. induction l as [|x l IH]; simpl; [apply framed_ret|].
  apply framed_bind; [apply Hb|done].
Qed.

Lemma framed_collect {A B} (l : list A) (body : A → M (option B)) :
  (∀ x, framed (body x)) → framed (collect l body).
Proof.
  intros Hb. induction l as [|x l IH]; simpl; [apply framed_ret|].
  apply framed_bind; [apply Hb|]. intros y.
  apply framed_bind; [done|]. intros ys. apply framed_ret.
Qed.

Create HintDb framed discriminated.
#[local] Hint Resolve framed_ret framed_add_relationship framed_record_error
  framed_increment : framed.
#[local] Hint Extern 2 (framed (bind _ _)) => apply framed_bind; [|intros] : framed.
#[local] Hint Extern 2 (framed (for_each _ _)) => apply framed_for_each; intros : framed.
#[local] Hint Extern 2 (framed (collect _ _)) => apply framed_collect; intros : framed.
#[local] Hint Extern 3 (framed (match ?x with _ => _ end)) => destruct x : framed.

Ltac framed := auto 20 with framed.

Lemma framed_process_field dir f o : framed (process_field dir f o).
Proof. unfold process_field. framed. Qed.
Lemma framed_process_listview dir f o : framed (process_listview dir f o).
Proof. unfold process_listview. framed. Qed.
Lemma framed_process_weblink dir f o : framed (process_weblink dir f o).
Proof. unfold process_weblink. framed. Qed.
Lemma framed_process_workflow dir f : framed (process_workflow dir f).
Proof. unfold process_workflow. framed. Qed.
Lemma framed_process_layout dir f : framed (process_layout dir f).
Proof. unfold process_layout, _create_layout_relationships. framed. Qed.
Lemma framed_process_apex_class dir f : framed (process_apex_class dir f).
Proof. unfold process_apex_class, _create_class_relationships. framed. Qed.
Lemma framed_process_trigger dir f : framed (process_trigger dir f).
Proof. unfold process_trigger, _create_trigger_relationships. framed. Qed.

Lemma framed_process_children dir oid o ty process files :
  (∀ d f n, framed (process d f n)) →
  framed (process_children dir oid o ty process files).
Proof. intros H. unfold process_children. framed. Qed.

Lemma framed_process_custom_object dir od : framed (process_custom_object dir od).
Proof.
  unfold process_custom_object.
  pose proof framed_process_field. pose proof framed_process_listview.
  pose proof framed_process_weblink.
  repeat (apply framed_bind; [|intros]); try apply framed_process_children; framed.
Qed.

#[local] Hint Resolve framed_process_field framed_process_listview
  framed_process_weblink framed_process_workflow framed_process_layout
  framed_process_apex_class framed_process_trigger framed_process_custom_object
  framed_process_children : framed.

(** *** Loops over sibling files *)

Lemma out_collect_cons {A B} (x : A) l (body : A → M (option B)) :
  (∀ x, framed (body x)) →
  out (collect (x :: l) body) = kept (out (body x)) ++ out (collect l body).
Proof.
  intros Hb. simpl. rewrite out_bind by framed. rewrite out_bind by framed.
  unfold out at 1, ret. simpl. by destruct (out (body x)).
Qed.

Lemma eff_collect_cons {A B} (x : A) l (body : A → M (option B)) :
  (∀ x, framed (body x)) →
  eff (collect (x :: l) body) = app_state (eff (body x)) (eff (collect l body)).
Proof.
  intros Hb. simpl. rewrite eff_bind by framed. rewrite eff_bind by framed.
  unfold eff at 4, ret. simpl. by rewrite app_state_init_r.
Qed.

Lemma out_collect_app {A B} (l1 l2 : list A) (body : A → M (option B)) :
  (∀ x, framed (body x)) →
  out (collect (l1 ++ l2) body) = out (collect l1 body) ++ out (collect l2 body).
Proof.
  intros Hb. induction l1 as [|x l1 IH]; [done|].
  rewrite <- app_comm_cons, !out_collect_cons, IH by done. by rewrite app_assoc.
Qed.

Lemma eff_collect_app {A B} (l1 l2 : list A) (body : A → M (option B)) :
  (∀ x, framed (body x)) →
  eff (collect (l1 ++ l2) body)
  = app_state (eff (collect l1 body)) (eff (collect l2 body)).
Proof.
  intros Hb. induction l1 as [|x l1 IH].
  - simpl. by rewrite app_state_init_l.
  - rewrite <- app_comm_cons, !eff_collect_cons, IH by done.
    by rewrite app_state_assoc.
Qed.

(** *** States that differ by one error message *)

Lemma one_more_error_base msg : one_more_error msg (error_only msg) init.
Proof. split; [done|]. split; [done|]. by exists [], []. Qed.

Lemma count_of_add c s d :
  count_of c (add_stats s d) = count_of c s + count_of c d.
Proof. by destruct c. Qed.

Lemma one_more_error_l msg a d d' :
  one_more_error msg d d' → one_more_error msg (app_state a d) (app_state a d').
Proof.
  intros (Hr & Hc & e1 & e2 & He & He'). split; [simpl; by rewrite Hr|].
  split; [intros c; simpl; by rewrite !count_of_add, Hc|].
  exists (errors (conversion_stats a) ++ e1), e2. simpl.
  by rewrite He, He', !app_assoc.
Qed.

Lemma one_more_error_r msg b d d' :
  one_more_error msg d d' → one_more_error msg (app_state d b) (app_state d' b).
Proof.
  intros (Hr & Hc & e1 & e2 & He & He'). split; [simpl; by rewrite Hr|].
  split; [intros c; simpl; by rewrite !count_of_add, Hc|].
  exists e1, (e2 ++ errors (conversion_stats b)). simpl.
  by rewrite He, He', <- !app_assoc.
Qed.

(** A loop over [l1 ++ x :: l2] whose body, at [x], only records an error
    and yields nothing, against the loop over [l1 ++ l2]. *)
Lemma collect_skips {A B} (l1 l2 : list A) (x : A) (body : A → M (option B)) msg :
  (∀ x, framed (body x)) →
  body x init = (None, error_only msg) →
  out (collect (l1 ++ x :: l2) body) = out (collect (l1 ++ l2) body)
  ∧ one_more_error msg (eff (collect (l1 ++ x :: l2) body))
                       (eff (collect (l1 ++ l2) body)).
Proof.
  intros Hb Hx. split.
  - rewrite !out_collect_app, out_collect_cons by done.
    unfold out at 2. by rewrite Hx.
  - rewrite !eff_collect_app, eff_collect_cons by done.
    apply one_more_error_l.
    rewrite <- (app_state_init_l (eff (collect l2 body))) at 2.
    apply one_more_error_r. unfold eff at 1. rewrite Hx. apply one_more_error_base.
Qed.

Lemma collect_replaces {A B} (l1 l2 : list A) (x x' : A) (body : A → M (option B)) msg :
  (∀ x, framed (body x)) →
  out (body x) = out (body x') →
  one_more_error msg (eff (body x)) (eff (body x')) →
  out (collect (l1 ++ x :: l2) body) = out (collect (l1 ++ x' :: l2) body)
  ∧ one_more_error msg (eff (collect (l1 ++ x :: l2) body))
                       (eff (collect (l1 ++ x' :: l2) body)).
Proof.
  intros Hb Hout Heff. split.
  - rewrite !out_collect_app, !out_collect_cons by done. by rewrite Hout.
  - rewrite !eff_collect_app, !eff_collect_cons by done.
    by apply one_more_error_l, one_more_error_r.
Qed.

(** *** What a malformed file does *)

Lemma record_error_init msg : record_error msg init = (tt, error_only msg).
Proof. reflexivity. Qed.

Lemma malformed_field_skipped dir f o e :
  xf_parse f = Xml.ParseError e →
  process_field dir f o init = (None, error_only (error_message "field" dir (xf_name f) e)).
Proof. intros H. unfold process_field. by rewrite H. Qed.

Lemma malformed_listview_skipped dir f o e :
  xf_parse f = Xml.ParseError e →
  process_listview dir f o init
  = (None, error_only (error_message "listview" dir (xf_name f) e)).
Proof. intros H. unfold process_listview. by rewrite H. Qed.

Lemma malformed_weblink_skipped dir f o e :
  xf_parse f = Xml.ParseError e →
  process_weblink dir f o init
  = (None, error_only (error_message "weblink" dir (xf_name f) e)).
Proof. intros H. unfold process_weblink. by rewrite H. Qed.

Lemma malformed_layout_skipped dir f e :
  xf_parse f = Xml.ParseError e →
  process_layout dir f init = (None, error_only (error_message "layout" dir (xf_name f) e)).
Proof. intros H. unfold process_layout. by rewrite H. Qed.

Lemma malformed_workflow_skipped dir f e :
  xf_parse f = Xml.ParseError e →
  process_workflow dir f init
  = (None, error_only (error_message "workflow" dir (xf_name f) e)).
Proof. intros H. unfold process_workflow. by rewrite H. Qed.

Lemma malformed_class_skipped dir f e :
  load f = inl e →
  process_apex_class dir f init
  = (None, error_only (error_message "class" dir (sf_name f) e)).
Proof. intros H. unfold process_apex_class. by rewrite H. Qed.

Lemma malformed_trigger_skipped dir f e :
  load f = inl e →
  process_trigger dir f init
  = (None, error_only (error_message "trigger" dir (sf_name f) e)).
Proof. intros H. unfold process_trigger. by rewrite H. Qed.

(** *** The passes of a run *)

Lemma framed_eq {A} (m : M A) st : framed m → m st = (out m, app_state st (eff m)).
Proof. intros H. apply H. Qed.

Lemma init_eq {A} (m : M A) : m init = (out m, eff m).
Proof. unfold out, eff. by destruct (m init). Qed.

Lemma framed_object_metadata dir od : framed (object_metadata dir od).
Proof. unfold object_metadata. framed. Qed.

Lemma process_custom_object_eq objects_dir od :
  let dir := path_join objects_dir (od_name od) in
  process_custom_object objects_dir od init
  = ({| o_id := "object_" +:+ od_name od; o_type := "CustomObject";
        o_name := od_name od; o_metadata := out (object_metadata dir od);
        o_fields := out (fields_pass dir od);
        o_listViews := out (listViews_pass dir od);
        o_webLinks := out (webLinks_pass dir od) |},
     app_state (eff (object_metadata dir od))
       (app_state (eff (fields_pass dir od))
          (app_state (eff (listViews_pass dir od)) (eff (webLinks_pass dir od))))).
Proof.
  intros dir. unfold process_custom_object, bind.
  fold dir. change (match od_object_file od with
    | Some (Xml.ParseError e) => _ | Some (Xml.Parsed root) => _ | None => _ end)
    with (object_metadata dir od).
  rewrite (init_eq (object_metadata dir od)).
  fold (fields_pass dir od) (listViews_pass dir od) (webLinks_pass dir od).
  rewrite (framed_eq (fields_pass dir od)) by (unfold fields_pass; framed).
  rewrite (framed_eq (listViews_pass dir od)) by (unfold listViews_pass; framed).
  rewrite (framed_eq (webLinks_pass dir od)) by (unfold webLinks_pass; framed).
  unfold ret. by rewrite !app_state_assoc.
Qed.

Lemma children_skip dir oid o ty process kind l1 f l2 e :
  (∀ d f n, framed (process d f n)) →
  process dir f o init = (None, error_only (error_message kind dir (xf_name f) e)) →
  out (process_children dir oid o ty process (l1 ++ f :: l2))
  = out (process_children dir oid o ty process (l1 ++ l2))
  ∧ one_more_error (error_message kind dir (xf_name f) e)
      (eff (process_children dir oid o ty process (l1 ++ f :: l2)))
      (eff (process_children dir oid o ty process (l1 ++ l2))).
Proof.
  intros Hp Hf. unfold process_children. apply collect_skips; [intros; framed|].
  unfold bind. by rewrite Hf.
Qed.

Lemma object_without_malformed_spec objects_dir od msg od' :
  object_without_malformed (path_join objects_dir (od_name od)) od msg od' →
  out (process_custom_object objects_dir od) = out (process_custom_object objects_dir od')
  ∧ one_more_error msg (eff (process_custom_object objects_dir od))
                       (eff (process_custom_object objects_dir od')).
Proof.
  intros H. unfold out, eff. rewrite !process_custom_object_eq. simpl.
  inversion H as [? l1 f l2 e Hl Hf|? l1 f l2 e Hl Hf|? l1 f l2 e Hl Hf]; subst; simpl.
  - destruct (children_skip
      (path_join (path_join objects_dir (od_name od)) "fields")
      ("object_" +:+ od_name od) (od_name od) "HAS_FIELD" process_field "field"
      l1 f l2 e framed_process_field (malformed_field_skipped _ _ _ _ Hf))
      as [Ho He].
    unfold fields_pass at 1 3. rewrite Hl. simpl.
    split; [by rewrite Ho|]. by apply one_more_error_l, one_more_error_r.
  - destruct (children_skip
      (path_join (path_join objects_dir (od_name od)) "listViews")
      ("object_" +:+ od_name od) (od_name od) "HAS_LISTVIEW" process_listview "listview"
      l1 f l2 e framed_process_listview (malformed_listview_skipped _ _ _ _ Hf))
      as [Ho He].
    unfold listViews_pass at 1 3. rewrite Hl. simpl.
    split; [by rewrite Ho|].
    by apply one_more_error_l, one_more_error_l, one_more_error_r.
  - destruct (children_skip
      (path_join (path_join objects_dir (od_name od)) "webLinks")
      ("object_" +:+ od_name od) (od_name od) "HAS_WEBLINK" process_weblink "weblink"
      l1 f l2 e framed_process_weblink (malformed_weblink_skipped _ _ _ _ Hf))
      as [Ho He].
    unfold webLinks_pass at 1 3. rewrite Hl. simpl.
    split; [by rewrite Ho|].
    by apply one_more_error_l, one_more_error_l, one_more_error_l.
Qed.

Lemma run_eq t :
  run t = ({| am_objects := out (objects_pass t); am_layouts := out (layouts_pass t);
              am_classes := out (classes_pass t); am_triggers := out (triggers_pass t);
              am_workflows := out (workflows_pass t);
              am_relationships := relationships (final_state t) |},
           final_state t).
Proof.
  unfold run, convert_all_metadata. cbv zeta.
  fold (objects_pass t) (layouts_pass t) (classes_pass t) (triggers_pass t)
       (workflows_pass t).
  unfold bind.
  rewrite (init_eq (objects_pass t)).
  rewrite (framed_eq (layouts_pass t)) by (unfold layouts_pass; framed).
  rewrite (framed_eq (classes_pass t)) by (unfold classes_pass; framed).
  rewrite (framed_eq (triggers_pass t)) by (unfold triggers_pass; framed).
  rewrite (framed_eq (workflows_pass t)) by (unfold workflows_pass; framed).
  unfold final_state. by rewrite !app_state_assoc.
Qed.


(** ** Impact analysis *)

Lemma impact_loop_spec rels x ab af :
  impact_loop rels x ab af
  = (ab ++ map dependent_of (List.filter (is_target_only x) rels),
     af ++ map dependency_of (List.filter (is_source x) rels)).
Proof.
  revert ab af. induction rels as [|rel rels IH]; intros ab af; simpl.
  - by rewrite !app_nil_r.
  - unfold is_target_only, is_source.
    destruct (r_from rel =? x)%string; simpl.
    + rewrite andb_false_r, IH. by rewrite <- app_assoc.
    + rewrite andb_true_r. destruct (r_to rel =? x)%string; rewrite IH; [|done].
      by rewrite <- app_assoc.
Qed.

(** What the code computes: the outgoing edges are exactly those whose
    [from] is the component; the incoming ones are those whose [to] is the
    component and whose [from] is not. *)
Lemma generate_impact_analysis_spec rels x :
  generate_impact_analysis rels x
  = (map dependent_of (List.filter (is_target_only x) rels),
     map dependency_of (List.filter (is_source x) rels)).
Proof. apply impact_loop_spec. Qed.

Lemma filter_none {A} (f : A → bool) l :
  (∀ y, y ∈ l → f y = false) → List.filter f l = [].
Proof.
  induction l as [|y l IH]; intros H; simpl; [done|].
  rewrite H by left. apply IH. intros z Hz. apply H. by right.
Qed.

(** An id that occurs in no edge has an empty report. *)
Lemma impact_of_unknown rels x :
  (∀ rel, rel ∈ rels → r_from rel ≠ x ∧ r_to rel ≠ x) →
  generate_impact_analysis rels x = ([], []).
Proof.
  intros H. rewrite generate_impact_analysis_spec.
  rewrite !filter_none; [done|..]; intros rel [H1 H2]%H.
  - unfold is_source. by apply String.eqb_neq.
  - unfold is_target_only. apply andb_false_iff. left. by apply String.eqb_neq.
Qed.

(** ** Triggers *)

Lemma for_each_add_relationship l st :
  for_each l add_relationship st
  = (tt, {| relationships := relationships st ++ l;
            conversion_stats := conversion_stats st |}).
Proof.
  revert st. induction l as [|r l IH]; intros st; simpl.
  - unfold ret. rewrite app_nil_r. by destruct st.
  - unfold bind, add_relationship at 1. rewrite IH. simpl. by rewrite <- app_assoc.
Qed.

(** ** The claims about runs, triggers, impact analysis and lookups *)

(** C1, the claim as stated fails: a class that calls two methods of one
    other class gets two CALLS_METHOD edges to that class, and the run's
    edge collection holds the triple twice. *)
Lemma duplicate_triple_in_run :
  ¬ NoDup (map triple (am_relationships (run Examples.two_calls_tree).1)).
Proof. apply (bool_decide_eq_false_1 _). by vm_compute. Qed.

(** C7.  For every input tree, a malformed field, list view, web link,
    layout, class, trigger or workflow file is skipped: the run over the
    tree yields the same entities, the same edges and the same counters
    as the run over the tree without that file, and its list of errors is
    that of the other run with the file's error message added in place. *)
Theorem malformed_file_is_skipped (t t' : source_tree) (msg : string) :
  without_malformed t msg t' →
  (run t).1 = (run t').1
  ∧ relationships (run t).2 = relationships (run t').2
  ∧ (∀ c, count_of c (conversion_stats (run t).2)
          = count_of c (conversion_stats (run t').2))
  ∧ ∃ before after,
      errors (conversion_stats (run t).2) = before ++ msg :: after
      ∧ errors (conversion_stats (run t').2) = before ++ after.
Proof.
  intros H. rewrite !run_eq. cbn [fst snd].
  change (relationships (final_state t) = relationships (final_state t')
          ∧ (∀ c, count_of c (conversion_stats (final_state t))
                  = count_of c (conversion_stats (final_state t')))
          ∧ ∃ before after,
              errors (conversion_stats (final_state t)) = before ++ msg :: after
              ∧ errors (conversion_stats (final_state t')) = before ++ after)
    with (one_more_error msg (final_state t) (final_state t')).
  assert (Hpasses :
    out (objects_pass t) = out (objects_pass t')
    ∧ out (layouts_pass t) = out (layouts_pass t')
    ∧ out (classes_pass t) = out (classes_pass t')
    ∧ out (triggers_pass t) = out (triggers_pass t')
    ∧ out (workflows_pass t) = out (workflows_pass t')
    ∧ one_more_error msg (final_state t) (final_state t')).
  { unfold final_state, objects_pass, layouts_pass, classes_pass, triggers_pass,
      workflows_pass.
    inversion H as [? o1 od o2 ? od' Hl Hod|? l1 f l2 e Hl Hf|? l1 f l2 e Hl Hf
                   |? l1 f l2 e Hl Hf|? l1 f l2 e Hl Hf]; subst; simpl; rewrite Hl.
    - apply object_without_malformed_spec in Hod as [Ho He].
      destruct (collect_replaces o1 o2 od od'
        (λ object_dir,
          let* object_data :=
            process_custom_object (path_join (source_dir t) "objects") object_dir in
          ret (Some object_data)) msg) as [Ho' He'].
      + intros; framed.
      + rewrite !out_bind by framed. unfold out at 1 3, ret. simpl. by rewrite Ho.
      + rewrite !eff_bind by framed. unfold eff at 2 4, ret. simpl.
        by rewrite !app_state_init_r.
      + rewrite Ho'. do 5 (split; [reflexivity|]). by apply one_more_error_r.
    - destruct (collect_skips l1 l2 f
        (process_layout (path_join (source_dir t) "layouts")) _
        (framed_process_layout _) (malformed_layout_skipped _ _ _ Hf)) as [Ho He].
      rewrite Ho. do 5 (split; [reflexivity|]).
      by apply one_more_error_l, one_more_error_r.
    - destruct (collect_skips l1 l2 f
        (process_apex_class (path_join (source_dir t) "classes")) _
        (framed_process_apex_class _) (malformed_class_skipped _ _ _ Hf)) as [Ho He].
      rewrite Ho. do 5 (split; [reflexivity|]).
      by apply one_more_error_l, one_more_error_l, one_more_error_r.
    - destruct (collect_skips l1 l2 f
        (process_trigger (path_join (source_dir t) "triggers")) _
        (framed_process_trigger _) (malformed_trigger_skipped _ _ _ Hf)) as [Ho He].
      rewrite Ho. do 5 (split; [reflexivity|]).
      by apply one_more_error_l, one_more_error_l, one_more_error_l, one_more_error_r.
    - destruct (collect_skips l1 l2 f
        (process_workflow (path_join (source_dir t) "workflows")) _
        (framed_process_workflow _) (malformed_workflow_skipped _ _ _ Hf)) as [Ho He].
      rewrite Ho. do 5 (split; [reflexivity|]).
      by apply one_more_error_l, one_more_error_l, one_more_error_l, one_more_error_l. }
  destruct Hpasses as (-> & -> & -> & -> & -> & Hr & Hc & Herr).
  split; [by rewrite Hr|]. by repeat split.
Qed.

Lemma malformed_file_is_skipped_witness :
  let t := Examples.broken_tree in
  let t' := with_objects t [with_fields Examples.contact_dir [Examples.email_field]] in
  let msg :=
    error_message "field" "force-app/main/default/objects/Contact/fields"
      "Phone.field-meta.xml" "not well-formed (invalid token): line 3, column 7" in
  without_malformed t msg t'
  ∧ (run t).1 = (run t').1
  ∧ relationships (run t).2 = relationships (run t').2
  ∧ (∀ c, count_of c (conversion_stats (run t).2)
          = count_of c (conversion_stats (run t').2))
  ∧ ∃ before after,
      errors (conversion_stats (run t).2) = before ++ msg :: after
      ∧ errors (conversion_stats (run t').2) = before ++ after.
Proof.
  intros t t' msg.
  assert (H : without_malformed t msg t').
  { apply (malformed_in_object t [] Examples.contact_dir [] msg
             (with_fields Examples.contact_dir ([Examples.email_field] ++ []))
             eq_refl).
    exact (malformed_field _ Examples.contact_dir [Examples.email_field]
             Examples.broken_field [] _ eq_refl eq_refl). }
  split; [exact H|]. exact (malformed_file_is_skipped t t' msg H).
Defined.

(** *** Triggers *)


Lemma trigger_relationships_no_calls_method id d o :
  List.filter (has_type "CALLS_METHOD") (trigger_relationships id d o) = [].
Proof. unfold trigger_relationships. filter_blocks. done. Qed.





(** C2, the claim as stated fails: the run over Scenario A's trigger
    yields no CALLS_METHOD edge at all. *)
Lemma scenario_A_has_no_calls_method :
  ¬ ∃ r, r ∈ am_relationships (run Examples.scenario_A_tree).1
         ∧ r_type r = "CALLS_METHOD".
Proof.
  intros (r & Hr & Hty). revert Hr.
  assert (Hrun : am_relationships (run Examples.scenario_A_tree).1
    = [edge_d "object_Account" "trigger_T" "HAS_TRIGGER"
         "Trigger events: before insert";
       edge_d "trigger_T" "class_AccountHandler" "DELEGATES_TO_HANDLER"
         "Trigger delegates business logic to handler class"])
    by (vm_compute; reflexivity).
  rewrite Hrun.
  intros [->|[->|[]%elem_of_nil]%elem_of_cons]%elem_of_cons; discriminate Hty.
Qed.

(** C2, amended.  For Scenario A's trigger, processed as the trigger
    named [T], the extractor recovers the owning object [Account], the
    events [before insert], the class [AccountHandler] and the method
    [AccountHandler.run], and the run's edges are exactly
    HAS_TRIGGER(object_Account -> trigger_T) and
    DELEGATES_TO_HANDLER(trigger_T -> class_AccountHandler).  The method
    name stays in the trigger's dependency record: for no trigger does the
    synthesizer emit a CALLS_METHOD edge. *)
Theorem scenario_A :
  let result := (run Examples.scenario_A_tree).1 in
  map t_name (am_triggers result) = ["T"]
  ∧ map t_object (am_triggers result) = [Some "Account"]
  ∧ map t_trigger_events (am_triggers result) = [["before insert"]]
  ∧ map (λ trigger_data, category (t_comprehensive_dependencies trigger_data) "classes")
      (am_triggers result) = [["AccountHandler"]]
  ∧ map (λ trigger_data, category (t_comprehensive_dependencies trigger_data) "methods")
      (am_triggers result) = [["AccountHandler.run"]]
  ∧ am_relationships result
    = [edge_d "object_Account" "trigger_T" "HAS_TRIGGER"
         "Trigger events: before insert";
       edge_d "trigger_T" "class_AccountHandler" "DELEGATES_TO_HANDLER"
         "Trigger delegates business logic to handler class"]
  ∧ ∀ trigger_id dependencies trigger_object,
      List.filter (has_type "CALLS_METHOD")
        (trigger_relationships trigger_id dependencies trigger_object) = [].
Proof.
  intros result.
  assert (Hrun :
    (map t_name (am_triggers result), map t_object (am_triggers result),
     map t_trigger_events (am_triggers result),
     map (λ trigger_data,
            category (t_comprehensive_dependencies trigger_data) "classes")
       (am_triggers result),
     map (λ trigger_data,
            category (t_comprehensive_dependencies trigger_data) "methods")
       (am_triggers result),
     am_relationships result)
    = (["T"], [Some "Account"], [["before insert"]], [["AccountHandler"]],
       [["AccountHandler.run"]],
       [edge_d "object_Account" "trigger_T" "HAS_TRIGGER"
          "Trigger events: before insert";
        edge_d "trigger_T" "class_AccountHandler" "DELEGATES_TO_HANDLER"
          "Trigger delegates business logic to handler class"]))
    by (vm_compute; reflexivity).
  revert Hrun. generalize (am_triggers result), (am_relationships result).
  clear result. intros triggers edges [= -> -> -> -> -> ->].
  repeat split. apply trigger_relationships_no_calls_method.
Qed.

(** *** Impact analysis *)

(** C4, on a self-reference.  The edges of a class that calls one of its
    own static methods go from the class to itself; impact analysis
    reports them among what the class depends on, but not among what
    depends on the class, although their [to] field is the class and
    [analyze_component_connectivity] counts them as incoming. *)
Theorem self_reference_is_not_incoming :
  let rels := am_relationships (run Examples.registry_tree).1 in
  rels = [edge_d "class_Registry" "class_Registry" "DEPENDS_ON_CLASS"
            "Calls methods or instantiates class";
          edge_d "class_Registry" "class_Registry" "CALLS_METHOD"
            "Calls method load"]
  ∧ generate_impact_analysis rels "class_Registry"
    = ([],
       [{| a_target := "class_Registry"; a_type := "DEPENDS_ON_CLASS";
           a_details := "Calls methods or instantiates class" |};
        {| a_target := "class_Registry"; a_type := "CALLS_METHOD";
           a_details := "Calls method load" |}])
  ∧ incoming rels "class_Registry" = 2.
Proof.
  intros rels.
  assert (Hrels : rels
    = [edge_d "class_Registry" "class_Registry" "DEPENDS_ON_CLASS"
         "Calls methods or instantiates class";
       edge_d "class_Registry" "class_Registry" "CALLS_METHOD"
         "Calls method load"]) by (vm_compute; reflexivity).
  rewrite Hrels. repeat split.
Qed.

(** *** Lookups *)

Lemma elem_of_flat_map {A B} (f : A → list B) (l : list A) (x : A) (y : B) :
  x ∈ l → y ∈ f x → y ∈ flat_map f l.
Proof.
  intros Hx Hy. apply list_elem_of_In, in_flat_map. exists x.
  split; by apply list_elem_of_In.
Qed.

Lemma elem_of_flat_map_inv {A B} (f : A → list B) (l : list A) (y : B) :
  y ∈ flat_map f l → ∃ x, x ∈ l ∧ y ∈ f x.
Proof.
  rewrite list_elem_of_In, in_flat_map. intros (x & Hx & Hy).
  exists x. by rewrite !list_elem_of_In.
Qed.

Lemma comprehensive_lookup obj_name field target :
  pf_name field = target +:+ "Id" →
  target ∈ Comprehensive.known_objects →
  edge_c obj_name target "LOOKUP_TO"
    (obj_name +:+ "." +:+ pf_name field +:+ " lookup to " +:+ target)
  ∈ Comprehensive.field_relationships obj_name field.
Proof.
  intros Hname Htarget. unfold Comprehensive.field_relationships. rewrite Hname.
  rewrite !elem_of_app. right. right. clear Hname.
  unfold Comprehensive.known_objects in Htarget.
  repeat (apply elem_of_cons in Htarget as [->|Htarget]; [simpl; by left|]).
  by apply elem_of_nil in Htarget.
Qed.

Lemma enhanced_field_spec obj_name field :
  Enhanced.field_relationships obj_name field
  = if nameless field then inl Enhanced.AttributeError
    else inr (named_lookup obj_name (Enhanced.ef_name field)).
Proof.
  unfold Enhanced.field_relationships, nameless, named_lookup. cbv zeta.
  destruct (Enhanced.ef_name field) as [n|];
    destruct (Enhanced.is_lookup_type (Enhanced.ef_type field)); cbn [negb].
  - destruct (String.eqb_spec n "AccountId") as [->|_]; [done|].
    by destruct (String.eqb_spec n "ContactId") as [->|_].
  - destruct (String.eqb_spec n "AccountId") as [->|_]; [done|].
    destruct (String.eqb_spec n "ContactId") as [->|_]; [done|].
    by destruct (PyStr.endswith n "Id").
  - done.
  - done.
Qed.

Lemma enhanced_fields_loop obj_name fields relationships :
  Enhanced.for_each fields
    (λ field relationships,
       match Enhanced.field_relationships obj_name field with
       | inl e => inl e
       | inr new => inr (relationships ++ new)
       end) relationships
  = if existsb nameless fields then inl Enhanced.AttributeError
    else inr (relationships
              ++ flat_map (λ field, named_lookup obj_name (Enhanced.ef_name field))
                   fields).
Proof.
  revert relationships.
  induction fields as [|field fields IH]; intros relationships;
    cbn [Enhanced.for_each existsb flat_map]; [by rewrite app_nil_r|].
  rewrite enhanced_field_spec. destruct (nameless field); cbn [orb]; [done|].
  rewrite IH. destruct (existsb nameless fields); [done|]. by rewrite app_assoc.
Qed.

(** The enhanced pass raises when a field has neither a name nor a lookup
    type; otherwise it returns the standard relationships followed by the
    edges of the fields, which their names determine. *)
Lemma enhanced_spec objects_data :
  Enhanced.analyze_cross_object_relationships objects_data
  = if existsb (λ obj_data, existsb nameless (Enhanced.eo_fields obj_data)) objects_data
    then inl Enhanced.AttributeError
    else inr (standard_relationships
              ++ flat_map (λ obj_data,
                   flat_map (λ field,
                     named_lookup (Enhanced.eo_name obj_data) (Enhanced.ef_name field))
                     (Enhanced.eo_fields obj_data))
                   objects_data).
Proof.
  unfold Enhanced.analyze_cross_object_relationships.
  generalize standard_relationships.
  induction objects_data as [|obj_data objects_data IH]; intros relationships;
    cbn [Enhanced.for_each existsb flat_map]; [by rewrite app_nil_r|].
  rewrite enhanced_fields_loop.
  destruct (existsb nameless (Enhanced.eo_fields obj_data)); cbn [orb]; [done|].
  rewrite IH. destruct (existsb _ objects_data); [done|]. by rewrite app_assoc.
Qed.

Lemma existsb_nameless objects_data :
  existsb (λ obj_data, existsb nameless (Enhanced.eo_fields obj_data)) objects_data
  = true
  ↔ ∃ obj_data field,
      obj_data ∈ objects_data ∧ field ∈ Enhanced.eo_fields obj_data
      ∧ Enhanced.ef_name field = None
      ∧ Enhanced.is_lookup_type (Enhanced.ef_type field) = false.
Proof.
  rewrite existsb_exists. split.
  - intros (obj_data & Hobj & (field & Hfield & Hn)%existsb_exists).
    exists obj_data, field. rewrite !list_elem_of_In. split; [done|]. split; [done|].
    unfold nameless in Hn. destruct (Enhanced.ef_name field); [done|].
    split; [done|]. by destruct (Enhanced.is_lookup_type _).
  - intros (obj_data & field & Hobj & Hfield & Hname & Hty).
    exists obj_data. split; [by apply list_elem_of_In|].
    apply existsb_exists. exists field. split; [by apply list_elem_of_In|].
    unfold nameless. by rewrite Hname, Hty.
Qed.

Lemma named_lookup_inv obj_name field_name r :
  r ∈ named_lookup obj_name field_name →
  r_type r = "LOOKUP_TO" ∧ r_from r = obj_name ∧ r_to r ∈ ["Account"; "Contact"]
  ∧ field_name = Some (r_to r +:+ "Id").
Proof.
  unfold named_lookup. destruct field_name as [n|]; [|by intros ?%elem_of_nil].
  destruct (String.eqb_spec n "AccountId") as [->|_].
  - intros ->%list_elem_of_singleton. repeat split. by left.
  - destruct (String.eqb_spec n "ContactId") as [->|_]; [|by intros ?%elem_of_nil].
    intros ->%list_elem_of_singleton. repeat split. right. by left.
Qed.

Lemma enhanced_edges_inv objects_data relationships r :
  Enhanced.analyze_cross_object_relationships objects_data = inr relationships →
  r ∈ relationships →
  r ∈ standard_relationships
  ∨ (r_type r = "LOOKUP_TO" ∧ r_to r ∈ ["Account"; "Contact"]
     ∧ ∃ obj_data field,
         obj_data ∈ objects_data ∧ field ∈ Enhanced.eo_fields obj_data
         ∧ r_from r = Enhanced.eo_name obj_data
         ∧ Enhanced.ef_name field = Some (r_to r +:+ "Id")).
Proof.
  rewrite enhanced_spec. destruct (existsb _ objects_data); [done|].
  intros Heq Hr.
  assert (Hrs : relationships
    = standard_relationships
      ++ flat_map (λ obj_data,
           flat_map (λ field,
             named_lookup (Enhanced.eo_name obj_data) (Enhanced.ef_name field))
             (Enhanced.eo_fields obj_data)) objects_data) by congruence.
  rewrite Hrs in Hr. clear Heq Hrs.
  apply elem_of_app in Hr as [Hstd|Hr]; [by left|right].
  apply elem_of_flat_map_inv in Hr as (obj_data & Hobj & Hr).
  apply elem_of_flat_map_inv in Hr as (field & Hfield & Hr).
  apply named_lookup_inv in Hr as (Hty & Hfrom & Hto & Hname).
  split; [done|]. split; [done|]. by exists obj_data, field.
Qed.

(** C5, amended.  In the comprehensive pass, a field named [X ++ "Id"] (so
    not the identity field [Id] itself) where [X] is one of the object
    names the pass knows (Account, Contact, Opportunity) yields a LOOKUP_TO
    edge from the owning object to [X].  The enhanced pass spells out two
    field names: when it returns, a field named [AccountId] or [ContactId]
    has its LOOKUP_TO edge and no LOOKUP_TO edge has another target, so
    [OpportunityId] yields none; it does not return but raises
    AttributeError exactly when some field has no name text and a type
    other than Lookup and MasterDetail.  Both passes yield
    LOOKUP_TO(Contact -> Account) for the field [AccountId] on
    [Contact]. *)
Theorem lookup_edge_for_id_suffix :
  (∀ (objects_data : list (string * parsed_object)) obj_name obj_data field target,
     (obj_name, obj_data) ∈ objects_data →
     field ∈ po_fields obj_data →
     pf_name field = target +:+ "Id" → pf_name field ≠ "Id" →
     target ∈ Comprehensive.known_objects →
     edge_c obj_name target "LOOKUP_TO"
       (obj_name +:+ "." +:+ pf_name field +:+ " lookup to " +:+ target)
     ∈ Comprehensive.analyze_comprehensive_relationships objects_data)
  ∧ (∀ (objects_data : list Enhanced.object_dict) relationships,
       Enhanced.analyze_cross_object_relationships objects_data = inr relationships →
       (∀ obj_data field target,
          obj_data ∈ objects_data →
          field ∈ Enhanced.eo_fields obj_data →
          Enhanced.ef_name field = Some (target +:+ "Id") →
          target ∈ ["Account"; "Contact"] →
          edge_c (Enhanced.eo_name obj_data) target "LOOKUP_TO"
            (Enhanced.eo_name obj_data +:+ "." +:+ target +:+ "Id field")
          ∈ relationships)
       ∧ ∀ r, r ∈ relationships → r_type r = "LOOKUP_TO" →
              r_to r ∈ ["Account"; "Contact"])
  ∧ (∀ (objects_data : list Enhanced.object_dict),
       Enhanced.analyze_cross_object_relationships objects_data
       = inl Enhanced.AttributeError
       ↔ ∃ obj_data field,
           obj_data ∈ objects_data ∧ field ∈ Enhanced.eo_fields obj_data
           ∧ Enhanced.ef_name field = None
           ∧ Enhanced.is_lookup_type (Enhanced.ef_type field) = false).
Proof.
  split; [|split].
  - intros objects_data obj_name obj_data field target Hobj Hfield Hname _ Htarget.
    unfold Comprehensive.analyze_comprehensive_relationships.
    apply elem_of_app. right.
    apply (elem_of_flat_map _ _ (obj_name, obj_data)); [done|]. simpl.
    unfold Comprehensive.object_relationships. apply elem_of_app. left.
    apply (elem_of_flat_map _ _ field); [done|]. by apply comprehensive_lookup.
  - intros objects_data relationships Hret. split.
    + intros obj_data field target Hobj Hfield Hname Htarget.
      rewrite enhanced_spec in Hret. destruct (existsb _ objects_data); [done|].
      assert (Hrs : relationships
        = standard_relationships
          ++ flat_map (λ obj_data,
               flat_map (λ field,
                 named_lookup (Enhanced.eo_name obj_data) (Enhanced.ef_name field))
                 (Enhanced.eo_fields obj_data)) objects_data) by congruence.
      rewrite Hrs. apply elem_of_app. right.
      apply (elem_of_flat_map _ _ obj_data); [done|].
      apply (elem_of_flat_map _ _ field); [done|]. rewrite Hname.
      repeat (apply elem_of_cons in Htarget as [->|Htarget]; [by left|]).
      by apply elem_of_nil in Htarget.
    + intros r Hr Hty.
      destruct (enhanced_edges_inv _ _ _ Hret Hr) as [Hstd|(_ & Hto & _)]; [|done].
      unfold standard_relationships in Hstd.
      repeat (apply elem_of_cons in Hstd as [->|Hstd]; [discriminate Hty|]).
      by apply elem_of_nil in Hstd.
  - intros objects_data. rewrite <- existsb_nameless, enhanced_spec.
    by destruct (existsb _ objects_data).
Qed.

Lemma lookup_edge_for_id_suffix_witness :
  edge_c "Contact" "Account" "LOOKUP_TO" "Contact.AccountId lookup to Account"
  ∈ Comprehensive.analyze_comprehensive_relationships [("Contact", Examples.contact)]
  ∧ (∃ relationships,
       Enhanced.cross_relationships (Some Examples.contact_file) None = inr relationships
       ∧ edge_c "Contact" "Account" "LOOKUP_TO" "Contact.AccountId field"
         ∈ relationships)
  ∧ Enhanced.cross_relationships (Some Examples.nameless_field_file) None
    = inl Enhanced.AttributeError.
Proof.
  split; [|split].
  - apply (proj1 lookup_edge_for_id_suffix [("Contact", Examples.contact)]
             "Contact" Examples.contact Examples.account_id "Account").
    + by left.
    + by left.
    + reflexivity.
    + discriminate.
    + by left.
  - change (Enhanced.cross_relationships (Some Examples.contact_file) None)
      with (Enhanced.analyze_cross_object_relationships [Examples.enhanced_contact]).
    eexists. split; [reflexivity|].
    refine (proj1 (proj1 (proj2 lookup_edge_for_id_suffix)
                     [Examples.enhanced_contact] _ eq_refl)
              Examples.enhanced_contact Examples.enhanced_account_id "Account"
              _ _ eq_refl _).
    + by left.
    + by left.
    + by left.
  - unfold Enhanced.cross_relationships.
    apply (proj2 (proj2 lookup_edge_for_id_suffix)).
    eexists _, _. split; [by left|]. split; [by left|]. split; reflexivity.
Defined.

(** C5, the claim as stated fails in the enhanced pass: [OpportunityId]
    ends in [Id], is not [Id], and stripping [Id] yields Opportunity, which
    the comprehensive pass knows and the standard relationships name; for
    a Contact object file with that field the enhanced parser returns the
    three standard relationships and no LOOKUP_TO edge. *)
Lemma enhanced_ignores_opportunity_id :
  PyStr.endswith "OpportunityId" "Id" = true
  ∧ PyStr.replace "OpportunityId" "Id" "" = "Opportunity"
  ∧ "Opportunity" ∈ Comprehensive.known_objects
  ∧ "Opportunity" ∈ map r_from standard_relationships
  ∧ Enhanced.parse_object "Contact" (Some Examples.opportunity_id_file)
    = Some Examples.contact_with_opportunity_id
  ∧ Enhanced.cross_relationships (Some Examples.opportunity_id_file) None
    = inr standard_relationships
  ∧ List.filter (has_type "LOOKUP_TO") standard_relationships = [].
Proof.
  split; [reflexivity|]. split; [reflexivity|].
  split; [do 2 right; by left|]. split; [right; by left|].
  split; [reflexivity|]. split; reflexivity.
Qed.

(** * More properties of the code *)

(** ** What a run accumulates *)

Lemma out_collect_flat {A B} (l : list A) (body : A → M (option B)) :
  (∀ x, framed (body x)) →
  out (collect l body) = flat_map (λ x, kept (out (body x))) l.
Proof.
  intros Hb. induction l as [|x l IH]; [done|].
  by rewrite out_collect_cons, IH.
Qed.

Lemma relationships_collect {A B} (l : list A) (body : A → M (option B)) :
  (∀ x, framed (body x)) →
  relationships (eff (collect l body))
  = flat_map (λ x, relationships (eff (body x))) l.
Proof.
  intros Hb. induction l as [|x l IH]; [done|].
  rewrite eff_collect_cons by done. simpl. by rewrite IH.
Qed.

Lemma errors_collect {A B} (l : list A) (body : A → M (option B)) :
  (∀ x, framed (body x)) →
  errors (conversion_stats (eff (collect l body)))
  = flat_map (λ x, errors (conversion_stats (eff (body x)))) l.
Proof.
  intros Hb. induction l as [|x l IH]; [done|].
  rewrite eff_collect_cons by done. simpl. by rewrite IH.
Qed.

Lemma count_collect {A B} c (l : list A) (body : A → M (option B)) :
  (∀ x, framed (body x)) →
  count_of c (conversion_stats (eff (collect l body)))
  = sum_list (map (λ x, count_of c (conversion_stats (eff (body x)))) l).
Proof.
  intros Hb. induction l as [|x l IH]; [by destruct c|].
  rewrite eff_collect_cons by done. simpl. by rewrite count_of_add, IH.
Qed.

(** *** Each method, started in the initial state *)

Lemma process_field_init dir f o :
  process_field dir f o init
  = match xf_parse f with
    | Xml.Parsed root =>
        let field_name := PyStr.replace (PyStr.stem (xf_name f)) ".field-meta" "" in
        (Some {| c_id := "field_" +:+ o +:+ "_" +:+ field_name;
                 c_type := "CustomField"; c_name := field_name; c_object := o;
                 c_metadata := xml_to_dict root |},
         counted Fields [])
    | Xml.ParseError e => (None, error_only (error_message "field" dir (xf_name f) e))
    end.
Proof. unfold process_field. by destruct (xf_parse f). Qed.

Lemma process_listview_init dir f o :
  process_listview dir f o init
  = match xf_parse f with
    | Xml.Parsed root =>
        let listview_name :=
          PyStr.replace (PyStr.stem (xf_name f)) ".listView-meta" "" in
        (Some {| c_id := "listview_" +:+ o +:+ "_" +:+ listview_name;
                 c_type := "ListView"; c_name := listview_name; c_object := o;
                 c_metadata := xml_to_dict root |},
         init)
    | Xml.ParseError e =>
        (None, error_only (error_message "listview" dir (xf_name f) e))
    end.
Proof. unfold process_listview. by destruct (xf_parse f). Qed.

Lemma process_weblink_init dir f o :
  process_weblink dir f o init
  = match xf_parse f with
    | Xml.Parsed root =>
        let weblink_name :=
          PyStr.replace (PyStr.stem (xf_name f)) ".webLink-meta" "" in
        (Some {| c_id := "weblink_" +:+ o +:+ "_" +:+ weblink_name;
                 c_type := "WebLink"; c_name := weblink_name; c_object := o;
                 c_metadata := xml_to_dict root |},
         init)
    | Xml.ParseError e =>
        (None, error_only (error_message "weblink" dir (xf_name f) e))
    end.
Proof. unfold process_weblink. by destruct (xf_parse f). Qed.

Lemma process_workflow_init dir f :
  process_workflow dir f init
  = match xf_parse f with
    | Xml.Parsed root =>
        let workflow_name :=
          PyStr.replace (PyStr.stem (xf_name f)) ".workflow-meta" "" in
        (Some {| c_id := "workflow_" +:+ workflow_name; c_type := "Workflow";
                 c_name := workflow_name; c_object := workflow_name;
                 c_metadata := xml_to_dict root |},
         counted Workflows
           [edge ("object_" +:+ workflow_name) ("workflow_" +:+ workflow_name)
                 "HAS_WORKFLOW"])
    | Xml.ParseError e =>
        (None, error_only (error_message "workflow" dir (xf_name f) e))
    end.
Proof. unfold process_workflow. by destruct (xf_parse f). Qed.

Lemma process_layout_init dir f :
  process_layout dir f init
  = match xf_parse f with
    | Xml.Parsed root =>
        let layout_name := PyStr.replace (PyStr.stem (xf_name f)) ".layout-meta" "" in
        let object_name := List.hd "" (PyStr.split layout_name "-") in
        (Some {| l_id := layout_id_of layout_name; l_type := "Layout";
                 l_name := layout_name; l_object := object_name;
                 l_metadata := xml_to_dict root;
                 l_fields_on_layout := _extract_layout_fields root;
                 l_sections := _extract_layout_sections root;
                 l_related_lists := _extract_related_lists root |},
         counted Layouts
           (layout_relationships (layout_id_of layout_name) object_name
              (_extract_layout_fields root) (_extract_related_lists root)))
    | Xml.ParseError e =>
        (None, error_only (error_message "layout" dir (xf_name f) e))
    end.
Proof.
  unfold process_layout. destruct (xf_parse f); [done|]. cbv zeta.
  unfold _create_layout_relationships, bind. cbn [l_id].
  by rewrite for_each_add_relationship.
Qed.

Lemma process_apex_class_init dir f :
  process_apex_class dir f init
  = match load f with
    | inr (source_code, metadata) =>
        let class_name := PyStr.stem (sf_name f) in
        let dependencies :=
          extract_comprehensive_dependencies source_code class_name "ApexClass" in
        (Some {| k_id := "class_" +:+ class_name; k_type := "ApexClass";
                 k_name := class_name; k_source_code := source_code;
                 k_metadata := metadata;
                 k_comprehensive_dependencies := dependencies |},
         counted Classes (class_relationships ("class_" +:+ class_name) dependencies))
    | inl e => (None, error_only (error_message "class" dir (sf_name f) e))
    end.
Proof.
  unfold process_apex_class. destruct (load f) as [e|[source_code metadata]]; [done|].
  cbv zeta. generalize (extract_comprehensive_dependencies source_code
                          (PyStr.stem (sf_name f)) "ApexClass"). intros d.
  unfold _create_class_relationships, bind.
  by rewrite for_each_add_relationship.
Qed.

Lemma process_trigger_init dir f :
  process_trigger dir f init
  = match load f with
    | inr (source_code, metadata) =>
        let trigger_name := PyStr.stem (sf_name f) in
        let trigger_id := "trigger_" +:+ trigger_name in
        let trigger_object := extract_trigger_object source_code in
        let trigger_events := extract_trigger_events source_code in
        let dependencies :=
          extract_comprehensive_dependencies source_code trigger_name "ApexTrigger" in
        (Some {| t_id := trigger_id; t_type := "ApexTrigger"; t_name := trigger_name;
                 t_source_code := source_code; t_metadata := metadata;
                 t_trigger_events :=
                   if truthy trigger_object then trigger_events else [];
                 t_comprehensive_dependencies := dependencies;
                 t_object := if truthy trigger_object then trigger_object else None |},
         counted Triggers
           (has_trigger_edge trigger_id trigger_object trigger_events
            ++ trigger_relationships trigger_id dependencies trigger_object))
    | inl e => (None, error_only (error_message "trigger" dir (sf_name f) e))
    end.
Proof.
  unfold process_trigger. destruct (load f) as [e|[source_code metadata]]; [done|].
  cbv zeta. generalize (extract_comprehensive_dependencies source_code
                          (PyStr.stem (sf_name f)) "ApexTrigger"). intros d.
  generalize (extract_trigger_events source_code). intros evs.
  generalize (extract_trigger_object source_code). intros o.
  unfold _create_trigger_relationships, bind, has_trigger_edge.
  destruct (truthy o); unfold add_relationship, ret;
    by rewrite for_each_add_relationship.
Qed.

(** *** The loops over the sub-definitions of an object *)

Lemma count_of_one C c : count_of c (one C) = bump C c 0.
Proof. by destruct C, c. Qed.

Lemma count_of_initial c : count_of c initial_stats = 0.
Proof. by destruct c. Qed.

Section Children.
Context (dir oid o ty : string)
        (process : string → xml_file → string → M (option component))
        (Hframed : ∀ d f n, framed (process d f n))
        (Hquiet : ∀ f, relationships (eff (process dir f o)) = []).

Let body (f : xml_file) : M (option component) :=
  let* data := process dir f o in
  match data with
  | Some d => add_relationship (edge oid (c_id d) ty) >> ret (Some d)
  | None => ret None
  end.

Lemma framed_child_body f : framed (body f).
Proof. unfold body. framed. Qed.

Lemma out_child_body f : out (body f) = out (process dir f o).
Proof.
  unfold body. rewrite out_bind by framed.
  by destruct (out (process dir f o)).
Qed.

Lemma eff_child_body f :
  eff (body f)
  = app_state (eff (process dir f o))
      (edges_only (map (λ d, edge oid (c_id d) ty) (kept (out (process dir f o))))).
Proof.
  unfold body. rewrite eff_bind by framed.
  by destruct (out (process dir f o)).
Qed.

Lemma out_process_children files :
  out (process_children dir oid o ty process files)
  = flat_map (λ f, kept (out (process dir f o))) files.
Proof.
  unfold process_children. fold body.
  rewrite out_collect_flat by apply framed_child_body.
  induction files as [|f files IH]; simpl; [done|]. by rewrite out_child_body, IH.
Qed.

Lemma relationships_process_children files :
  relationships (eff (process_children dir oid o ty process files))
  = map (λ d, edge oid (c_id d) ty)
      (out (process_children dir oid o ty process files)).
Proof.
  rewrite out_process_children. unfold process_children. fold body.
  rewrite relationships_collect by apply framed_child_body.
  induction files as [|f files IH]; simpl; [done|].
  rewrite map_app, <- IH, eff_child_body. simpl. by rewrite Hquiet.
Qed.

Lemma count_process_children c files :
  count_of c (conversion_stats (eff (process_children dir oid o ty process files)))
  = sum_list (map (λ f, count_of c (conversion_stats (eff (process dir f o)))) files).
Proof.
  unfold process_children. fold body.
  rewrite count_collect by apply framed_child_body.
  induction files as [|f files IH]; simpl; [done|].
  rewrite IH, eff_child_body. simpl.
  by rewrite count_of_add, count_of_initial, Nat.add_0_r.
Qed.

Lemma errors_process_children files :
  errors (conversion_stats (eff (process_children dir oid o ty process files)))
  = flat_map (λ f, errors (conversion_stats (eff (process dir f o)))) files.
Proof.
  unfold process_children. fold body.
  rewrite errors_collect by apply framed_child_body.
  induction files as [|f files IH]; simpl; [done|].
  rewrite IH, eff_child_body. simpl. by rewrite app_nil_r.
Qed.

End Children.

(** *** Files, entities, counters and errors of each pass *)

Lemma count_cons {A} (p : A → bool) x l :
  count p (x :: l) = (if p x then 1 else 0) + count p l.
Proof. unfold count. simpl. by destruct (p x). Qed.

Lemma pass_profile {A B} (C : counter) (ok : A → bool) (body : A → M (option B)) l :
  (∀ x, framed (body x)) →
  (∀ x, if ok x then ∃ b rs, body x init = (Some b, counted C rs)
        else ∃ msg, body x init = (None, error_only msg)) →
  length (out (collect l body)) = count ok l
  ∧ (∀ c, count_of c (conversion_stats (eff (collect l body)))
          = bump C c 0 * count ok l)
  ∧ length (errors (conversion_stats (eff (collect l body))))
    = count (λ x, negb (ok x)) l.
Proof.
  intros Hb Hok. induction l as [|x l (IHo & IHc & IHe)].
  - split; [done|]. split; [|done]. intros c. rewrite Nat.mul_0_r. by destruct c.
  - rewrite out_collect_cons, eff_collect_cons, !count_cons by done.
    rewrite length_app, IHo. simpl. rewrite length_app, IHe.
    specialize (Hok x). unfold out, eff. destruct (ok x); simpl.
    + destruct Hok as (b & rs & ->). simpl. split; [done|]. split; [|done].
      intros c. rewrite count_of_add, IHc, count_of_one. lia.
    + destruct Hok as (msg & ->). simpl. split; [done|]. split; [|done].
      intros c. rewrite count_of_add, IHc. destruct c; simpl; lia.
Qed.

Lemma layout_ok dir f :
  if parses f then ∃ b rs, process_layout dir f init = (Some b, counted Layouts rs)
  else ∃ msg, process_layout dir f init = (None, error_only msg).
Proof.
  rewrite process_layout_init. unfold parses. destruct (xf_parse f); eauto.
Qed.

Lemma workflow_ok dir f :
  if parses f then ∃ b rs, process_workflow dir f init = (Some b, counted Workflows rs)
  else ∃ msg, process_workflow dir f init = (None, error_only msg).
Proof.
  rewrite process_workflow_init. unfold parses. destruct (xf_parse f); eauto.
Qed.

Lemma class_ok dir f :
  if loads f then ∃ b rs, process_apex_class dir f init = (Some b, counted Classes rs)
  else ∃ msg, process_apex_class dir f init = (None, error_only msg).
Proof.
  rewrite process_apex_class_init. unfold loads. destruct (load f) as [|[]]; eauto.
Qed.

Lemma trigger_ok dir f :
  if loads f then ∃ b rs, process_trigger dir f init = (Some b, counted Triggers rs)
  else ∃ msg, process_trigger dir f init = (None, error_only msg).
Proof.
  rewrite process_trigger_init. unfold loads. destruct (load f) as [|[]]; eauto.
Qed.

(** One file of an object's sub-directory. *)
Lemma child_profile (C : option counter) kind
    (process : string → xml_file → string → M (option component)) dir o f :
  (if parses f
   then ∃ b, process dir f o init
             = (Some b, match C with Some c => counted c [] | None => init end)
   else ∃ e, process dir f o init = (None, error_only (error_message kind dir (xf_name f) e))) →
  length (kept (out (process dir f o))) = (if parses f then 1 else 0)
  ∧ relationships (eff (process dir f o)) = []
  ∧ (∀ c, count_of c (conversion_stats (eff (process dir f o)))
          = if parses f then match C with Some c' => bump c' c 0 | None => 0 end else 0)
  ∧ length (errors (conversion_stats (eff (process dir f o))))
    = (if parses f then 0 else 1).
Proof.
  unfold out, eff. destruct (parses f).
  - intros (b & ->). simpl. destruct C as [c'|]; simpl; repeat split; try done.
    + intros c. apply count_of_one.
    + intros c. apply count_of_initial.
  - intros (e & ->). simpl. repeat split; try done. intros c. by destruct c.
Qed.

Lemma field_ok dir f o :
  if parses f then ∃ b, process_field dir f o init = (Some b, counted Fields [])
  else ∃ e, process_field dir f o init
            = (None, error_only (error_message "field" dir (xf_name f) e)).
Proof. rewrite process_field_init. unfold parses. destruct (xf_parse f); eauto. Qed.

Lemma listview_ok dir f o :
  if parses f then ∃ b, process_listview dir f o init = (Some b, init)
  else ∃ e, process_listview dir f o init
            = (None, error_only (error_message "listview" dir (xf_name f) e)).
Proof. rewrite process_listview_init. unfold parses. destruct (xf_parse f); eauto. Qed.

Lemma weblink_ok dir f o :
  if parses f then ∃ b, process_weblink dir f o init = (Some b, init)
  else ∃ e, process_weblink dir f o init
            = (None, error_only (error_message "weblink" dir (xf_name f) e)).
Proof. rewrite process_weblink_init. unfold parses. destruct (xf_parse f); eauto. Qed.

(** A loop over the files of one sub-directory. *)
Lemma children_profile (C : option counter) kind dir oid o ty
    (process : string → xml_file → string → M (option component)) files :
  (∀ d f n, framed (process d f n)) →
  (∀ f, if parses f
        then ∃ b, process dir f o init
                  = (Some b, match C with Some c => counted c [] | None => init end)
        else ∃ e, process dir f o init
                  = (None, error_only (error_message kind dir (xf_name f) e))) →
  let pass := process_children dir oid o ty process files in
  length (out pass) = count parses files
  ∧ relationships (eff pass) = map (λ d, edge oid (c_id d) ty) (out pass)
  ∧ (∀ c, count_of c (conversion_stats (eff pass))
          = match C with Some c' => bump c' c 0 | None => 0 end * count parses files)
  ∧ length (errors (conversion_stats (eff pass))) = count (λ f, negb (parses f)) files.
Proof.
  intros Hframed Hok pass. unfold pass.
  assert (Hp := λ f, child_profile C kind process dir o f (Hok f)).
  split; [|split; [|split]].
  - rewrite out_process_children by done.
    induction files as [|f files IH]; [done|].
    simpl. rewrite length_app, IH, count_cons. by destruct (Hp f) as [-> _].
  - apply relationships_process_children; [done|]. intros f. by destruct (Hp f) as (_ & ? & _).
  - intros c. rewrite count_process_children by done.
    induction files as [|f files IH]; [unfold count; simpl; lia|].
    simpl. rewrite IH, count_cons. destruct (Hp f) as (_ & _ & -> & _).
    destruct (parses f); lia.
  - rewrite errors_process_children by done.
    induction files as [|f files IH]; [done|].
    simpl. rewrite length_app, IH, count_cons. destruct (Hp f) as (_ & _ & _ & ->).
    by destruct (parses f).
Qed.

(** *** One object directory *)

Lemma object_metadata_profile dir od :
  relationships (eff (object_metadata dir od)) = []
  ∧ (∀ c, count_of c (conversion_stats (eff (object_metadata dir od)))
          = bump Objects c 0 * count object_file_parses [od])
  ∧ length (errors (conversion_stats (eff (object_metadata dir od))))
    = count object_file_malformed [od]
  ∧ (object_file_parses od = false → out (object_metadata dir od) = empty_metadata).
Proof.
  unfold object_metadata, count, out, eff. simpl.
  unfold object_file_parses, object_file_malformed.
  destruct (od_object_file od) as [[e|root]|]; simpl; repeat split; try done;
    try (intros c; by destruct c).
Qed.

Lemma object_profile objects_dir od :
  let o := out (process_custom_object objects_dir od) in
  let e := eff (process_custom_object objects_dir od) in
  o_name o = od_name od
  ∧ o_id o = "object_" +:+ od_name od
  ∧ length (o_fields o) = count parses (od_fields od)
  ∧ length (o_listViews o) = count parses (od_listViews od)
  ∧ length (o_webLinks o) = count parses (od_webLinks od)
  ∧ (object_file_parses od = false → o_metadata o = empty_metadata)
  ∧ relationships e = structural_edges o
  ∧ (∀ c, count_of c (conversion_stats e)
          = bump Objects c 0 * count object_file_parses [od]
            + bump Fields c 0 * count parses (od_fields od))
  ∧ length (errors (conversion_stats e)) = malformed_in od.
Proof.
  unfold out, eff. rewrite process_custom_object_eq. cbn [fst snd].
  set (dir := path_join objects_dir (od_name od)).
  destruct (object_metadata_profile dir od) as (Mr & Mc & Me & Mo).
  destruct (children_profile (Some Fields) "field" (path_join dir "fields")
    ("object_" +:+ od_name od) (od_name od) "HAS_FIELD" process_field (od_fields od)
    framed_process_field (λ f, field_ok _ f _)) as (Fo & Fr & Fc & Fe).
  destruct (children_profile None "listview" (path_join dir "listViews")
    ("object_" +:+ od_name od) (od_name od) "HAS_LISTVIEW" process_listview
    (od_listViews od) framed_process_listview (λ f, listview_ok _ f _))
    as (Lo & Lr & Lc & Le).
  destruct (children_profile None "weblink" (path_join dir "webLinks")
    ("object_" +:+ od_name od) (od_name od) "HAS_WEBLINK" process_weblink
    (od_webLinks od) framed_process_weblink (λ f, weblink_ok _ f _))
    as (Wo & Wr & Wc & We).
  fold (fields_pass dir od) in Fo, Fr, Fc, Fe.
  fold (listViews_pass dir od) in Lo, Lr, Lc, Le.
  fold (webLinks_pass dir od) in Wo, Wr, Wc, We.
  simpl. repeat split; try done.
  - unfold structural_edges. simpl. by rewrite Mr, Fr, Lr, Wr.
  - intros c. rewrite !count_of_add, Mc, Fc, Lc, Wc. destruct c; simpl; lia.
  - rewrite !length_app, Me, Fe, Le, We. unfold malformed_in. lia.
Qed.

Lemma framed_object_body t od : framed (object_body t od).
Proof. unfold object_body. framed. Qed.

Lemma out_object_body t od :
  out (object_body t od)
  = Some (out (process_custom_object (path_join (source_dir t) "objects") od)).
Proof. unfold object_body. by rewrite out_bind by framed. Qed.

Lemma eff_object_body t od :
  eff (object_body t od)
  = eff (process_custom_object (path_join (source_dir t) "objects") od).
Proof.
  unfold object_body. rewrite eff_bind by framed.
  unfold eff at 2, ret. simpl. by rewrite app_state_init_r.
Qed.

Lemma out_objects_pass t :
  out (objects_pass t)
  = map (λ od, out (process_custom_object (path_join (source_dir t) "objects") od))
      (st_objects t).
Proof.
  unfold objects_pass. fold (object_body t).
  rewrite out_collect_flat by apply framed_object_body.
  induction (st_objects t) as [|od l IH]; [done|].
  simpl. by rewrite out_object_body, IH.
Qed.

Lemma relationships_objects_pass t :
  relationships (eff (objects_pass t)) = flat_map structural_edges (out (objects_pass t)).
Proof.
  rewrite out_objects_pass. unfold objects_pass. fold (object_body t).
  rewrite relationships_collect by apply framed_object_body.
  induction (st_objects t) as [|od l IH]; [done|].
  simpl. rewrite IH, eff_object_body.
  by destruct (object_profile (path_join (source_dir t) "objects") od)
    as (_ & _ & _ & _ & _ & _ & -> & _).
Qed.

Lemma count_objects_pass c t :
  count_of c (conversion_stats (eff (objects_pass t)))
  = bump Objects c 0 * count object_file_parses (st_objects t)
    + bump Fields c 0 * sum_list (map (λ od, count parses (od_fields od)) (st_objects t)).
Proof.
  unfold objects_pass. fold (object_body t).
  rewrite count_collect by apply framed_object_body.
  induction (st_objects t) as [|od l IH]; [unfold count; simpl; lia|].
  cbn [map sum_list sum_list_with]. rewrite IH, eff_object_body.
  destruct (object_profile (path_join (source_dir t) "objects") od)
    as (_ & _ & _ & _ & _ & _ & _ & -> & _).
  rewrite (count_cons object_file_parses od l), (count_cons object_file_parses od []).
  change (count object_file_parses []) with 0. unfold id. lia.
Qed.

Lemma errors_objects_pass t :
  length (errors (conversion_stats (eff (objects_pass t))))
  = sum_list (map malformed_in (st_objects t)).
Proof.
  unfold objects_pass. fold (object_body t).
  rewrite errors_collect by apply framed_object_body.
  induction (st_objects t) as [|od l IH]; [done|].
  simpl. rewrite length_app, IH, eff_object_body.
  by destruct (object_profile (path_join (source_dir t) "objects") od)
    as (_ & _ & _ & _ & _ & _ & _ & _ & ->).
Qed.

(** *** The edges of a run, read off its entities *)

Lemma relationships_pass {A B} (l : list A) (body : A → M (option B))
    (edges : B → list relationship) :
  (∀ x, framed (body x)) →
  (∀ x, relationships (eff (body x)) = flat_map edges (kept (out (body x)))) →
  relationships (eff (collect l body)) = flat_map edges (out (collect l body)).
Proof.
  intros Hb He. rewrite relationships_collect, out_collect_flat by done.
  induction l as [|x l IH]; [done|].
  simpl. by rewrite flat_map_app, He, IH.
Qed.

Lemma relationships_layouts_pass t :
  relationships (eff (layouts_pass t)) = flat_map layout_edges (out (layouts_pass t)).
Proof.
  apply relationships_pass; [intros; framed|]. intros f.
  unfold out, eff. rewrite process_layout_init.
  destruct (xf_parse f); simpl; [done|]. by rewrite app_nil_r.
Qed.

Lemma relationships_classes_pass t :
  relationships (eff (classes_pass t)) = flat_map class_edges (out (classes_pass t)).
Proof.
  apply relationships_pass; [intros; framed|]. intros f.
  unfold out, eff. rewrite process_apex_class_init.
  destruct (load f) as [e|[source_code metadata]]; [done|].
  cbv zeta. generalize (extract_comprehensive_dependencies source_code
                          (PyStr.stem (sf_name f)) "ApexClass"). intros d.
  unfold class_edges. cbn [fst snd kept flat_map k_id k_comprehensive_dependencies
                           relationships counted].
  by rewrite app_nil_r.
Qed.

Lemma relationships_triggers_pass t :
  relationships (eff (triggers_pass t)) = flat_map trigger_edges (out (triggers_pass t)).
Proof.
  apply relationships_pass; [intros; framed|]. intros f.
  unfold out, eff. rewrite process_trigger_init.
  destruct (load f) as [e|[source_code metadata]]; [done|].
  cbv zeta. generalize (extract_comprehensive_dependencies source_code
                          (PyStr.stem (sf_name f)) "ApexTrigger"). intros d.
  unfold trigger_edges.
  cbn [fst snd kept flat_map t_id t_comprehensive_dependencies t_source_code
       relationships counted].
  by rewrite app_nil_r.
Qed.

Lemma relationships_workflows_pass t :
  relationships (eff (workflows_pass t))
  = flat_map workflow_edges (out (workflows_pass t)).
Proof.
  apply relationships_pass; [intros; framed|]. intros f.
  unfold out, eff. rewrite process_workflow_init.
  by destruct (xf_parse f).
Qed.

Lemma relationships_of_run (t : source_tree) :
  relationships (run t).2 = edges_of (run t).1.
Proof.
  rewrite run_eq. cbn [fst snd].
  unfold final_state, edges_of. cbn [relationships app_state am_objects am_layouts
    am_classes am_triggers am_workflows].
  by rewrite relationships_objects_pass, relationships_layouts_pass,
    relationships_classes_pass, relationships_triggers_pass,
    relationships_workflows_pass.
Qed.

(** X1.  The edge list of a run is a function of the entities it returns:
    the structural edges of each object record, then the edges of each
    layout, class, trigger and workflow record, in the order of the
    records.  Nothing else is ever added, and the [relationships] entry of
    the result is the converter's list. *)
Theorem edges_of_a_run (t : source_tree) :
  relationships (run t).2 = edges_of (run t).1
  ∧ am_relationships (run t).1 = relationships (run t).2.
Proof.
  split; [apply relationships_of_run|].
  rewrite run_eq. reflexivity.
Qed.

(** *** Counters, entities and errors of a run *)

Lemma count_le {A} (p : A → bool) l : count p l ≤ length l.
Proof.
  induction l as [|x l IH]; [done|]. rewrite count_cons. simpl.
  destruct (p x); lia.
Qed.

Lemma count_final c t :
  count_of c (conversion_stats (final_state t))
  = count_of c (conversion_stats (eff (objects_pass t)))
    + count_of c (conversion_stats (eff (layouts_pass t)))
    + count_of c (conversion_stats (eff (classes_pass t)))
    + count_of c (conversion_stats (eff (triggers_pass t)))
    + count_of c (conversion_stats (eff (workflows_pass t))).
Proof. unfold final_state. simpl. rewrite !count_of_add. lia. Qed.

Lemma layouts_profile t :
  length (out (layouts_pass t)) = count parses (st_layouts t)
  ∧ (∀ c, count_of c (conversion_stats (eff (layouts_pass t)))
          = bump Layouts c 0 * count parses (st_layouts t))
  ∧ length (errors (conversion_stats (eff (layouts_pass t))))
    = count (λ f, negb (parses f)) (st_layouts t).
Proof. apply pass_profile; [intros; framed|]. intros f. apply layout_ok. Qed.

Lemma classes_profile t :
  length (out (classes_pass t)) = count loads (st_classes t)
  ∧ (∀ c, count_of c (conversion_stats (eff (classes_pass t)))
          = bump Classes c 0 * count loads (st_classes t))
  ∧ length (errors (conversion_stats (eff (classes_pass t))))
    = count (λ f, negb (loads f)) (st_classes t).
Proof. apply pass_profile; [intros; framed|]. intros f. apply class_ok. Qed.

Lemma triggers_profile t :
  length (out (triggers_pass t)) = count loads (st_triggers t)
  ∧ (∀ c, count_of c (conversion_stats (eff (triggers_pass t)))
          = bump Triggers c 0 * count loads (st_triggers t))
  ∧ length (errors (conversion_stats (eff (triggers_pass t))))
    = count (λ f, negb (loads f)) (st_triggers t).
Proof. apply pass_profile; [intros; framed|]. intros f. apply trigger_ok. Qed.

Lemma workflows_profile t :
  length (out (workflows_pass t)) = count parses (st_workflows t)
  ∧ (∀ c, count_of c (conversion_stats (eff (workflows_pass t)))
          = bump Workflows c 0 * count parses (st_workflows t))
  ∧ length (errors (conversion_stats (eff (workflows_pass t))))
    = count (λ f, negb (parses f)) (st_workflows t).
Proof. apply pass_profile; [intros; framed|]. intros f. apply workflow_ok. Qed.

Lemma fields_of_objects_pass t :
  sum_list (map (λ o, length (o_fields o)) (out (objects_pass t)))
  = sum_list (map (λ od, count parses (od_fields od)) (st_objects t)).
Proof.
  rewrite out_objects_pass. induction (st_objects t) as [|od l IH]; [done|].
  cbn [map sum_list sum_list_with]. rewrite IH. unfold id.
  by destruct (object_profile (path_join (source_dir t) "objects") od)
    as (_ & _ & -> & _).
Qed.

(** X2.  After a run, every counter of the statistics equals the number of
    entities of its kind in the result: layouts, classes, triggers and
    workflows by the length of their lists, fields by the total number of
    field records under the objects.  [objects_processed] counts the
    object directories whose object file exists and parses, which can be
    fewer than the object records returned. *)
Theorem statistics_count_the_entities (t : source_tree) :
  let md := (run t).1 in
  let s := conversion_stats (run t).2 in
  objects_processed s = count object_file_parses (st_objects t)
  ∧ objects_processed s ≤ length (am_objects md)
  ∧ fields_processed s = sum_list (map (λ o, length (o_fields o)) (am_objects md))
  ∧ layouts_processed s = length (am_layouts md)
  ∧ classes_processed s = length (am_classes md)
  ∧ triggers_processed s = length (am_triggers md)
  ∧ workflows_processed s = length (am_workflows md).
Proof.
  rewrite run_eq. cbn [fst snd am_objects am_layouts am_classes am_triggers
                       am_workflows].
  destruct (layouts_profile t) as (Lo & Lc & _).
  destruct (classes_profile t) as (Co & Cc & _).
  destruct (triggers_profile t) as (To & Tc & _).
  destruct (workflows_profile t) as (Wo & Wc & _).
  assert (Hc : ∀ c, count_of c (conversion_stats (final_state t))
    = bump Objects c 0 * count object_file_parses (st_objects t)
      + bump Fields c 0 * sum_list (map (λ od, count parses (od_fields od)) (st_objects t))
      + bump Layouts c 0 * count parses (st_layouts t)
      + bump Classes c 0 * count loads (st_classes t)
      + bump Triggers c 0 * count loads (st_triggers t)
      + bump Workflows c 0 * count parses (st_workflows t)).
  { intros c. rewrite count_final, count_objects_pass, Lc, Cc, Tc, Wc.
    destruct c; cbn [bump]; lia. }
  rewrite fields_of_objects_pass, Lo, Co, To, Wo.
  pose proof (Hc Objects) as HO. pose proof (Hc Fields) as HF.
  pose proof (Hc Layouts) as HL. pose proof (Hc Classes) as HC.
  pose proof (Hc Triggers) as HT. pose proof (Hc Workflows) as HW.
  cbn [count_of bump] in HO, HF, HL, HC, HT, HW.
  repeat split; try lia.
  rewrite out_objects_pass, length_map.
  pose proof (count_le object_file_parses (st_objects t)). lia.
Qed.

(** X3.  Every object directory yields an object record, whether or not
    its object file exists or parses (the metadata is then the empty
    dictionary), and the record holds one entry per well-formed field,
    list view and web link file; a layout, class, trigger or workflow
    file yields a record exactly when it is read and parsed without
    error. *)
Theorem entities_follow_the_files (t : source_tree) :
  let md := (run t).1 in
  Forall2 (λ od o,
      o_name o = od_name od
      ∧ o_id o = "object_" +:+ od_name od
      ∧ length (o_fields o) = count parses (od_fields od)
      ∧ length (o_listViews o) = count parses (od_listViews od)
      ∧ length (o_webLinks o) = count parses (od_webLinks od)
      ∧ (object_file_parses od = false → o_metadata o = empty_metadata))
    (st_objects t) (am_objects md)
  ∧ length (am_layouts md) = count parses (st_layouts t)
  ∧ length (am_classes md) = count loads (st_classes t)
  ∧ length (am_triggers md) = count loads (st_triggers t)
  ∧ length (am_workflows md) = count parses (st_workflows t).
Proof.
  rewrite run_eq. cbn [fst snd am_objects am_layouts am_classes am_triggers
                       am_workflows].
  destruct (layouts_profile t) as (-> & _).
  destruct (classes_profile t) as (-> & _).
  destruct (triggers_profile t) as (-> & _).
  destruct (workflows_profile t) as (-> & _).
  split; [|done]. rewrite out_objects_pass.
  induction (st_objects t) as [|od l IH]; constructor; [|done].
  destruct (object_profile (path_join (source_dir t) "objects") od)
    as (? & ? & ? & ? & ? & ? & _). done.
Qed.

(** X4.  The errors list of a run has exactly one message per file on
    which a parser or a read raised: malformed object, field, list view,
    web link, layout and workflow files, and class and trigger files whose
    source or descriptor cannot be loaded. *)
Theorem one_error_per_malformed_file (t : source_tree) :
  length (errors (conversion_stats (run t).2)) = malformed_files t.
Proof.
  rewrite run_eq. cbn [snd]. unfold final_state, malformed_files.
  cbn [app_state conversion_stats add_stats errors]. rewrite !length_app.
  rewrite errors_objects_pass.
  destruct (layouts_profile t) as (_ & _ & ->).
  destruct (classes_profile t) as (_ & _ & ->).
  destruct (triggers_profile t) as (_ & _ & ->).
  destruct (workflows_profile t) as (_ & _ & ->). lia.
Qed.

(** X5.  [convert_all_metadata] on a converter that already holds edges,
    counts and errors keeps them all: the entities are those of a fresh
    run, the new edges and errors follow the old ones, the counters add
    up, and the returned relationships include the old edges.  Converting
    the same tree twice with one converter therefore doubles every edge
    and every count. *)
Theorem convert_accumulates (t : source_tree) (st : converter) :
  let fresh := run t in
  let again := convert_all_metadata t st in
  am_objects again.1 = am_objects fresh.1
  ∧ am_layouts again.1 = am_layouts fresh.1
  ∧ am_classes again.1 = am_classes fresh.1
  ∧ am_triggers again.1 = am_triggers fresh.1
  ∧ am_workflows again.1 = am_workflows fresh.1
  ∧ am_relationships again.1 = relationships st ++ relationships fresh.2
  ∧ relationships again.2 = relationships st ++ relationships fresh.2
  ∧ errors (conversion_stats again.2)
    = errors (conversion_stats st) ++ errors (conversion_stats fresh.2)
  ∧ ∀ c, count_of c (conversion_stats again.2)
         = count_of c (conversion_stats st) + count_of c (conversion_stats fresh.2).
Proof.
  intros fresh again. unfold fresh. rewrite run_eq. cbn [fst snd].
  assert (Hagain : again
    = ({| am_objects := out (objects_pass t); am_layouts := out (layouts_pass t);
          am_classes := out (classes_pass t); am_triggers := out (triggers_pass t);
          am_workflows := out (workflows_pass t);
          am_relationships := relationships (app_state st (final_state t)) |},
       app_state st (final_state t))).
  { unfold again, convert_all_metadata. cbv zeta.
    fold (objects_pass t) (layouts_pass t) (classes_pass t) (triggers_pass t)
         (workflows_pass t).
    unfold bind.
    rewrite (framed_eq (objects_pass t)) by (unfold objects_pass; framed).
    rewrite (framed_eq (layouts_pass t)) by (unfold layouts_pass; framed).
    rewrite (framed_eq (classes_pass t)) by (unfold classes_pass; framed).
    rewrite (framed_eq (triggers_pass t)) by (unfold triggers_pass; framed).
    rewrite (framed_eq (workflows_pass t)) by (unfold workflows_pass; framed).
    unfold final_state. by rewrite !app_state_assoc. }
  rewrite Hagain. cbn [fst snd am_objects am_layouts am_classes am_triggers
                       am_workflows am_relationships].
  repeat split. intros c. apply count_of_add.
Qed.

(** ** What the edges of a run look like *)

Section ForallFacts.
Context {A : Type} (P : relationship → Prop).

Lemma Forall_map_all (f : A → relationship) l :
  (∀ x, P (f x)) → Forall P (map f l).
Proof. intros H. induction l; simpl; constructor; auto. Qed.

Lemma Forall_flat_map_all (f : A → list relationship) l :
  (∀ x, Forall P (f x)) → Forall P (flat_map f l).
Proof.
  intros H. induction l; simpl; [constructor|]. apply Forall_app. auto.
Qed.

Lemma Forall_flat_map_in (f : A → list relationship) l :
  (∀ x, x ∈ l → Forall P (f x)) → Forall P (flat_map f l).
Proof.
  intros H. induction l as [|x l IH]; simpl; [constructor|].
  apply Forall_app. split; [apply H; by left|].
  apply IH. intros y Hy. apply H. by right.
Qed.

End ForallFacts.

Lemma Forall_dotted (P : relationship → Prop) entry mk :
  (∀ a b, P (mk a b)) → Forall P (dotted entry mk).
Proof.
  intros H. unfold dotted. destruct (PyStr.split1 entry ".") as [[a b]|];
    repeat constructor; auto.
Qed.

(** Every block of every synthesizer is a map or a flat map over a
    category; a property of all edges is checked block by block. *)
Ltac all_edges :=
  repeat (rewrite Forall_app || rewrite Forall_cons); repeat split;
  repeat first
    [ apply Forall_nil_2
    | apply Forall_map_all; intros
    | apply Forall_flat_map_all; intros
    | apply Forall_dotted; intros
    | apply Forall_cons; split
    | progress case_match ];
  try reflexivity; try (by left); try (by right).

Lemma class_relationships_shape id d :
  Forall (λ r, r_from r = id ∧ known_type r = true ∧ is_Some (r_details r))
    (class_relationships id d).
Proof. unfold class_relationships. all_edges; by repeat split. Qed.

Lemma trigger_relationships_shape id d o :
  Forall (λ r, r_from r = id ∧ known_type r = true ∧ is_Some (r_details r))
    (trigger_relationships id d o).
Proof. unfold trigger_relationships. all_edges; by repeat split. Qed.

Lemma layout_relationships_shape id o fields rls :
  Forall (λ r, touches id r ∧ known_type r = true ∧ is_Some (r_details r))
    (layout_relationships id o fields rls).
Proof.
  unfold layout_relationships, related_list_relationships, touches.
  all_edges; repeat split; auto.
Qed.

Lemma has_trigger_edge_shape id o evs :
  Forall (λ r, touches id r ∧ known_type r = true) (has_trigger_edge id o evs).
Proof. unfold has_trigger_edge, touches. all_edges; repeat split; auto. Qed.

Lemma structural_edges_shape o :
  Forall (λ r, touches (o_id o) r ∧ known_type r = true) (structural_edges o).
Proof. unfold structural_edges, touches. all_edges; repeat split; auto. Qed.

Lemma anchored_in {B} (f : B → string) (l : list B) x r :
  x ∈ l → touches (f x) r → r_from r ∈ map f l ∨ r_to r ∈ map f l.
Proof.
  intros Hx [Hr|Hr]; rewrite Hr; [left|right];
    apply list_elem_of_In, in_map, list_elem_of_In, Hx.
Qed.

Lemma entity_ids_spec md x :
  x ∈ entity_ids md
  ↔ x ∈ map o_id (am_objects md) ∨ x ∈ map l_id (am_layouts md)
    ∨ x ∈ map k_id (am_classes md) ∨ x ∈ map t_id (am_triggers md)
    ∨ x ∈ map c_id (am_workflows md).
Proof. unfold entity_ids. by rewrite !elem_of_app. Qed.

(** X6.  Every edge of a run has one of the twenty-two types the converter
    knows, and one of its endpoints is the id of a record returned by that
    run (the object, layout, class, trigger or workflow that proposed it);
    the other endpoint may name a component that was never materialized. *)
Theorem edges_are_typed_and_anchored (t : source_tree) :
  Forall (λ r, known_type r = true
               ∧ (r_from r ∈ entity_ids (run t).1 ∨ r_to r ∈ entity_ids (run t).1))
    (relationships (run t).2).
Proof.
  rewrite relationships_of_run.
  generalize (run t).1. intros md. unfold edges_of.
  rewrite !Forall_app. repeat split; apply Forall_flat_map_in; intros x Hx.
  - eapply Forall_impl; [apply structural_edges_shape|].
    intros r [Ht Hk]. split; [done|]. rewrite !entity_ids_spec.
    destruct (anchored_in o_id _ _ _ Hx Ht); tauto.
  - eapply Forall_impl; [apply layout_relationships_shape|].
    intros r (Ht & Hk & _). split; [done|]. rewrite !entity_ids_spec.
    destruct (anchored_in l_id _ _ _ Hx Ht); tauto.
  - eapply Forall_impl; [apply class_relationships_shape|].
    intros r (Ht & Hk & _). split; [done|]. rewrite !entity_ids_spec.
    destruct (anchored_in k_id _ x r Hx (or_introl Ht)); tauto.
  - unfold trigger_edges. apply Forall_app. split.
    + eapply Forall_impl; [apply has_trigger_edge_shape|].
      intros r (Ht & Hk). split; [done|]. rewrite !entity_ids_spec.
      destruct (anchored_in t_id _ _ _ Hx Ht); tauto.
    + eapply Forall_impl; [apply trigger_relationships_shape|].
      intros r (Ht & Hk & _). split; [done|]. rewrite !entity_ids_spec.
      destruct (anchored_in t_id _ x r Hx (or_introl Ht)); tauto.
  - unfold workflow_edges. apply Forall_cons. split; [|apply Forall_nil_2].
    split; [reflexivity|]. right. rewrite entity_ids_spec. do 4 right. simpl.
    apply list_elem_of_In, in_map, list_elem_of_In, Hx.
Qed.

(** ** Normalized definitions: [xml_to_dict] *)

Section DictFacts.
Context {V : Type}.
Implicit Types (d : list (string * V)) (k : string) (v : V).

Lemma get_set_eq d k v : Dict.get (Dict.set d k v) k = Some v.
Proof.
  induction d as [|[k' v'] d IH]; simpl; [by rewrite String.eqb_refl|].
  destruct (String.eqb_spec k' k) as [->|Hne]; simpl.
  - by rewrite String.eqb_refl.
  - by destruct (String.eqb_spec k' k).
Qed.

Lemma get_set_ne d k k' v : k ≠ k' → Dict.get (Dict.set d k v) k' = Dict.get d k'.
Proof.
  intros Hne. induction d as [|[k0 v0] d IH]; simpl.
  - by destruct (String.eqb_spec k k').
  - destruct (String.eqb_spec k0 k) as [->|Hne0]; simpl.
    + by destruct (String.eqb_spec k k').
    + by rewrite IH.
Qed.

Lemma get_None d k : Dict.get d k = None ↔ k ∉ map fst d.
Proof.
  induction d as [|[k' v'] d IH]; simpl.
  - split; [intros _ []%elem_of_nil|done].
  - rewrite not_elem_of_cons. destruct (String.eqb_spec k' k) as [->|Hne].
    + split; [done|]. by intros [[] _].
    + rewrite IH. split; [by split|by intros []].
Qed.

Lemma keys_set d k v :
  map fst (Dict.set d k v)
  = match Dict.get d k with Some _ => map fst d | None => map fst d ++ [k] end.
Proof.
  induction d as [|[k' v'] d IH]; simpl; [done|].
  destruct (String.eqb_spec k' k) as [->|Hne]; simpl; [done|].
  rewrite IH. by destruct (Dict.get d k).
Qed.

Lemma NoDup_keys_set d k v : NoDup (map fst d) → NoDup (map fst (Dict.set d k v)).
Proof.
  intros Hd. rewrite keys_set. destruct (Dict.get d k) eqn:E; [done|].
  apply NoDup_app. split; [done|]. split; [|apply NoDup_singleton].
  intros x Hx ->%list_elem_of_singleton. by apply get_None in E.
Qed.

Lemma NoDup_keys_update d other :
  NoDup (map fst d) → NoDup (map fst (Dict.update d other)).
Proof.
  unfold Dict.update. revert d. induction other as [|[k v] other IH]; intros d Hd;
    simpl; [done|]. by apply IH, NoDup_keys_set.
Qed.

(** [d.update(other)] reads as [other] where [other] has the key. *)
Lemma get_update d other k :
  NoDup (map fst other) →
  Dict.get (Dict.update d other) k
  = match Dict.get other k with Some v => Some v | None => Dict.get d k end.
Proof.
  unfold Dict.update. revert d. induction other as [|[k' v'] other IH]; intros d Hnd;
    simpl; [done|].
  apply NoDup_cons in Hnd as [Hk' Hnd]. rewrite IH by done.
  destruct (String.eqb_spec k' k) as [->|Hne].
  - simpl in Hk'. apply get_None in Hk'. by rewrite Hk', get_set_eq.
  - by rewrite get_set_ne.
Qed.

End DictFacts.

(** The loop over the children, as a fold. *)
Lemma xml_to_dict_eq tag text attrib cs :
  xml_to_dict (Xml.Element tag text attrib cs)
  = let stripped := match text with Some t => PyStr.strip t | None => "" end in
    if negb (stripped =? "")%string && match cs with [] => true | _ => false end
    then VStr stripped
    else match Dict.update (own_entries text attrib) (children_of cs) with
         | [] => VNone
         | result => VDict result
         end.
Proof.
  cbn [xml_to_dict]. cbv zeta.
  assert (Hloop : ∀ l acc,
    (fix loop (l : list Xml.element) (children : list (string * value)) :=
       match l with
       | [] => children
       | child :: l' =>
           loop l' (add_child children (remove_namespace (Xml.tag child))
                      (xml_to_dict child))
       end) l acc
    = fold_left (λ children child,
        add_child children (remove_namespace (Xml.tag child)) (xml_to_dict child))
        l acc).
  { induction l as [|c l IH]; intros acc; [done|]. simpl. apply IH. }
  rewrite Hloop. reflexivity.
Qed.

(** [xml_to_dict] never yields a list, so the test for a list in the loop
    over the children recognizes the collapsed siblings and nothing else. *)
Lemma xml_to_dict_not_list e l : xml_to_dict e ≠ VList l.
Proof.
  destruct e as [tag text attrib cs]. rewrite xml_to_dict_eq. cbv zeta.
  destruct (_ && _); [done|]. by destruct (Dict.update _ _).
Qed.

Lemma children_of_snoc cs c :
  children_of (cs ++ [c])
  = add_child (children_of cs) (remove_namespace (Xml.tag c)) (xml_to_dict c).
Proof. unfold children_of. by rewrite fold_left_app. Qed.

Lemma siblings_snoc k cs c :
  siblings k (cs ++ [c])
  = siblings k cs ++ (if (remove_namespace (Xml.tag c) =? k)%string then [c] else []).
Proof. unfold siblings. rewrite List.filter_app. simpl. by destruct (_ =? _)%string. Qed.

Lemma get_add_child_ne d k k' v :
  k ≠ k' → Dict.get (add_child d k v) k' = Dict.get d k'.
Proof.
  intros Hne. unfold add_child.
  destruct (Dict.get d k) as [[]|]; by rewrite get_set_ne.
Qed.

Lemma NoDup_keys_add_child d k v :
  NoDup (map fst d) → NoDup (map fst (add_child d k v)).
Proof.
  intros Hd. unfold add_child.
  destruct (Dict.get d k) as [[]|]; by apply NoDup_keys_set.
Qed.

Lemma NoDup_keys_children_of cs : NoDup (map fst (children_of cs)).
Proof.
  induction cs as [|c cs IH] using rev_ind; [constructor|].
  rewrite children_of_snoc. by apply NoDup_keys_add_child.
Qed.

Lemma children_of_get cs k :
  Dict.get (children_of cs) k = collapsed (siblings k cs).
Proof.
  induction cs as [|c cs IH] using rev_ind; [done|].
  rewrite children_of_snoc, siblings_snoc.
  destruct (String.eqb_spec (remove_namespace (Xml.tag c)) k) as [Heq|Hne].
  - rewrite Heq. unfold add_child. rewrite IH.
    destruct (siblings k cs) as [|c0 [|c1 l]]; simpl.
    + apply get_set_eq.
    + pose proof (xml_to_dict_not_list c0).
      destruct (xml_to_dict c0) eqn:E; try (by rewrite get_set_eq). congruence.
    + rewrite get_set_eq. do 2 f_equal. simpl. by rewrite map_app.
  - rewrite app_nil_r. by rewrite get_add_child_ne.
Qed.

Lemma NoDup_own_entries text attrib : NoDup (map fst (own_entries text attrib)).
Proof.
  unfold own_entries. cbv zeta.
  destruct (negb _); destruct attrib; simpl; repeat constructor;
    by intros ?%elem_of_nil || (intros [=]%list_elem_of_singleton) || idtac.
Qed.

(** X7.  Children that share a tag (after the namespace is removed) are
    stored under that tag as the list of their values in document order;
    a tag that occurs once keeps its child's value as it is.  The keys of
    the resulting dictionary are pairwise distinct. *)
Theorem repeated_siblings_collapse (tag : string) (text : option string)
    (attrib : list (string * string)) (cs : list Xml.element) (k : string) :
  siblings k cs ≠ [] →
  ∃ d, xml_to_dict (Xml.Element tag text attrib cs) = VDict d
       ∧ NoDup (map fst d)
       ∧ Dict.get d k
         = Some (match siblings k cs with
                 | [child] => xml_to_dict child
                 | l => VList (map xml_to_dict l)
                 end).
Proof.
  intros Hk. rewrite xml_to_dict_eq. cbv zeta.
  set (v := match siblings k cs with
            | [child] => xml_to_dict child
            | l => VList (map xml_to_dict l)
            end).
  assert (Hv : collapsed (siblings k cs) = Some v).
  { subst v. by destruct (siblings k cs) as [|? [|]]. }
  assert (Hcs : cs ≠ []) by (intros ->; by apply Hk).
  clearbody v.
  assert (Hget : Dict.get (Dict.update (own_entries text attrib) (children_of cs)) k
                 = Some v).
  { rewrite get_update by apply NoDup_keys_children_of.
    by rewrite children_of_get, Hv. }
  assert (Hnd := NoDup_keys_update (own_entries text attrib) (children_of cs)
                   (NoDup_own_entries text attrib)).
  destruct cs as [|c cs]; [done|]. rewrite andb_false_r.
  destruct (Dict.update _ _) as [|kv d] eqn:E; [discriminate Hget|].
  by exists (kv :: d).
Qed.

Lemma repeated_siblings_collapse_witness :
  let a := Xml.Element "{urn:x}columns" (Some "NAME") [] [] in
  let b := Xml.Element "label" (Some "All") [] [] in
  let c := Xml.Element "columns" (Some "PHONE") [] [] in
  siblings "columns" [a; b; c] ≠ []
  ∧ ∃ d, xml_to_dict (Xml.Element "ListView" None [] [a; b; c]) = VDict d
         ∧ NoDup (map fst d)
         ∧ Dict.get d "columns" = Some (VList [VStr "NAME"; VStr "PHONE"]).
Proof.
  intros a b c.
  assert (H : siblings "columns" [a; b; c] ≠ []) by (vm_compute; discriminate).
  split; [exact H|].
  exact (repeated_siblings_collapse "ListView" None [] [a; b; c] "columns" H).
Defined.

Lemma set_not_nil {V} (d : list (string * V)) k v : Dict.set d k v ≠ [].
Proof. destruct d as [|[k' v'] d]; simpl; [done|]. by destruct (_ =? _)%string. Qed.

Lemma update_nil {V} (d other : list (string * V)) :
  Dict.update d other = [] → d = [] ∧ other = [].
Proof.
  unfold Dict.update. destruct other as [|[k v] other] using rev_ind; [done|].
  rewrite fold_left_app. simpl. by intros ?%set_not_nil.
Qed.

Lemma children_of_nil cs : children_of cs = [] → cs = [].
Proof.
  destruct cs as [|c cs _] using rev_ind; [done|].
  rewrite children_of_snoc. unfold add_child.
  destruct (Dict.get _ _) as [[]|]; by intros ?%set_not_nil.
Qed.

Lemma own_entries_nil text attrib :
  own_entries text attrib = [] →
  match text with Some t => PyStr.strip t | None => "" end = "" ∧ attrib = [].
Proof.
  unfold own_entries. cbv zeta.
  destruct (String.eqb_spec (match text with Some t => PyStr.strip t | None => "" end) "")
    as [->|Hne]; simpl; by destruct attrib.
Qed.

(** X8.  The normalized value of an element is never a list.  It is the
    stripped text exactly for a childless element whose text is not blank
    (its attributes are then dropped), [None] exactly for a childless
    element without attributes whose text is blank or absent, and
    otherwise a dictionary that is not empty and has pairwise distinct
    keys. *)
Theorem normalized_value_shape (tag : string) (text : option string)
    (attrib : list (string * string)) (cs : list Xml.element) :
  let e := Xml.Element tag text attrib cs in
  match xml_to_dict e with
  | VStr s => s = Xml.stripped_text e ∧ s ≠ "" ∧ cs = []
  | VNone => Xml.stripped_text e = "" ∧ attrib = [] ∧ cs = []
  | VDict d => d ≠ [] ∧ NoDup (map fst d)
               ∧ (cs ≠ [] ∨ (Xml.stripped_text e = "" ∧ attrib ≠ []))
  | VList _ => False
  end.
Proof.
  intros e. subst e. rewrite xml_to_dict_eq. cbv zeta.
  unfold Xml.stripped_text. cbn [Xml.text].
  set (stripped := match text with Some t => PyStr.strip t | None => "" end).
  assert (Hnd := NoDup_keys_update (own_entries text attrib) (children_of cs)
                   (NoDup_own_entries text attrib)).
  destruct (String.eqb_spec stripped "") as [Hs|Hs]; simpl.
  - destruct (Dict.update _ _) as [|kv d] eqn:E.
    + apply update_nil in E as [[_ ->]%own_entries_nil ->%children_of_nil]. done.
    + split; [done|]. split; [done|].
      destruct cs as [|c cs]; [right|by left]. split; [done|].
      intros ->. unfold own_entries in E. cbv zeta in E. fold stripped in E.
      by rewrite Hs in E.
  - destruct cs as [|c cs]; simpl; [done|].
    destruct (Dict.update _ _) as [|kv d] eqn:E.
    + by apply update_nil in E as [_ ?%children_of_nil].
    + split; [done|]. split; [done|]. by left.
Qed.

(** X9.  Impact analysis reports every edge that touches the component
    exactly once: the dependencies are as many as the outgoing edges that
    [analyze_component_connectivity] counts, and the dependents are the
    incoming edges it counts less the edges from the component to itself. *)
Theorem impact_against_connectivity (rels : list relationship) (x : string) :
  let report := generate_impact_analysis rels x in
  length report.2 = outgoing rels x
  ∧ length report.1 + length (List.filter (is_loop x) rels) = incoming rels x
  ∧ length report.1 + length report.2
    = length (List.filter (touches_component x) rels).
Proof.
  intros report. subst report. rewrite generate_impact_analysis_spec. cbn [fst snd].
  rewrite !length_map. unfold outgoing, incoming.
  induction rels as [|rel rels (IH1 & IH2 & IH3)]; [done|]. simpl.
  unfold is_source, is_target_only, is_loop, touches_component in *.
  destruct (r_from rel =? x)%string, (r_to rel =? x)%string; simpl; lia.
Qed.

Lemma Counter_snoc xs x : Counter (xs ++ [x]) = counter_add (Counter xs) x.
Proof. unfold Counter. by rewrite fold_left_app. Qed.

Lemma sum_set (c : list (string * nat)) k v :
  sum_list (map snd (Dict.set c k v)) + default 0 (Dict.get c k)
  = sum_list (map snd c) + v.
Proof.
  induction c as [|[k' v'] c IH]; simpl; [lia|].
  destruct (k' =? k)%string; simpl; lia.
Qed.

Lemma occurrences_snoc (ty : string) (xs : list string) (x : string) :
  length (List.filter (String.eqb ty) (xs ++ [x]))
  = length (List.filter (String.eqb ty) xs) + (if (ty =? x)%string then 1 else 0).
Proof.
  rewrite List.filter_app, length_app. simpl. by destruct (ty =? x)%string.
Qed.

Lemma Counter_get xs ty :
  Dict.get (Counter xs) ty
  = match length (List.filter (String.eqb ty) xs) with
    | 0 => None
    | n => Some n
    end.
Proof.
  induction xs as [|x xs IH] using rev_ind; [done|].
  rewrite Counter_snoc, occurrences_snoc. unfold counter_add.
  destruct (String.eqb_spec ty x) as [->|Hne].
  - rewrite get_set_eq, IH.
    destruct (length (List.filter (String.eqb x) xs)) as [|n]; simpl;
      [reflexivity|]. by rewrite Nat.add_1_r.
  - rewrite get_set_ne by done. rewrite IH. by rewrite Nat.add_0_r.
Qed.

Lemma Counter_sum xs : sum_list (map snd (Counter xs)) = length xs.
Proof.
  induction xs as [|x xs IH] using rev_ind; [done|].
  rewrite Counter_snoc, length_app. simpl. unfold counter_add.
  pose proof (sum_set (Counter xs) x (default 0 (Dict.get (Counter xs) x) + 1)). lia.
Qed.

Lemma Counter_NoDup xs : NoDup (map fst (Counter xs)).
Proof.
  induction xs as [|x xs IH] using rev_ind; [constructor|].
  rewrite Counter_snoc. by apply NoDup_keys_set.
Qed.

Lemma filter_type_map ty rels :
  length (List.filter (String.eqb ty) (map r_type rels)) = edges_of_type ty rels.
Proof.
  unfold edges_of_type, has_type. induction rels as [|rel rels IH]; [done|].
  simpl. rewrite (String.eqb_sym ty). destruct (r_type rel =? ty)%string; simpl; lia.
Qed.

(** X10.  The counter of relationship types has one entry for each type
    that occurs, holding the number of edges of that type; a type without
    an edge has no entry, and the counts add up to the number of edges. *)
Theorem relationship_types_are_counted (rels : list relationship) (ty : string) :
  let rel_types := analyze_relationship_types rels in
  NoDup (map fst rel_types)
  ∧ Dict.get rel_types ty
    = (if edges_of_type ty rels =? 0 then None else Some (edges_of_type ty rels))
  ∧ sum_list (map snd rel_types) = length rels.
Proof.
  intros rel_types. subst rel_types. unfold analyze_relationship_types.
  split; [apply Counter_NoDup|]. split.
  - rewrite Counter_get, filter_type_map. by destruct (edges_of_type ty rels).
  - by rewrite Counter_sum, length_map.
Qed.

Lemma analyze_class_dependencies_snoc rels rel :
  analyze_class_dependencies (rels ++ [rel])
  = class_dependencies_step (analyze_class_dependencies rels) rel.
Proof. unfold analyze_class_dependencies. by rewrite fold_left_app. Qed.

Lemma dd_append_get d k v k' :
  Dict.get (dd_append d k v) k'
  = if (k =? k')%string then Some (default [] (Dict.get d k) ++ [v]) else Dict.get d k'.
Proof.
  unfold dd_append. destruct (String.eqb_spec k k') as [->|Hne].
  - apply get_set_eq.
  - by apply get_set_ne.
Qed.

Lemma entries_of_snoc ty val rels rel k :
  entries_of ty val (rels ++ [rel]) k
  = entries_of ty val rels k
    ++ (if has_type ty rel && (class_name_of (r_from rel) =? k)%string
        then [val rel] else []).
Proof.
  unfold entries_of. rewrite List.filter_app, map_app. simpl.
  by destruct (_ && _).
Qed.

Lemma entry_snoc l v : Some (default [] (entry l) ++ [v]) = entry (l ++ [v]).
Proof. destruct l; [done|]. simpl. by destruct (l ++ [v]) eqn:E. Qed.

(** The two dictionaries group the edges by the name of their source. *)
Lemma analyze_class_dependencies_spec rels class_deps method_calls :
  analyze_class_dependencies rels = Some (class_deps, method_calls) →
  ∀ k,
    Dict.get class_deps k
    = entry (entries_of "DEPENDS_ON_CLASS" (λ r, class_name_of (r_to r)) rels k)
    ∧ Dict.get method_calls k
      = entry (entries_of "CALLS_METHOD"
                 (λ r, PyStr.replace (default "" (r_details r)) "Calls method " "")
                 rels k).
Proof.
  revert class_deps method_calls.
  induction rels as [|rel rels IH] using rev_ind; intros class_deps method_calls.
  - intros [= <- <-]. done.
  - rewrite analyze_class_dependencies_snoc.
    destruct (analyze_class_dependencies rels) as [[cd mc]|]; [|done].
    specialize (IH cd mc eq_refl). unfold class_dependencies_step.
    intros Hstep k. destruct (IH k) as [IHc IHm].
    rewrite !entries_of_snoc. unfold has_type.
    destruct (String.eqb_spec (r_type rel) "DEPENDS_ON_CLASS") as [Hty|Hty].
    + injection Hstep as <- <-. rewrite Hty. simpl.
      rewrite dd_append_get. fold (class_name_of (r_from rel)).
      rewrite app_nil_r. split; [|done].
      destruct (String.eqb_spec (class_name_of (r_from rel)) k) as [->|Hne].
      * rewrite IHc. apply entry_snoc.
      * by rewrite app_nil_r.
    + destruct (String.eqb_spec (r_type rel) "CALLS_METHOD") as [Hty'|Hty'].
      * destruct (r_details rel) as [details|] eqn:Hd; [|done].
        injection Hstep as <- <-. simpl.
        rewrite dd_append_get. fold (class_name_of (r_from rel)).
        rewrite app_nil_r. split; [done|].
        destruct (String.eqb_spec (class_name_of (r_from rel)) k) as [->|Hne].
        -- rewrite IHm. apply entry_snoc.
        -- by rewrite app_nil_r.
      * injection Hstep as <- <-. simpl. by rewrite !app_nil_r.
Qed.

(** It raises only on a CALLS_METHOD edge without details. *)
Lemma analyze_class_dependencies_total rels :
  Forall detailed rels → is_Some (analyze_class_dependencies rels).
Proof.
  induction rels as [|rel rels IH] using rev_ind; [by eexists|].
  intros [Hrels Hrel]%Forall_app. apply Forall_cons in Hrel as [Hrel _].
  rewrite analyze_class_dependencies_snoc.
  destruct (IH Hrels) as [[cd mc] ->]. unfold class_dependencies_step.
  destruct (_ =? _)%string; [by eexists|].
  destruct (String.eqb_spec (r_type rel) "CALLS_METHOD") as [Hty|_]; [|by eexists].
  destruct Hrel as [[details ->]|Hrel]; [by eexists|].
  rewrite Hty in Hrel.
  repeat (apply elem_of_cons in Hrel as [Hrel|Hrel]; [discriminate Hrel|]).
  by apply elem_of_nil in Hrel.
Qed.

Lemma detailed_impl (P : relationship → Prop) l :
  (∀ r, P r → is_Some (r_details r)) → Forall P l → Forall detailed l.
Proof.
  intros H HP. eapply Forall_impl; [exact HP|]. intros r Hr. left. by apply H.
Qed.

Lemma run_edges_detailed t : Forall detailed (relationships (run t).2).
Proof.
  rewrite relationships_of_run.
  generalize (run t).1. intros md. unfold edges_of.
  rewrite !Forall_app. repeat split; apply Forall_flat_map_all; intros x.
  - unfold structural_edges, detailed. all_edges; right; repeat constructor.
  - eapply detailed_impl; [|apply layout_relationships_shape]. by intros r (_ & _ & H).
  - eapply detailed_impl; [|apply class_relationships_shape]. by intros r (_ & _ & H).
  - unfold trigger_edges. apply Forall_app. split.
    + unfold has_trigger_edge, detailed. all_edges; left; by eexists.
    + eapply detailed_impl; [|apply trigger_relationships_shape]. by intros r (_ & _ & H).
  - unfold workflow_edges, detailed. all_edges; right; repeat constructor.
Qed.

(** X11.  [analyze_class_dependencies] indexes the details of an edge
    without a default, which raises on an edge that has none; on the edges
    of a run it never raises: every CALLS_METHOD edge the converter adds
    has details.  The two dictionaries it returns group the target and
    method names by the name read from the source id, in the order of the
    edges, with no entry for a name without edges of the kind. *)
Theorem class_dependencies_of_a_run (t : source_tree) :
  ∃ class_deps method_calls,
    analyze_class_dependencies (relationships (run t).2)
    = Some (class_deps, method_calls)
    ∧ ∀ k,
        Dict.get class_deps k
        = entry (entries_of "DEPENDS_ON_CLASS" (λ r, class_name_of (r_to r))
                   (relationships (run t).2) k)
        ∧ Dict.get method_calls k
          = entry (entries_of "CALLS_METHOD"
                     (λ r, PyStr.replace (default "" (r_details r)) "Calls method " "")
                     (relationships (run t).2) k).
Proof.
  destruct (analyze_class_dependencies_total _ (run_edges_detailed t))
    as [[class_deps method_calls] H].
  exists class_deps, method_calls. split; [done|].
  by apply analyze_class_dependencies_spec.
Qed.

(** ** More on the extractor *)

Lemma category_extend_mono k k' xs d y :
  y ∈ category d k' → y ∈ category (extend k xs d) k'.
Proof.
  unfold category, extend. destruct (decide (k = k')) as [->|Hne].
  - rewrite lookup_alter_eq. destruct (d !! k') as [l|]; simpl; [|done].
    intros H. apply elem_of_app. by left.
  - by rewrite lookup_alter_ne.
Qed.

Lemma category_append_mono k k' x d y :
  y ∈ category d k' → y ∈ category (append k x d) k'.
Proof. apply category_extend_mono. Qed.

Lemma category_append_new k x d :
  k ∈ dom d → x ∈ category (append k x d) k.
Proof.
  intros [l Hl]%elem_of_dom. unfold category, append.
  rewrite lookup_alter_eq, Hl. simpl. apply elem_of_app. right. by left.
Qed.

Lemma category_extend_other k k' xs d :
  k ≠ k' → category (extend k xs d) k' = category d k'.
Proof. intros Hne. unfold category, extend. by rewrite lookup_alter_ne. Qed.

Lemma category_append_other k k' x d :
  k ≠ k' → category (append k x d) k' = category d k'.
Proof. apply category_extend_other. Qed.

Lemma category_clean src name kind key :
  category (extract_comprehensive_dependencies src name kind) key
  = clean (category (raw_dependencies src) key).
Proof.
  unfold category. rewrite extract_lookup.
  destruct (raw_dependencies src !! key); [done|]. simpl. by rewrite clean_nil.
Qed.

Lemma keep_spec x : keep x = true ↔ 2 ≤ PyStr.len x.
Proof.
  split; [apply keep_length|]. unfold keep, PyStr.len. intros H.
  apply andb_true_iff. split; [|apply Nat.ltb_lt; lia].
  destruct x; simpl in *; [lia|done].
Qed.

Lemma unfed_extend k xs d :
  k ≠ "triggers" → k ≠ "workflows" → unfed d → unfed (extend k xs d).
Proof. intros H1 H2 [Ht Hw]. split; by rewrite category_extend_other. Qed.

Lemma unfed_soql_match d m : unfed d → unfed (soql_match d m).
Proof.
  intros H. destruct m as [s|l]; simpl;
    [apply unfed_extend; [congruence..|assumption]|].
  destruct l as [|a [|b [|c l]]]; try assumption.
  apply unfed_extend; [congruence..|].
  apply unfed_extend; [congruence..|assumption].
Qed.

Lemma unfed_class_match d m : unfed d → unfed (class_match d m).
Proof.
  intros H. destruct m as [s|l]; simpl.
  - case_decide; [assumption|]. apply unfed_extend; [congruence..|assumption].
  - destruct l as [|a [|b [|c l]]]; try assumption.
    case_decide; [assumption|].
    apply unfed_extend; [congruence..|].
    apply unfed_extend; [congruence..|assumption].
Qed.

Lemma unfed_raw src : unfed (raw_dependencies src).
Proof.
  unfold raw_dependencies.
  repeat (apply (fold_left_invariant unfed);
    [intros d pattern Hd;
     lazymatch goal with
     | |- unfed (soql_step _ _ _) =>
         apply (fold_left_invariant unfed); [|assumption];
         intros; apply unfed_soql_match; assumption
     | |- unfed (class_step _ _ _) =>
         apply (fold_left_invariant unfed); [|assumption];
         intros; apply unfed_class_match; assumption
     | |- _ => apply unfed_extend; [congruence..|assumption]
     end|]).
  split; unfold category; vm_compute; reflexivity.
Qed.

(** X12.  The record has exactly eleven keys for every source text: the
    nine categories of the category set, and [triggers] and [workflows],
    which no pattern feeds and which are therefore always empty. *)
Theorem unfed_categories_stay_empty (src name kind : string) :
  let dependencies := extract_comprehensive_dependencies src name kind in
  dom dependencies = list_to_set (category_set ++ ["triggers"; "workflows"])
  ∧ dependencies !! "triggers" = Some []
  ∧ dependencies !! "workflows" = Some [].
Proof.
  intros dependencies. subst dependencies.
  unfold extract_comprehensive_dependencies.
  destruct (unfed_raw src) as [Ht Hw]. pose proof (raw_dependencies_dom src) as Hdom.
  revert Ht Hw Hdom. generalize (raw_dependencies src). intros d Ht Hw Hdom.
  assert (Hkey : ∀ key, key ∈ dom initial_dependencies → category d key = [] →
            (clean <$> d) !! key = Some []).
  { intros key Hkey Hempty. rewrite <- Hdom in Hkey.
    apply elem_of_dom in Hkey as [l Hl]. rewrite lookup_fmap, Hl.
    unfold category in Hempty. rewrite Hl in Hempty. simpl in Hempty. subst l.
    simpl. by rewrite clean_nil. }
  split; [|split].
  - rewrite dom_fmap_L, Hdom. apply set_eq. intros key.
    rewrite <- initial_keys. by rewrite elem_of_list_to_set.
  - apply Hkey; [|exact Ht]. apply initial_keys, elem_of_app. right. by left.
  - apply Hkey; [|exact Hw]. apply initial_keys, elem_of_app. right. right. by left.
Qed.

(** ** More on the object-level passes *)

Lemma mem_spec x l : Comprehensive.mem x l = true ↔ x ∈ l.
Proof.
  unfold Comprehensive.mem. rewrite existsb_exists. split.
  - intros (y & Hy & ->%String.eqb_eq). by apply list_elem_of_In.
  - intros Hx. exists x. split; [by apply list_elem_of_In|apply String.eqb_refl].
Qed.

Lemma comprehensive_lookup_inv obj_name field r :
  r ∈ Comprehensive.field_relationships obj_name field →
  r_type r = "LOOKUP_TO" →
  r_from r = obj_name
  ∧ r_to r = PyStr.replace (pf_name field) "Id" ""
  ∧ r_to r ∈ Comprehensive.known_objects
  ∧ PyStr.endswith (pf_name field) "Id" = true
  ∧ pf_name field ≠ "Id".
Proof.
  unfold Comprehensive.field_relationships. cbv zeta.
  rewrite !elem_of_app. intros [H|[H|H]] Hty.
  - apply list_elem_of_singleton in H. subst r. discriminate Hty.
  - destruct (pf_referenceTo field) as [ref|]; [|by apply elem_of_nil in H].
    destruct (negb _); [|by apply elem_of_nil in H].
    apply list_elem_of_singleton in H. subst r. discriminate Hty.
  - destruct (PyStr.endswith (pf_name field) "Id") eqn:Hend;
      [|by apply elem_of_nil in H].
    destruct (String.eqb_spec (pf_name field) "Id") as [Heq|Hne];
      [by apply elem_of_nil in H|].
    cbn [negb andb] in H.
    destruct (Comprehensive.mem (PyStr.replace (pf_name field) "Id" "")
                Comprehensive.known_objects) eqn:Hmem;
      [|by apply elem_of_nil in H].
    apply list_elem_of_singleton in H. subst r. cbn [r_from r_to edge_c].
    repeat split; try done. by apply mem_spec.
Qed.

(** X13.  In the comprehensive pass every LOOKUP_TO edge comes from a field
    of the edge's source object whose name ends in [Id] and is not [Id];
    the target is that name with every [Id] removed, and it is Account,
    Contact or Opportunity. *)
Theorem lookup_edges_come_from_id_fields
    (objects_data : list (string * parsed_object)) (r : relationship) :
  r ∈ Comprehensive.analyze_comprehensive_relationships objects_data →
  r_type r = "LOOKUP_TO" →
  r_to r ∈ Comprehensive.known_objects
  ∧ ∃ obj_data field,
      (r_from r, obj_data) ∈ objects_data ∧ field ∈ po_fields obj_data
      ∧ PyStr.endswith (pf_name field) "Id" = true ∧ pf_name field ≠ "Id"
      ∧ r_to r = PyStr.replace (pf_name field) "Id" "".
Proof.
  unfold Comprehensive.analyze_comprehensive_relationships.
  intros [Hstd|Hr]%elem_of_app Hty.
  - unfold standard_relationships in Hstd.
    repeat (apply elem_of_cons in Hstd as [->|Hstd]; [discriminate Hty|]).
    by apply elem_of_nil in Hstd.
  - apply elem_of_flat_map_inv in Hr as ([obj_name obj_data] & Hobj & Hr).
    unfold Comprehensive.object_relationships in Hr. simpl in Hr.
    rewrite !elem_of_app in Hr. destruct Hr as [Hr|[Hr|Hr]].
    + apply elem_of_flat_map_inv in Hr as (field & Hfield & Hr).
      destruct (comprehensive_lookup_inv _ _ _ Hr Hty) as (<- & Hto & Hknown & Hend & Hne).
      split; [done|]. by exists obj_data, field.
    + apply list_elem_of_fmap in Hr as (lv & -> & _). discriminate Hty.
    + apply list_elem_of_fmap in Hr as (wl & -> & _). discriminate Hty.
Qed.

Lemma lookup_edges_come_from_id_fields_witness :
  let contact :=
    {| po_name := "Contact"; po_type := "CustomObject";
       po_fields := [{| pf_name := "AccountId"; pf_type := "Lookup";
                        pf_label := "Account ID"; pf_referenceTo := None |}];
       po_listViews := []; po_webLinks := [] |} in
  let r := edge_c "Contact" "Account" "LOOKUP_TO" "Contact.AccountId lookup to Account" in
  r_to r ∈ Comprehensive.known_objects
  ∧ ∃ obj_data field,
      (r_from r, obj_data) ∈ [("Contact", contact)] ∧ field ∈ po_fields obj_data
      ∧ PyStr.endswith (pf_name field) "Id" = true ∧ pf_name field ≠ "Id"
      ∧ r_to r = PyStr.replace (pf_name field) "Id" "".
Proof.
  intros contact r.
  apply (lookup_edges_come_from_id_fields [("Contact", contact)] r).
  - vm_compute. do 4 right. left.
  - reflexivity.
Defined.

(** X14.  In the enhanced pass the edges of a field that has a name
    depend on the name alone: its declared type is never decisive.  The
    type decides for a field without name text only, between no edge
    (Lookup, MasterDetail) and the AttributeError that ends the analysis.
    Every edge of a result is one of the three standard relationships or a
    LOOKUP_TO edge from an object to Account or Contact for a field of
    that object named [AccountId] or [ContactId]. *)
Theorem enhanced_edges_depend_on_names (objects_data : list Enhanced.object_dict) :
  (∀ obj_name field field',
     Enhanced.ef_name field = Enhanced.ef_name field' →
     is_Some (Enhanced.ef_name field) →
     Enhanced.field_relationships obj_name field
     = Enhanced.field_relationships obj_name field'
     ∧ ∃ edges, Enhanced.field_relationships obj_name field = inr edges)
  ∧ (∀ obj_name field,
       Enhanced.ef_name field = None →
       Enhanced.field_relationships obj_name field
       = if Enhanced.is_lookup_type (Enhanced.ef_type field) then inr []
         else inl Enhanced.AttributeError)
  ∧ ∀ relationships r,
      Enhanced.analyze_cross_object_relationships objects_data = inr relationships →
      r ∈ relationships →
      r ∈ standard_relationships
      ∨ (r_type r = "LOOKUP_TO" ∧ r_to r ∈ ["Account"; "Contact"]
         ∧ ∃ obj_data field,
             obj_data ∈ objects_data ∧ field ∈ Enhanced.eo_fields obj_data
             ∧ r_from r = Enhanced.eo_name obj_data
             ∧ Enhanced.ef_name field = Some (r_to r +:+ "Id")).
Proof.
  split; [|split].
  - intros obj_name field field' Hname [n Hn]. rewrite !enhanced_field_spec.
    unfold nameless. rewrite <- Hname, Hn. split; [done|]. by eexists.
  - intros obj_name field Hname. rewrite enhanced_field_spec.
    unfold nameless. rewrite Hname.
    by destruct (Enhanced.is_lookup_type (Enhanced.ef_type field)).
  - apply enhanced_edges_inv.
Qed.

(** ** Names and identifiers *)

Lemma chars_app a b : PyStr.chars (a +:+ b) = PyStr.chars a ++ PyStr.chars b.
Proof. induction a as [|c a IH]; simpl; [done|]. by rewrite IH. Qed.

Lemma length_chars s : length (PyStr.chars s) = String.length s.
Proof. induction s as [|c s IH]; simpl; [done|]. by rewrite IH. Qed.

Lemma rfind_dot_none l i last :
  "."%char ∉ l → PyStr.rfind_dot l i last = last.
Proof.
  revert i last. induction l as [|c l IH]; intros i last Hl; simpl; [done|].
  apply not_elem_of_cons in Hl as [Hc Hl]. rewrite IH by done.
  destruct (Ascii.eqb_spec c "."); [congruence|done].
Qed.

Lemma rfind_dot_last l1 l2 i last :
  "."%char ∉ l2 → PyStr.rfind_dot (l1 ++ "."%char :: l2) i last = Some (i + length l1).
Proof.
  intros Hl2. revert i last. induction l1 as [|c l1 IH]; intros i last; simpl.
  - rewrite rfind_dot_none by done. f_equal. lia.
  - rewrite IH. f_equal. lia.
Qed.

(** [Path(base + "." + ext).stem] is [base]. *)
Lemma stem_ext base ext :
  base ≠ "" → ext ≠ "" → free_of "." ext → PyStr.stem (base +:+ "." +:+ ext) = base.
Proof.
  intros Hbase Hext Hfree. unfold PyStr.stem.
  rewrite chars_app. change (PyStr.chars ("." +:+ ext)) with ("."%char :: PyStr.chars ext).
  rewrite rfind_dot_last by done. simpl.
  assert (Hlen : String.length (base +:+ "." +:+ ext)
                 = String.length base + S (String.length ext)).
  { by rewrite <- !length_chars, chars_app, length_app. }
  rewrite Hlen, length_chars.
  assert (0 < String.length base) by (destruct base; simpl; [done|lia]).
  assert (0 < String.length ext) by (destruct ext; simpl; [done|lia]).
  replace (0 <? String.length base) with true by (symmetry; apply Nat.ltb_lt; lia).
  replace (String.length base <? String.length base + S (String.length ext) - 1)
    with true by (symmetry; apply Nat.ltb_lt; lia).
  simpl. rewrite <- length_chars, take_app_length. apply str_chars.
Qed.

Lemma is_prefix_refl l : PyStr.is_prefix l l = true.
Proof. induction l as [|c l IH]; simpl; [done|]. by rewrite Ascii.eqb_refl. Qed.

Lemma replace_l_nil fuel old new : PyStr.replace_l fuel old new [] = [].
Proof. by destruct fuel. Qed.

Lemma replace_l_suffix fuel c old n :
  c ∉ n → length n < fuel →
  PyStr.replace_l fuel (c :: old) [] (n ++ c :: old) = n.
Proof.
  revert fuel. induction n as [|a n IH]; intros fuel Hn Hfuel;
    (destruct fuel as [|fuel]; [simpl in Hfuel; lia|]).
  - cbn [PyStr.replace_l app]. rewrite is_prefix_refl, drop_all.
    by rewrite replace_l_nil.
  - apply not_elem_of_cons in Hn as [Hc Hn].
    cbn [PyStr.replace_l app PyStr.is_prefix].
    destruct (Ascii.eqb_spec c a) as [->|_]; [done|]. simpl.
    rewrite IH; [done|done|simpl in Hfuel; lia].
Qed.

(** Removing a suffix that starts with a character the rest is free of. *)
Lemma replace_suffix c name suffix :
  free_of c name →
  PyStr.replace (name +:+ String c suffix) (String c suffix) "" = name.
Proof.
  intros Hfree. unfold PyStr.replace. cbn [PyStr.chars list_ascii_of_string].
  rewrite chars_app. cbn [PyStr.chars list_ascii_of_string].
  rewrite replace_l_suffix; [apply str_chars|done|].
  rewrite <- length_chars, chars_app, length_app. simpl.
  rewrite length_chars. lia.
Qed.

Lemma append_assoc (a b c : string) : (a +:+ b) +:+ c = a +:+ b +:+ c.
Proof.
  induction a as [|x a IH]; [done|].
  change (String x ((a +:+ b) +:+ c) = String x (a +:+ b +:+ c)). by rewrite IH.
Qed.

Lemma free_of_literal c s : bool_decide (c ∉ PyStr.chars s) = true → free_of c s.
Proof. apply bool_decide_eq_true_1. Qed.

(** The name of a definition file [name.kind-meta.xml]. *)
Lemma name_of_file name kind :
  free_of "." name →
  PyStr.replace (PyStr.stem (name +:+ String "." kind +:+ ".xml")) (String "." kind) ""
  = name.
Proof.
  intros Hname. rewrite <- append_assoc.
  change ".xml" with ("." +:+ "xml"). rewrite stem_ext.
  - by apply replace_suffix.
  - by destruct name.
  - done.
  - by apply free_of_literal.
Qed.

(** X15.  A definition file [N.field-meta.xml], [N.listView-meta.xml],
    [N.webLink-meta.xml] or [N.workflow-meta.xml] that parses, with a name
    [N] free of dots, yields the component named [N]; its id is the kind,
    the owning object (for the sub-definitions of an object) and [N],
    joined by underscores. *)
Theorem component_names_follow_file_names
    (dir object_name name : string) (root : Xml.element) :
  free_of "." name →
  let file := λ kind,
    {| xf_name := name +:+ kind +:+ ".xml"; xf_parse := Xml.Parsed root |} in
  out (process_field dir (file ".field-meta") object_name)
  = Some {| c_id := "field_" +:+ object_name +:+ "_" +:+ name;
            c_type := "CustomField"; c_name := name; c_object := object_name;
            c_metadata := xml_to_dict root |}
  ∧ out (process_listview dir (file ".listView-meta") object_name)
    = Some {| c_id := "listview_" +:+ object_name +:+ "_" +:+ name;
              c_type := "ListView"; c_name := name; c_object := object_name;
              c_metadata := xml_to_dict root |}
  ∧ out (process_weblink dir (file ".webLink-meta") object_name)
    = Some {| c_id := "weblink_" +:+ object_name +:+ "_" +:+ name;
              c_type := "WebLink"; c_name := name; c_object := object_name;
              c_metadata := xml_to_dict root |}
  ∧ out (process_workflow dir (file ".workflow-meta"))
    = Some {| c_id := "workflow_" +:+ name; c_type := "Workflow"; c_name := name;
              c_object := name; c_metadata := xml_to_dict root |}.
Proof.
  intros Hname file. unfold out.
  rewrite process_field_init, process_listview_init, process_weblink_init,
    process_workflow_init.
  subst file. cbn [xf_parse xf_name fst]. cbv zeta.
  by rewrite !name_of_file.
Qed.

Lemma component_names_follow_file_names_witness :
  let root := Xml.Element "CustomField" None [] [] in
  let file := λ kind,
    {| xf_name := "Email__c" +:+ kind +:+ ".xml"; xf_parse := Xml.Parsed root |} in
  out (process_field "objects/Contact/fields" (file ".field-meta") "Contact")
  = Some {| c_id := "field_Contact_Email__c";
            c_type := "CustomField"; c_name := "Email__c"; c_object := "Contact";
            c_metadata := xml_to_dict root |}.
Proof.
  intros root file.
  refine (proj1 (component_names_follow_file_names "objects/Contact/fields" "Contact"
                   "Email__c" root _)).
  apply free_of_literal. reflexivity.
Defined.

(** X16.  A class or trigger file [N.ext] that can be read yields the
    component named [N], whatever dots [N] has, with the id [class_N] or
    [trigger_N] and the text of the file as its source code. *)
Theorem code_names_follow_file_names
    (dir name ext : string) (file : source_file) (source_code : string)
    (metadata : value) :
  name ≠ "" → ext ≠ "" → free_of "." ext →
  sf_name file = name +:+ "." +:+ ext →
  load file = inr (source_code, metadata) →
  (∃ class_data, out (process_apex_class dir file) = Some class_data
     ∧ k_name class_data = name ∧ k_id class_data = "class_" +:+ name
     ∧ k_source_code class_data = source_code ∧ k_metadata class_data = metadata)
  ∧ (∃ trigger_data, out (process_trigger dir file) = Some trigger_data
       ∧ t_name trigger_data = name ∧ t_id trigger_data = "trigger_" +:+ name
       ∧ t_source_code trigger_data = source_code
       ∧ t_metadata trigger_data = metadata).
Proof.
  intros Hname Hext Hfree Hfile Hload. unfold out.
  rewrite process_apex_class_init, process_trigger_init, Hload, Hfile. cbv zeta.
  rewrite stem_ext by done.
  generalize (extract_comprehensive_dependencies source_code name "ApexClass").
  generalize (extract_comprehensive_dependencies source_code name "ApexTrigger").
  intros d1 d2. split; eexists; (split; [reflexivity|]); by repeat split.
Qed.

Lemma code_names_follow_file_names_witness :
  let file := {| sf_name := "AccountHandler.cls"; sf_read := ReadOk "public class A {}";
                 sf_meta := None |} in
  ∃ class_data, out (process_apex_class "classes" file) = Some class_data
     ∧ k_name class_data = "AccountHandler" ∧ k_id class_data = "class_AccountHandler"
     ∧ k_source_code class_data = "public class A {}"
     ∧ k_metadata class_data = empty_metadata.
Proof.
  intros file.
  refine (proj1 (code_names_follow_file_names "classes" "AccountHandler" "cls" file
                   "public class A {}" empty_metadata _ _ _ _ _)).
  - discriminate.
  - discriminate.
  - apply free_of_literal. reflexivity.
  - reflexivity.
  - reflexivity.
Defined.

Lemma elem_of_replace_l fuel old new l x :
  x ∈ PyStr.replace_l fuel old new l → x ∈ l ∨ x ∈ new.
Proof.
  revert l. induction fuel as [|fuel IH]; intros l; simpl; [by left|].
  destruct l as [|c l]; [by left|].
  destruct (PyStr.is_prefix old (c :: l)).
  - intros [Hx|Hx]%elem_of_app; [by right|].
    apply IH in Hx as [Hx|Hx]; [left|by right].
    eapply subseteq_drop, Hx.
  - intros [->|Hx]%elem_of_cons; [left; by left|].
    apply IH in Hx as [Hx|Hx]; [left; by right|by right].
Qed.

Lemma replace_l_removes fuel c new l :
  c ∉ new → length l ≤ fuel → c ∉ PyStr.replace_l fuel [c] new l.
Proof.
  intros Hnew. revert l. induction fuel as [|fuel IH]; intros l Hlen.
  - destruct l; [|simpl in Hlen; lia]. simpl. apply not_elem_of_nil.
  - destruct l as [|a l]; [simpl; apply not_elem_of_nil|].
    cbn [PyStr.replace_l PyStr.is_prefix]. cbn [length] in Hlen.
    destruct (Ascii.eqb_spec c a) as [->|Hne]; cbn [andb length drop].
    + rewrite not_elem_of_app. split; [done|]. apply IH. rewrite drop_0. lia.
    + rewrite not_elem_of_cons. split; [done|]. apply IH. lia.
Qed.

(** [s.replace(old, new)] adds no character that is not in [new]. *)
Lemma free_of_replace c s old new :
  free_of c s → free_of c new → free_of c (PyStr.replace s old new).
Proof.
  unfold free_of, PyStr.replace. intros Hs Hnew.
  destruct (PyStr.chars old) as [|o old']; [done|].
  rewrite chars_str. by intros [?|?]%elem_of_replace_l.
Qed.

(** Replacing a character leaves none of it. *)
Lemma replace_removes c s new :
  free_of c new → free_of c (PyStr.replace s (String c "") new).
Proof.
  unfold free_of, PyStr.replace. intros Hnew. cbn [PyStr.chars list_ascii_of_string].
  rewrite chars_str. apply replace_l_removes; [done|]. by rewrite length_chars.
Qed.

Lemma split_l_hd sep cur l :
  ∃ a, List.hd "" (PyStr.split_l sep cur l) = PyStr.str (rev cur ++ a)
       ∧ (sep ∉ a) ∧ (l = a ∨ ∃ rest, l = a ++ sep :: rest).
Proof.
  revert cur. induction l as [|c l IH]; intros cur; simpl.
  - exists []. split; [by rewrite app_nil_r|]. split; [apply not_elem_of_nil|by left].
  - destruct (Ascii.eqb_spec c sep) as [->|Hne]; simpl.
    + exists []. split; [by rewrite app_nil_r|]. split; [apply not_elem_of_nil|].
      right. by exists l.
    + destruct (IH (c :: cur)) as (a & -> & Ha & Hl). exists (c :: a).
      split; [simpl; by rewrite <- app_assoc|]. split.
      * apply not_elem_of_cons. split; [congruence|done].
      * destruct Hl as [->|[rest ->]]; [by left|right]. by exists rest.
Qed.

(** [s.split(sep)[0]] is [s] up to its first separator. *)
Lemma split_hd s sep :
  let first := List.hd "" (PyStr.split s sep) in
  free_of sep first ∧ (s = first ∨ ∃ rest, s = first +:+ String sep rest).
Proof.
  intros first. subst first. unfold PyStr.split, free_of.
  destruct (split_l_hd sep [] (PyStr.chars s)) as (a & -> & Ha & Hs). simpl.
  rewrite chars_str. split; [done|].
  destruct Hs as [Hs|[rest Hs]].
  - left. by rewrite <- Hs, str_chars.
  - right. exists (PyStr.str rest).
    rewrite <- (str_chars s), Hs, str_app. done.
Qed.

Lemma free_of_layout_id c layout_name :
  c ∈ [" "; "("; ")"]%char → free_of c (layout_id_of layout_name).
Proof.
  intros Hc. unfold layout_id_of. cbv zeta.
  assert (Hlit : ∀ s, bool_decide ((" "%char ∉ PyStr.chars s) ∧ ("("%char ∉ PyStr.chars s)
                                   ∧ (")"%char ∉ PyStr.chars s)) = true → free_of c s).
  { intros s (H1 & H2 & H3)%bool_decide_eq_true_1. unfold free_of.
    repeat (apply elem_of_cons in Hc as [->|Hc]; [done|]). by apply elem_of_nil in Hc. }
  unfold free_of. rewrite chars_app. apply not_elem_of_app.
  split; [by apply Hlit|]. fold (free_of c (PyStr.replace
    (PyStr.replace (PyStr.replace (PyStr.replace (PyStr.replace layout_name " " "_")
       "(" "") ")" "") "%28" "") "%29" "")).
  do 2 (apply free_of_replace; [|by apply Hlit]).
  apply elem_of_cons in Hc as [->|Hc].
  { do 2 (apply free_of_replace; [|by apply Hlit]). apply replace_removes. by apply Hlit. }
  apply elem_of_cons in Hc as [->|Hc].
  { apply free_of_replace; [|by apply Hlit]. apply replace_removes. by apply Hlit. }
  apply elem_of_cons in Hc as [->|Hc]; [|by apply elem_of_nil in Hc].
  apply replace_removes. by apply Hlit.
Qed.

(** X17.  A layout file that parses yields a layout whose id has no space
    and no parenthesis, and whose object is its name up to the first
    hyphen (the whole name if there is none); for a file
    [N.layout-meta.xml] with [N] free of dots the name is [N]. *)
Theorem layout_naming (dir : string) (layout_file : xml_file) (root : Xml.element) :
  xf_parse layout_file = Xml.Parsed root →
  ∃ layout_data,
    out (process_layout dir layout_file) = Some layout_data
    ∧ free_of " " (l_id layout_data) ∧ free_of "(" (l_id layout_data)
    ∧ free_of ")" (l_id layout_data)
    ∧ free_of "-" (l_object layout_data)
    ∧ (l_name layout_data = l_object layout_data
       ∨ ∃ rest, l_name layout_data = l_object layout_data +:+ "-" +:+ rest)
    ∧ ∀ name, free_of "." name →
        xf_name layout_file = name +:+ ".layout-meta.xml" →
        l_name layout_data = name.
Proof.
  intros Hparse. unfold out. rewrite process_layout_init, Hparse. cbv zeta.
  eexists. split; [reflexivity|]. cbn [l_id l_object l_name].
  split; [apply free_of_layout_id; set_solver|].
  split; [apply free_of_layout_id; set_solver|].
  split; [apply free_of_layout_id; set_solver|].
  split; [apply split_hd|]. split; [apply split_hd|].
  intros name Hname ->. by apply name_of_file.
Qed.

Lemma layout_naming_witness :
  let layout_file :=
    {| xf_name := "Account-Account %28Sales%29 Layout.layout-meta.xml";
       xf_parse := Xml.Parsed (Xml.Element "Layout" None [] []) |} in
  ∃ layout_data,
    out (process_layout "layouts" layout_file) = Some layout_data
    ∧ free_of " " (l_id layout_data) ∧ free_of "(" (l_id layout_data)
    ∧ free_of ")" (l_id layout_data)
    ∧ free_of "-" (l_object layout_data)
    ∧ (l_name layout_data = l_object layout_data
       ∨ ∃ rest, l_name layout_data = l_object layout_data +:+ "-" +:+ rest)
    ∧ ∀ name, free_of "." name →
        xf_name layout_file = name +:+ ".layout-meta.xml" →
        l_name layout_data = name.
Proof.
  intros layout_file.
  exact (layout_naming "layouts" layout_file (Xml.Element "Layout" None [] []) eq_refl).
Defined.

Lemma contains_l_char c l : PyStr.contains_l [c] l = true ↔ c ∈ l.
Proof.
  induction l as [|a l IH]; simpl.
  - split; [done|by intros ?%elem_of_nil].
  - rewrite elem_of_cons, <- IH. destruct (Ascii.eqb_spec c a) as [->|Hne]; simpl.
    + split; [by left|done].
    + split; [by right|]. by intros [?|?].
Qed.

Lemma split_l_free sep cur l :
  sep ∉ l → PyStr.split_l sep cur l = [PyStr.str (rev cur ++ l)].
Proof.
  revert cur. induction l as [|c l IH]; intros cur Hl; simpl.
  - by rewrite app_nil_r.
  - apply not_elem_of_cons in Hl as [Hc Hl].
    destruct (Ascii.eqb_spec c sep) as [->|_]; [done|].
    rewrite IH by done. simpl. by rewrite <- app_assoc.
Qed.

Lemma split_l_not_nil sep cur l : PyStr.split_l sep cur l ≠ [].
Proof.
  revert cur. induction l as [|c l IH]; intros cur; simpl; [done|].
  destruct (Ascii.eqb c sep); [done|apply IH].
Qed.

Lemma split_l_last sep cur pre local d :
  sep ∉ local →
  List.last (PyStr.split_l sep cur (pre ++ sep :: local)) d = PyStr.str local.
Proof.
  intros Hlocal. revert cur. induction pre as [|c pre IH]; intros cur; simpl.
  - rewrite Ascii.eqb_refl, split_l_free by done. done.
  - destruct (Ascii.eqb_spec c sep) as [->|_]; [|apply IH].
    specialize (IH []).
    destruct (PyStr.split_l sep [] (pre ++ sep :: local)) eqn:E; [|exact IH].
    by apply split_l_not_nil in E.
Qed.

(** X18.  The tag without its namespace is the text after the last
    closing brace: a qualified tag [{namespace}local] becomes [local], and
    a tag without a brace is kept as it is. *)
Theorem remove_namespace_keeps_the_local_name (prefix local : string) :
  free_of "}" local →
  remove_namespace (prefix +:+ "}" +:+ local) = local
  ∧ remove_namespace local = local.
Proof.
  intros Hlocal. unfold remove_namespace, PyStr.contains, PyStr.split. split.
  - rewrite chars_app. change (PyStr.chars ("}" +:+ local)) with ("}"%char :: PyStr.chars local).
    change (PyStr.chars "}") with ["}"%char].
    replace (PyStr.contains_l ["}"%char] (PyStr.chars prefix ++ "}"%char :: PyStr.chars local))
      with true.
    2:{ symmetry. apply contains_l_char, elem_of_app. right. by left. }
    rewrite split_l_last by done. apply str_chars.
  - change (PyStr.chars "}") with ["}"%char].
    destruct (PyStr.contains_l _ _) eqn:E; [|done].
    by apply contains_l_char in E.
Qed.

Lemma remove_namespace_keeps_the_local_name_witness :
  remove_namespace ("{http://soap.sforce.com/2006/04/metadata" +:+ "}" +:+ "fields")
  = "fields"
  ∧ remove_namespace "fields" = "fields".
Proof.
  apply (remove_namespace_keeps_the_local_name
           "{http://soap.sforce.com/2006/04/metadata" "fields").
  apply free_of_literal. reflexivity.
Defined.

(** ** The content of a layout *)

(** Induction over an element tree. *)
Lemma element_induction (P : Xml.element → Prop) :
  (∀ tag text attrib cs, Forall P cs → P (Xml.Element tag text attrib cs)) →
  ∀ e, P e.
Proof.
  intros H. fix IH 1. intros [tag text attrib cs]. apply H.
  induction cs as [|c cs IHcs]; [constructor|].
  constructor; [apply IH|apply IHcs].
Qed.

Lemma iter_eq tag text attrib cs :
  Xml.iter (Xml.Element tag text attrib cs)
  = Xml.Element tag text attrib cs :: flat_map Xml.iter cs.
Proof. reflexivity. Qed.

Lemma iter_self e : e ∈ Xml.iter e.
Proof. destruct e. rewrite iter_eq. by left. Qed.

(** A descendant's descendants are descendants. *)
Lemma iter_trans r e x : e ∈ Xml.iter r → x ∈ Xml.iter e → x ∈ Xml.iter r.
Proof.
  revert e x. induction r as [tag text attrib cs IH] using element_induction.
  intros e x. rewrite iter_eq. intros [->|He]%elem_of_cons Hx.
  - by rewrite iter_eq in Hx.
  - right. apply elem_of_flat_map_inv in He as (c & Hc & He).
    apply (elem_of_flat_map _ _ c); [done|].
    rewrite Forall_forall in IH. by apply (IH c Hc e).
Qed.

Lemma iter_child e c x : c ∈ Xml.children e → x ∈ Xml.iter c → x ∈ Xml.iter e.
Proof.
  destruct e as [tag text attrib cs]. cbn [Xml.children]. intros Hc Hx.
  rewrite iter_eq. right. by apply (elem_of_flat_map _ _ c).
Qed.

Lemma elem_of_filter_bool {A} (p : A → bool) (l : list A) (x : A) :
  x ∈ List.filter p l ↔ x ∈ l ∧ p x = true.
Proof. by rewrite list_elem_of_In, filter_In, <- list_elem_of_In. Qed.

Lemma field_texts_mono l1 l2 f :
  (∀ x, x ∈ l1 → x ∈ l2) → f ∈ field_texts l1 → f ∈ field_texts l2.
Proof.
  unfold field_texts. intros Hsub (x & -> & [Hx Hp]%elem_of_filter_bool)%list_elem_of_fmap.
  apply list_elem_of_fmap. exists x. split; [done|].
  apply elem_of_filter_bool. split; [by apply Hsub|done].
Qed.

Lemma section_fields cs sd f :
  f ∈ s_fields (fold_left section_step cs sd) →
  f ∈ s_fields sd ∨ ∃ child, child ∈ cs ∧ f ∈ field_texts (Xml.iter child).
Proof.
  revert sd. induction cs as [|c cs IH]; intros sd; simpl; [by left|].
  intros [Hf|(child & Hchild & Hf)]%IH.
  - unfold section_step in Hf.
    destruct (_ && _); [by left|]. destruct (is_tag "layoutColumns" c); [|by left].
    simpl in Hf. apply elem_of_app in Hf as [Hf|Hf]; [by left|].
    right. exists c. split; [by left|done].
  - right. exists child. split; [by right|done].
Qed.

Lemma elem_of_list_set x l : x ∈ PyStr.list_set l ↔ x ∈ l.
Proof. unfold PyStr.list_set. by rewrite elem_of_elements, elem_of_list_to_set. Qed.

(** What is read from a layout against the list of edges proposed for it:
    the fields are without repetition; every field of a section is among
    them and has its DISPLAYS_FIELD edge in the list; every related list
    names an object and has its SHOWS_RELATED_LIST edge and a
    DISPLAYS_RELATED_FIELD edge for each of its fields in the list. *)
Lemma layout_content_proposed (layout_id object_name : string)
    (layout_root : Xml.element) :
  let fields := _extract_layout_fields layout_root in
  let related_lists := _extract_related_lists layout_root in
  let edges := layout_relationships layout_id object_name fields related_lists in
  NoDup fields
  ∧ (∀ section field,
       section ∈ _extract_layout_sections layout_root →
       field ∈ s_fields section →
       field ∈ fields
       ∧ edge_d layout_id ("field_" +:+ object_name +:+ "_" +:+ field)
           "DISPLAYS_FIELD" ("Field " +:+ field +:+ " is displayed on layout")
         ∈ edges)
  ∧ (∀ related_list,
       related_list ∈ related_lists →
       rl_object related_list ≠ ""
       ∧ edge_d layout_id ("object_" +:+ rl_object related_list) "SHOWS_RELATED_LIST"
           ("Layout shows related " +:+ rl_object related_list +:+ " records")
         ∈ edges
       ∧ ∀ field, field ∈ rl_fields related_list →
           edge_d layout_id
             ("field_" +:+ rl_object related_list +:+ "_" +:+ field)
             "DISPLAYS_RELATED_FIELD" ("Related list displays field " +:+ field)
           ∈ edges).
Proof.
  intros fields related_lists edges. split; [|split].
  - subst fields. unfold _extract_layout_fields, PyStr.list_set. apply NoDup_elements.
  - intros section field Hsection Hfield.
    assert (Hin : field ∈ fields).
    { unfold _extract_layout_sections in Hsection.
      apply elem_of_filter_bool in Hsection as [Hsection _].
      apply list_elem_of_fmap in Hsection as (sec & -> & [Hsec _]%elem_of_filter_bool).
      apply section_fields in Hfield as [Hfield|(child & Hchild & Hfield)];
        [by apply elem_of_nil in Hfield|].
      apply elem_of_list_set. revert Hfield. apply field_texts_mono.
      intros x Hx. apply (iter_trans _ sec); [done|]. by apply (iter_child _ child). }
    split; [done|]. subst edges. unfold layout_relationships.
    right. apply elem_of_app. left.
    apply list_elem_of_fmap. by exists field.
  - intros related_list Hrl.
    assert (Hobj : rl_object related_list ≠ "").
    { subst related_lists. unfold _extract_related_lists in Hrl.
      apply elem_of_filter_bool in Hrl as [_ Hrl].
      by destruct (String.eqb_spec (rl_object related_list) ""). }
    split; [done|].
    assert (Hedges : ∀ r, r ∈ related_list_relationships layout_id related_list →
                       r ∈ edges).
    { intros r Hr. subst edges. unfold layout_relationships. right.
      apply elem_of_app. right. by apply (elem_of_flat_map _ _ related_list). }
    assert (Hrel : related_list_relationships layout_id related_list
      = edge_d layout_id ("object_" +:+ rl_object related_list) "SHOWS_RELATED_LIST"
          ("Layout shows related " +:+ rl_object related_list +:+ " records")
        :: map (λ field,
             edge_d layout_id ("field_" +:+ rl_object related_list +:+ "_" +:+ field)
               "DISPLAYS_RELATED_FIELD" ("Related list displays field " +:+ field))
             (rl_fields related_list)).
    { unfold related_list_relationships.
      by destruct (String.eqb_spec (rl_object related_list) ""). }
    split.
    + apply Hedges. rewrite Hrel. by left.
    + intros field Hfield. apply Hedges. rewrite Hrel. right.
      apply list_elem_of_fmap. by exists field.
Qed.

(** ** What a match consumed and captured *)

Lemma capt_capfree fl r cs : ngroups r = 0 → capt fl r cs → cs = [].
Proof.
  revert cs. induction r; intros cs Hn; simpl in *; try done.
  - intros (c1 & c2 & -> & H1 & H2).
    rewrite (IHr1 c1), (IHr2 c2); [done|lia|done|lia|done].
  - intros [H|H]; [apply IHr1|apply IHr2]; (lia || done).
  - intros H. by apply H.
Qed.

Lemma reaches_refl fl r s : lang fl r [] → capt fl r [] → reaches fl r s s.
Proof. intros Hl Hc. by exists [], []. Qed.

Lemma step_if_sound p s k e :
  step_if p s k = Some e →
  ∃ c, after s = c :: after (advance s) ∧ before (advance s) = c :: before s
       ∧ caps (advance s) = caps s ∧ p c = true ∧ k (advance s) = Some e.
Proof.
  unfold step_if, advance. destruct (after s) as [|c rest] eqn:E; [done|].
  destruct (p c) eqn:Hp; [|done]. intros Hk. exists c. by simpl.
Qed.

Lemma atom_sound fl r s k e :
  lang fl r = (λ w, ∃ c, w = [c] ∧ atom_accepts fl r c = true) →
  capt fl r = (λ cs, cs = []) →
  step_if (atom_accepts fl r) s k = Some e →
  ∃ s', reaches fl r s s' ∧ k s' = Some e.
Proof.
  intros Hl Hc (c & Ha & Hb & Hcaps & Hp & Hk)%step_if_sound.
  exists (advance s). split; [|done]. exists [c], [].
  rewrite Hl, Hc. repeat split; try done. by exists c.
Qed.

Lemma reaches_seq fl r1 r2 s s1 s2 :
  reaches fl r1 s s1 → reaches fl r2 s1 s2 → reaches fl (Seq r1 r2) s s2.
Proof.
  intros (w1 & c1 & Ha1 & Hb1 & Hc1 & Hl1 & Hg1) (w2 & c2 & Ha2 & Hb2 & Hc2 & Hl2 & Hg2).
  exists (w1 ++ w2), (c2 ++ c1). repeat split.
  - by rewrite Ha1, Ha2, app_assoc.
  - by rewrite Hb2, Hb1, rev_app_distr, app_assoc.
  - by rewrite Hc2, Hc1, app_assoc.
  - by exists w1, w2.
  - by exists c1, c2.
Qed.

Lemma reaches_star fl g r s s1 s2 :
  reaches fl r s s1 → reaches fl (Star g r) s1 s2 → reaches fl (Star g r) s s2.
Proof.
  intros (w1 & c1 & Ha1 & Hb1 & Hc1 & Hl1 & Hg1) (w2 & c2 & Ha2 & Hb2 & Hc2 & Hl2 & Hg2).
  exists (w1 ++ w2), (c2 ++ c1). repeat split.
  - by rewrite Ha1, Ha2, app_assoc.
  - by rewrite Hb2, Hb1, rev_app_distr, app_assoc.
  - by rewrite Hc2, Hc1, app_assoc.
  - destruct Hl2 as [n Hn]. exists (S n), w1, w2. done.
  - intros Hfree. simpl in Hg2. rewrite (Hg2 Hfree).
    by rewrite (capt_capfree fl r c1 Hfree Hg1).
Qed.

Lemma reaches_group fl i r s s1 :
  reaches fl r s s1 → reaches fl (Group i r) s (set_cap i s s1).
Proof.
  intros (w & c & Ha & Hb & Hc & Hl & Hg).
  exists w, ((i, PyStr.str w) :: c). unfold set_cap. cbn [before after caps].
  repeat split; try done.
  - rewrite Hb, Hc, length_app, length_rev.
    replace (length w + length (before s) - length (before s)) with (length (rev w))
      by (rewrite length_rev; lia).
    by rewrite take_app_length, rev_involutive.
  - by exists w, c.
Qed.

Lemma mt_star fl g r s k :
  mt fl (Star g r) s k = star_loop (mt fl r) g k (S (length (after s))) s.
Proof. reflexivity. Qed.

Lemma star_loop_S body g k n s :
  star_loop body g k (S n) s
  = let more :=
      body s (λ s', if length (after s') <? length (after s)
                    then star_loop body g k n s' else None) in
    if g then or_else more (k s) else or_else (k s) more.
Proof. reflexivity. Qed.

(** The matcher is sound: a result lies behind a position that the
    pattern reaches. *)
Lemma mt_sound fl r s k e :
  mt fl r s k = Some e → ∃ s', reaches fl r s s' ∧ k s' = Some e.
Proof.
  revert s k e. induction r as [|c| |neg items|r1 IH1 r2 IH2|r1 IH1 r2 IH2|g r IH|i r IH|];
    intros s k e.
  - simpl. intros Hk. exists s. split; [by apply reaches_refl|done].
  - by apply (atom_sound fl (Lit c)).
  - by apply (atom_sound fl Dot).
  - by apply (atom_sound fl (Class neg items)).
  - cbn [mt]. intros (s1 & H1 & (s2 & H2 & Hk)%IH2)%IH1.
    exists s2. split; [by apply (reaches_seq _ _ _ _ s1)|done].
  - cbn [mt]. unfold or_else.
    destruct (mt fl r1 s k) eqn:E1.
    + intros [= ->]. apply IH1 in E1 as (s1 & (w & c & Ha & Hb & Hc & Hl & Hg) & Hk).
      exists s1. split; [|done]. exists w, c. repeat split; try done; by left.
    + intros (s1 & (w & c & Ha & Hb & Hc & Hl & Hg) & Hk)%IH2.
      exists s1. split; [|done]. exists w, c. repeat split; try done; by right.
  - rewrite mt_star. generalize (S (length (after s))). intros n. revert s e.
    induction n as [|n IHn]; intros s e.
    + simpl. intros Hk. exists s. split; [|done].
      apply reaches_refl; [by exists 0|done].
    + rewrite star_loop_S.
      set (more := mt fl r s _).
      assert (Hmore : ∀ e', more = Some e' →
                ∃ s', reaches fl (Star g r) s s' ∧ k s' = Some e').
      { subst more. intros e' (s1 & H1 & Hloop)%IH.
        destruct (length (after s1) <? length (after s)); [|done].
        apply IHn in Hloop as (s2 & H2 & Hk). exists s2.
        split; [by apply (reaches_star _ _ _ _ s1)|done]. }
      assert (Hstop : ∀ e', k s = Some e' →
                ∃ s', reaches fl (Star g r) s s' ∧ k s' = Some e').
      { intros e' Hk. exists s. split; [|done].
        apply reaches_refl; [by exists 0|done]. }
      clearbody more. unfold or_else. destruct g.
      * destruct more eqn:E; [intros [= ->]; by apply Hmore|apply Hstop].
      * destruct (k s) eqn:E; [intros [= ->]; by apply Hstop|apply Hmore].
  - cbn [mt]. intros (s1 & H1 & Hk)%IH.
    exists (set_cap i s s1). split; [by apply reaches_group|done].
  - cbn [mt]. destruct (at_boundary s); [|done]. intros Hk.
    exists s. split; [by apply reaches_refl|done].
Qed.

Lemma search_from_sound fl r bef aft m :
  search_from fl r bef aft = Some m →
  ∃ cs, caps (m_end m) = cs ∧ capt fl r cs.
Proof.
  revert bef. induction aft as [|c aft IH]; intros bef; simpl.
  - destruct (mt _ _ _ _) eqn:E; [|done]. intros [= <-]. simpl.
    apply mt_sound in E as (s' & (w & cs & _ & _ & Hc & _ & Hg) & [= ->]).
    exists cs. simpl in Hc. by rewrite app_nil_r in Hc.
  - destruct (mt _ _ _ _) eqn:E; [|apply IH]. intros [= <-]. simpl.
    apply mt_sound in E as (s' & (w & cs & _ & _ & Hc & _ & Hg) & [= ->]).
    exists cs. simpl in Hc. by rewrite app_nil_r in Hc.
Qed.

Lemma findall_from_sound fuel fl r bef aft f :
  f ∈ findall_from fuel fl r bef aft →
  ∃ m cs, f = found_of r m ∧ caps (m_end m) = cs ∧ capt fl r cs.
Proof.
  revert bef aft. induction fuel as [|fuel IH]; intros bef aft; simpl;
    [by intros ?%elem_of_nil|].
  destruct (search_from fl r bef aft) as [m|] eqn:E; [|by intros ?%elem_of_nil].
  assert (Hm : ∃ m' cs, found_of r m = found_of r m' ∧ caps (m_end m') = cs ∧ capt fl r cs).
  { apply search_from_sound in E as (cs & Hc & Hg). by exists m, cs. }
  destruct (_ =? _).
  - intros [->|Hf]%elem_of_cons; [done|].
    destruct (after (m_end m)); [by apply elem_of_nil in Hf|by apply IH in Hf].
  - intros [->|Hf]%elem_of_cons; [done|by apply IH in Hf].
Qed.

(** The groups of a linear pattern are all set, latest first. *)
Lemma capt_linear fl r gs cs :
  linear_groups r = Some gs → capt fl r cs → Forall2 (captured fl) (rev gs) cs.
Proof.
  revert gs cs. induction r as [|c| |neg items|r1 IH1 r2 IH2|r1 IH1 r2 IH2|g r IH|i r IH|];
    intros gs cs; cbn [linear_groups];
    try (intros [= <-] Hc; simpl in Hc; subst cs; constructor).
  - destruct (linear_groups r1) as [l1|]; [|done].
    destruct (linear_groups r2) as [l2|]; [|done].
    intros [= <-] (c1 & c2 & -> & H1 & H2). rewrite rev_app_distr.
    apply Forall2_app; [by apply IH2|by apply IH1].
  - destruct (Nat.eqb_spec (ngroups (Alt r1 r2)) 0) as [Hn|]; [|done].
    intros [= <-] Hc. apply capt_capfree in Hc; [|done]. subst cs. constructor.
  - destruct (Nat.eqb_spec (ngroups (Star g r)) 0) as [Hn|]; [|done].
    intros [= <-] Hc. apply capt_capfree in Hc; [|done]. subst cs. constructor.
  - destruct (Nat.eqb_spec (ngroups r) 0) as [Hn|]; [|done].
    intros [= <-] (w & c & -> & Hl & Hc). apply capt_capfree in Hc; [|done]. subst c.
    simpl. constructor; [|constructor]. split; [done|]. by exists w.
Qed.

Lemma all_ascii_spec c : c ∈ all_ascii.
Proof.
  unfold all_ascii. apply list_elem_of_fmap. exists (nat_of_ascii c).
  split; [by rewrite ascii_nat_embedding|].
  apply list_elem_of_In, in_seq. pose proof (nat_ascii_bounded c). lia.
Qed.

Lemma only_atom fl P r c :
  forallb (λ c, implb (atom_accepts fl r c) (P c)) all_ascii = true →
  atom_accepts fl r c = true → P c = true.
Proof.
  rewrite forallb_forall. intros H Hc.
  specialize (H c (proj1 (list_elem_of_In _ _) (all_ascii_spec c))).
  by rewrite Hc in H.
Qed.

Lemma only_sound fl P r w :
  only fl P r = true → lang fl r w → Forall (λ c, P c = true) w.
Proof.
  revert w. induction r as [|c| |neg items|r1 IH1 r2 IH2|r1 IH1 r2 IH2|g r IH|i r IH|];
    intros w; cbn [only lang];
    try (intros _ ->; constructor);
    try (intros H (c' & -> & Hc); constructor; [by apply (only_atom fl P _ c' H)|constructor]).
  - intros [H1 H2]%andb_true_iff (w1 & w2 & -> & Hw1 & Hw2).
    apply Forall_app. split; [by apply IH1|by apply IH2].
  - intros [H1 H2]%andb_true_iff [Hw|Hw]; [by apply IH1|by apply IH2].
  - intros H [n Hn]. revert w Hn. induction n as [|n IHn]; intros w; simpl.
    + intros ->. constructor.
    + intros (w1 & w2 & -> & Hw1 & Hw2). apply Forall_app.
      split; [by apply IH|by apply IHn].
  - apply IH.
Qed.

Lemma min_len_sound fl r w : lang fl r w → min_len r ≤ length w.
Proof.
  revert w. induction r as [|c| |neg items|r1 IH1 r2 IH2|r1 IH1 r2 IH2|g r IH|i r IH|];
    intros w; cbn [min_len lang];
    try (intros ->; simpl; lia);
    try (intros (c' & -> & _); simpl; lia).
  - intros (w1 & w2 & -> & Hw1%IH1 & Hw2%IH2). rewrite length_app. lia.
  - intros [Hw%IH1|Hw%IH2]; lia.
  - lia.
  - apply IH.
Qed.

(** *** The groups of the extractor's patterns *)

Lemma found_one_group fl r g src f :
  linear_groups r = Some [(1, g)] → ngroups r = 1 →
  f ∈ findall r src fl →
  ∃ w, f = FStr (PyStr.str w) ∧ lang fl g w.
Proof.
  intros Hlin Hn (m & cs & -> & Hcaps & Hcapt)%findall_from_sound.
  apply (capt_linear _ _ _ _ Hlin) in Hcapt. simpl in Hcapt.
  apply Forall2_cons_inv_l in Hcapt as ([i t] & cs' & [Hi (w & Ht & Hw)] & Hnil & ->).
  apply Forall2_nil_inv_l in Hnil as ->. simpl in Hi, Ht, Hw. subst i t.
  exists w. split; [|done]. unfold found_of. rewrite Hn. unfold group.
  by rewrite Hcaps.
Qed.

Lemma found_two_groups fl r g1 g2 src f :
  linear_groups r = Some [(1, g1); (2, g2)] → ngroups r = 2 →
  f ∈ findall r src fl →
  ∃ w1 w2, f = FTuple [PyStr.str w1; PyStr.str w2] ∧ lang fl g1 w1 ∧ lang fl g2 w2.
Proof.
  intros Hlin Hn (m & cs & -> & Hcaps & Hcapt)%findall_from_sound.
  apply (capt_linear _ _ _ _ Hlin) in Hcapt. simpl in Hcapt.
  apply Forall2_cons_inv_l in Hcapt as ([i2 t2] & cs' & [Hi2 (w2 & Ht2 & Hw2)] & Hrest & ->).
  apply Forall2_cons_inv_l in Hrest as ([i1 t1] & cs'' & [Hi1 (w1 & Ht1 & Hw1)] & Hnil & ->).
  apply Forall2_nil_inv_l in Hnil as ->. simpl in Hi1, Ht1, Hi2, Ht2, Hw1, Hw2.
  subst i1 t1 i2 t2.
  exists w1, w2. split; [|done]. unfold found_of. rewrite Hn. unfold group.
  by rewrite Hcaps.
Qed.

Lemma found_no_group fl r src f :
  ngroups r = 0 → f ∈ findall r src fl → ∃ s, f = FStr s.
Proof.
  intros Hn (m & cs & -> & _)%findall_from_sound.
  unfold found_of. rewrite Hn. by eexists.
Qed.

Lemma identifier_str fl g w :
  only fl is_word g = true → lang fl g w → identifier (PyStr.str w).
Proof. intros Ho Hw. unfold identifier. rewrite chars_str. by apply (only_sound fl _ g). Qed.

Lemma len_str w : PyStr.len (PyStr.str w) = length w.
Proof. unfold PyStr.len. by rewrite <- length_chars, chars_str. Qed.

Lemma elem_of_texts x l : x ∈ texts l → FStr x ∈ l.
Proof.
  unfold texts. intros (f & Hf & Hx)%list_elem_of_omap.
  destruct f as [s|]; [|done]. by injection Hx as ->.
Qed.

(** The object that [extract_trigger_object] reads from a trigger header
    is a text of letters, digits and underscores that is not empty, hence
    truthy. *)
Lemma trigger_object_is_an_identifier (source_code object_name : string) :
  extract_trigger_object source_code = Some object_name →
  identifier object_name ∧ 1 ≤ PyStr.len object_name
  ∧ truthy (Some object_name) = true.
Proof.
  unfold extract_trigger_object, search.
  destruct (search_from _ _ _ _) as [m|] eqn:E; [|done]. intros [= <-].
  apply search_from_sound in E as (cs & Hcaps & Hcapt).
  assert (Hlin : linear_groups trigger_object_pattern = Some [(1, plus word)])
    by reflexivity.
  apply (capt_linear _ _ _ _ Hlin) in Hcapt. simpl in Hcapt.
  apply Forall2_cons_inv_l in Hcapt as ([i t] & cs' & [Hi (w & Ht & Hw)] & Hnil & ->).
  apply Forall2_nil_inv_l in Hnil as ->. simpl in Hi, Ht. subst i t.
  assert (Hgroup : group m 1 = PyStr.str w) by (unfold group; by rewrite Hcaps).
  unfold group in Hgroup. rewrite Hgroup. cbn [snd] in Hw.
  assert (Hlen : 1 ≤ length w) by apply (min_len_sound flag_I (plus word) w Hw).
  split; [|split].
  - apply (identifier_str flag_I (plus word)); [by vm_compute|done].
  - by rewrite len_str.
  - unfold truthy. destruct w; [simpl in Hlen; lia|done].
Qed.

Lemma fold_left_invariant_in {A B} (P : A → Prop) (f : A → B → A) (l : list B) (a : A) :
  (∀ a x, x ∈ l → P a → P (f a x)) → P a → P (fold_left f l a).
Proof.
  revert a. induction l as [|x l IH]; intros a Hstep Ha; simpl; [done|].
  apply IH.
  - intros a' y Hy. apply Hstep. by right.
  - apply Hstep; [by left|done].
Qed.

Lemma named_extend k xs d :
  k ≠ "classes" → k ≠ "methods" →
  (k ∈ identifier_categories → ∀ x, x ∈ xs → identifier x) →
  named d → named (extend k xs d).
Proof.
  intros H1 H2 Hxs (Hdom & Hid & Hlen & Hm). split; [by rewrite dom_extend|].
  split; [|split].
  - intros key x Hkey [Hx|[-> Hx]]%category_extend; [by apply (Hid key)|].
    by apply Hxs.
  - intros x. rewrite (category_extend_other k "classes") by done. apply Hlen.
  - intros x. rewrite (category_extend_other k "methods"),
      (category_extend_other k "classes") by done. apply Hm.
Qed.

Lemma named_append k x d :
  k ≠ "classes" → k ≠ "methods" →
  (k ∈ identifier_categories → identifier x) →
  named d → named (append k x d).
Proof.
  intros H1 H2 Hx. apply named_extend; [done..|].
  intros Hk y ->%list_elem_of_singleton. by apply Hx.
Qed.

Lemma fields_is_no_name_category : "fields" ∉ identifier_categories.
Proof.
  unfold identifier_categories. intros H.
  repeat (apply elem_of_cons in H as [H|H]; [discriminate H|]).
  by apply elem_of_nil in H.
Qed.

Lemma methods_is_no_name_category : "methods" ∉ identifier_categories.
Proof.
  unfold identifier_categories. intros H.
  repeat (apply elem_of_cons in H as [H|H]; [discriminate H|]).
  by apply elem_of_nil in H.
Qed.

Lemma no_name_category k :
  k ∈ ["email_templates"; "web_services"] → k ∉ identifier_categories.
Proof.
  unfold identifier_categories. intros Hk H.
  repeat (apply elem_of_cons in Hk as [->|Hk];
    [repeat (apply elem_of_cons in H as [H|H]; [discriminate H|]);
     by apply elem_of_nil in H|]).
  by apply elem_of_nil in Hk.
Qed.

Lemma named_soql_match d m : names_object m → named d → named (soql_match d m).
Proof.
  intros Hm Hd. destruct m as [s|l]; simpl.
  - apply named_append; [congruence..|done|done].
  - destruct l as [|a [|b [|c l]]]; try assumption.
    apply named_extend; [congruence..| |].
    + by intros ?%fields_is_no_name_category.
    + apply named_append; [congruence..|done|done].
Qed.

Lemma named_add_class c d :
  identifier c → 2 ≤ PyStr.len c → named d → named (append "classes" c d).
Proof.
  intros Hc Hlen (Hdom & Hid & Hl & Hm). split; [by rewrite dom_append|].
  split; [|split].
  - intros key x Hkey [Hx|[_ ->]]%category_append; [by apply (Hid key)|done].
  - intros x [Hx|[_ ->]]%category_append; [by apply Hl|done].
  - intros x. rewrite (category_append_other "classes" "methods") by congruence.
    intros (c' & m & -> & Hc')%Hm. exists c', m. split; [done|].
    by apply category_append_mono.
Qed.

Lemma named_add_method c m d :
  c ∈ category d "classes" → named d → named (append "methods" (c +:+ "." +:+ m) d).
Proof.
  intros Hc (Hdom & Hid & Hl & Hm). split; [by rewrite dom_append|].
  split; [|split].
  - intros key x Hkey [Hx|[<- _]]%category_append; [by apply (Hid key)|].
    by apply methods_is_no_name_category in Hkey.
  - intros x. rewrite (category_append_other "methods" "classes") by congruence.
    apply Hl.
  - intros x [Hx|[_ ->]]%category_append.
    + destruct (Hm x Hx) as (c' & m' & -> & Hc'). exists c', m'. split; [done|].
      by apply category_append_mono.
    + exists c, m. split; [done|]. by apply category_append_mono.
Qed.

Lemma named_class_match d m : names_class m → named d → named (class_match d m).
Proof.
  intros Hm Hd. destruct m as [s|l]; simpl.
  - case_decide; [assumption|]. destruct Hm. by apply named_add_class.
  - destruct l as [|a [|b [|c l]]]; try assumption.
    case_decide; [assumption|]. destruct Hm as [Ha Hlen].
    apply named_add_method.
    + apply category_append_new. by destruct Hd.
    + by apply named_add_class.
Qed.

(** The patterns, one by one. *)

Lemma one_identifier fl r g src x :
  linear_groups r = Some [(1, g)] → ngroups r = 1 → only fl is_word g = true →
  FStr x ∈ findall r src fl → identifier x ∧ min_len g ≤ PyStr.len x.
Proof.
  intros Hlin Hn Ho Hx.
  destruct (found_one_group fl r g src _ Hlin Hn Hx) as (w & [= ->] & Hw).
  split; [by apply (identifier_str fl g)|].
  rewrite len_str. by apply (min_len_sound fl).
Qed.

Lemma sobject_name_word_I : only flag_I is_word sobject_name = true.
Proof. vm_compute. reflexivity. Qed.

Lemma sobject_name_word_IS : only flag_IS is_word sobject_name = true.
Proof. vm_compute. reflexivity. Qed.

Lemma class_name_word : only no_flags is_word class_name = true.
Proof. vm_compute. reflexivity. Qed.

Lemma soql_names_object pattern src f :
  pattern ∈ soql_patterns → f ∈ findall pattern src flag_IS → names_object f.
Proof.
  intros Hp Hf. unfold soql_patterns in Hp.
  assert (Htwo : ∀ r, linear_groups r = Some [(1, lazy_star Dot); (2, sobject_name)] →
            ngroups r = 2 → f ∈ findall r src flag_IS → names_object f).
  { intros r Hlin Hn Hr.
    destruct (found_two_groups _ r _ _ src f Hlin Hn Hr) as (w1 & w2 & -> & _ & Hw).
    simpl. apply (identifier_str flag_IS sobject_name); [apply sobject_name_word_IS|done]. }
  do 3 (apply elem_of_cons in Hp as [->|Hp]; [refine (Htwo _ _ _ Hf); reflexivity|]).
  apply elem_of_cons in Hp as [->|Hp]; [|by apply elem_of_nil in Hp].
  assert (Hone : ∃ w, f = FStr (PyStr.str w) ∧ lang flag_IS sobject_name w)
    by (refine (found_one_group _ _ sobject_name src f _ _ Hf); reflexivity).
  destruct Hone as (w & -> & Hw).
  simpl. apply (identifier_str flag_IS sobject_name); [apply sobject_name_word_IS|done].
Qed.

Lemma dml_identifier pattern src x :
  pattern ∈ dml_patterns → x ∈ texts (findall pattern src flag_I) → identifier x.
Proof.
  intros Hp Hx%elem_of_texts. unfold dml_patterns in Hp.
  do 7 (apply elem_of_cons in Hp as [->|Hp];
    [refine (proj1 (one_identifier flag_I _ sobject_name src x _ _ _ Hx));
     [reflexivity..|apply sobject_name_word_I]|]).
  by apply elem_of_nil in Hp.
Qed.

Lemma class_names_class pattern src f :
  pattern ∈ class_patterns → f ∈ findall pattern src no_flags → names_class f.
Proof.
  intros Hp Hf. unfold class_patterns in Hp.
  apply elem_of_cons in Hp as [->|Hp].
  { assert (Htwo : ∃ w1 w2, f = FTuple [PyStr.str w1; PyStr.str w2]
              ∧ lang no_flags class_name w1
              ∧ lang no_flags (Seq alpha (star ident_char)) w2)
      by (refine (found_two_groups _ _ _ _ src f _ _ Hf); reflexivity).
    destruct Htwo as (w1 & w2 & -> & Hw1 & _).
    simpl. split; [apply (identifier_str no_flags class_name); [apply class_name_word|done]|].
    rewrite len_str. apply (min_len_sound no_flags class_name w1 Hw1). }
  assert (Hone : ∀ r g, linear_groups r = Some [(1, g)] → ngroups r = 1 →
            only no_flags is_word g = true → 2 ≤ min_len g →
            f ∈ findall r src no_flags → names_class f).
  { intros r g Hlin Hn Ho Hmin Hr.
    destruct (found_one_group _ r g src f Hlin Hn Hr) as (w & -> & Hw).
    simpl. split; [by apply (identifier_str no_flags g)|].
    rewrite len_str. pose proof (min_len_sound no_flags g w Hw). lia. }
  do 5 (apply elem_of_cons in Hp as [->|Hp];
    [refine (Hone _ _ _ _ _ _ Hf);
     [reflexivity|reflexivity|vm_compute; reflexivity|simpl; lia]|]).
  by apply elem_of_nil in Hp.
Qed.

Lemma plain_identifier patterns src pattern x :
  forallb (one_name_group no_flags) patterns = true →
  pattern ∈ patterns → x ∈ texts (findall pattern src no_flags) → identifier x.
Proof.
  rewrite forallb_forall. intros Hall Hp%list_elem_of_In Hx%elem_of_texts.
  specialize (Hall pattern Hp). unfold one_name_group in Hall.
  destruct (linear_groups pattern) as [[|[[|[|i]] g] [|? ?]]|] eqn:Hlin; try done.
  apply andb_true_iff in Hall as [Hn%Nat.eqb_eq Ho].
  by apply (one_identifier no_flags pattern g src x Hlin Hn Ho).
Qed.

Lemma custom_settings_named :
  forallb (one_name_group no_flags) custom_settings_patterns = true.
Proof. vm_compute. reflexivity. Qed.

Lemma labels_named : forallb (one_name_group no_flags) label_patterns = true.
Proof. vm_compute. reflexivity. Qed.

Lemma static_resources_named :
  forallb (one_name_group no_flags) static_resource_patterns = true.
Proof. vm_compute. reflexivity. Qed.

Lemma named_plain_step k src d pattern :
  k ≠ "classes" → k ≠ "methods" →
  (k ∈ identifier_categories →
   ∀ x, x ∈ texts (findall pattern src no_flags) → identifier x) →
  named d → named (plain_step k src d pattern).
Proof. intros H1 H2 Hx. by apply named_extend. Qed.

Lemma named_raw src : named (raw_dependencies src).
Proof.
  unfold raw_dependencies.
  apply fold_left_invariant_in.
  { intros d pattern Hp. apply named_plain_step;
      [congruence..|]. intros _ x.
    apply (plain_identifier static_resource_patterns); [apply static_resources_named|done]. }
  apply fold_left_invariant_in.
  { intros d pattern Hp. apply named_plain_step;
      [congruence..|]. intros _ x.
    apply (plain_identifier label_patterns); [apply labels_named|done]. }
  apply fold_left_invariant_in.
  { intros d pattern Hp. apply named_plain_step; [congruence..|].
    intros Hk. apply no_name_category in Hk; [done|by left]. }
  apply fold_left_invariant_in.
  { intros d pattern Hp. apply named_plain_step; [congruence..|].
    intros Hk. apply no_name_category in Hk; [done|right; by left]. }
  apply fold_left_invariant_in.
  { intros d pattern Hp. apply named_plain_step;
      [congruence..|].
    intros _ x.
    apply (plain_identifier custom_settings_patterns); [apply custom_settings_named|done]. }
  apply fold_left_invariant_in.
  { intros d pattern Hp Hd. unfold class_step.
    apply fold_left_invariant_in; [|assumption].
    intros d' f Hf. apply named_class_match. by apply (class_names_class pattern src). }
  apply fold_left_invariant_in.
  { intros d pattern Hp. apply named_plain_step; [congruence..|].
    by intros ?%fields_is_no_name_category. }
  apply fold_left_invariant_in.
  { intros d pattern Hp. apply named_extend; [congruence..|].
    intros _ x. by apply dml_identifier. }
  apply fold_left_invariant_in.
  { intros d pattern Hp Hd. unfold soql_step.
    apply fold_left_invariant_in; [|assumption].
    intros d' f Hf. apply named_soql_match. by apply (soql_names_object pattern src). }
  split; [apply initial_keys; right; by left|]. split; [|split].
  - intros key x Hkey. unfold identifier_categories in Hkey.
    repeat (apply elem_of_cons in Hkey as [->|Hkey];
      [unfold category; vm_compute; by intros ?%elem_of_nil|]).
    by apply elem_of_nil in Hkey.
  - intros x. unfold category. vm_compute. by intros ?%elem_of_nil.
  - intros x. unfold category. vm_compute. by intros ?%elem_of_nil.
Qed.

(** X20.  Every entry of the objects, classes, custom_settings,
    custom_labels and static_resources categories is a text of letters,
    digits and underscores with at least two characters. *)
Theorem extracted_names_are_identifiers (src name kind key x : string) :
  key ∈ identifier_categories →
  x ∈ category (extract_comprehensive_dependencies src name kind) key →
  identifier x ∧ 2 ≤ PyStr.len x.
Proof.
  intros Hkey. rewrite category_clean. intros [Hx Hkeep]%elem_of_clean.
  destruct (named_raw src) as (_ & Hid & _). split; [by apply (Hid key)|].
  by apply keep_length.
Qed.

Lemma extracted_names_are_identifiers_witness :
  identifier "Account" ∧ 2 ≤ PyStr.len "Account".
Proof.
  apply (extracted_names_are_identifiers "new Account();" "Demo" "ApexClass"
           "objects" "Account").
  - unfold identifier_categories. by left.
  - assert (H : category (extract_comprehensive_dependencies "new Account();"
                            "Demo" "ApexClass") "objects" = ["Account"])
      by (vm_compute; reflexivity).
    rewrite H. by left.
Defined.

Lemma identifier_free_of_dot c : identifier c → free_of "." c.
Proof.
  unfold identifier, free_of. rewrite Forall_forall. intros H Hdot.
  by apply H in Hdot.
Qed.

Lemma split1_l_first sep cur a b :
  sep ∉ a →
  PyStr.split1_l sep cur (a ++ sep :: b) = Some (PyStr.str (rev cur ++ a), PyStr.str b).
Proof.
  revert cur. induction a as [|c a IH]; intros cur Ha; simpl.
  - by rewrite Ascii.eqb_refl, app_nil_r.
  - apply not_elem_of_cons in Ha as [Hc Ha].
    destruct (Ascii.eqb_spec c sep) as [->|_]; [done|].
    rewrite IH by done. simpl. by rewrite <- app_assoc.
Qed.

Lemma dotted_first a b mk :
  free_of "." a → dotted (a +:+ "." +:+ b) mk = [mk a b].
Proof.
  intros Ha. unfold dotted, PyStr.split1. rewrite chars_app.
  change (PyStr.chars ("." +:+ b)) with ("."%char :: PyStr.chars b).
  rewrite split1_l_first by done. simpl. by rewrite !str_chars.
Qed.

(** Every entry of the methods category is a qualified call
    [Class.method] whose class is an identifier and an entry of the classes
    category of the same record; the list of edges proposed for a class
    has a CALLS_METHOD edge for the call and a DEPENDS_ON_CLASS edge to
    the same target. *)
Lemma method_calls_pair_proposed (src name kind class_id x : string) :
  let dependencies := extract_comprehensive_dependencies src name kind in
  x ∈ category dependencies "methods" →
  ∃ c m, x = c +:+ "." +:+ m ∧ identifier c
         ∧ c ∈ category dependencies "classes"
         ∧ edge_d class_id ("class_" +:+ c) "DEPENDS_ON_CLASS"
             "Calls methods or instantiates class"
           ∈ class_relationships class_id dependencies
         ∧ edge_d class_id ("class_" +:+ c) "CALLS_METHOD" ("Calls method " +:+ m)
           ∈ class_relationships class_id dependencies.
Proof.
  intros dependencies Hx.
  assert (Hraw : ∃ c m, x = c +:+ "." +:+ m ∧ identifier c
                        ∧ c ∈ category dependencies "classes").
  { subst dependencies. rewrite category_clean in Hx.
    apply elem_of_clean in Hx as [Hx _].
    destruct (named_raw src) as (_ & Hid & Hlen & Hm).
    destruct (Hm x Hx) as (c & m & -> & Hc). exists c, m. split; [done|].
    split; [apply (Hid "classes"); [right; by left|done]|].
    rewrite category_clean. apply elem_of_clean. split; [done|].
    by apply keep_spec, Hlen. }
  destruct Hraw as (c & m & -> & Hid & Hc). exists c, m.
  revert Hx Hc. generalize dependencies. clear dependencies. intros d Hx Hc.
  split; [done|]. split; [done|]. split; [done|].
  unfold class_relationships. split.
  - apply elem_of_app. right. apply elem_of_app. left.
    apply list_elem_of_fmap. by exists c.
  - do 3 (apply elem_of_app; right). apply elem_of_app. left.
    apply (elem_of_flat_map _ _ (c +:+ "." +:+ m)); [done|].
    rewrite dotted_first by (by apply identifier_free_of_dot). by left.
Qed.

(** X22.  A trigger whose header names an object is recorded with that
    object and with the events of the header, and has a HAS_TRIGGER edge
    from the object: the name read from the header is an identifier that
    is not empty, so it is never dropped as a falsy value. *)
Theorem trigger_object_is_kept (dir : string) (trigger_file : source_file)
    (source_code : string) (metadata : value) (object_name : string) :
  load trigger_file = inr (source_code, metadata) →
  extract_trigger_object source_code = Some object_name →
  identifier object_name ∧ 1 ≤ PyStr.len object_name
  ∧ ∃ trigger_data,
      out (process_trigger dir trigger_file) = Some trigger_data
      ∧ t_object trigger_data = Some object_name
      ∧ t_trigger_events trigger_data = extract_trigger_events source_code
      ∧ edge_d ("object_" +:+ object_name) (t_id trigger_data) "HAS_TRIGGER"
          ("Trigger events: "
           +:+ PyStr.join ", " (extract_trigger_events source_code))
        ∈ relationships (eff (process_trigger dir trigger_file)).
Proof.
  intros Hload Hobject.
  destruct (trigger_object_is_an_identifier _ _ Hobject) as (Hid & Hlen & Htruthy).
  split; [done|]. split; [done|].
  unfold out, eff. rewrite process_trigger_init, Hload. cbv zeta.
  rewrite Hobject, Htruthy.
  generalize (extract_comprehensive_dependencies source_code
                (PyStr.stem (sf_name trigger_file)) "ApexTrigger").
  intros d. eexists. split; [reflexivity|]. cbn [t_object t_trigger_events t_id].
  split; [done|]. split; [done|].
  cbn [fst snd counted relationships]. unfold has_trigger_edge. rewrite Htruthy.
  by left.
Qed.

Lemma trigger_object_is_kept_witness :
  let source_code := "trigger T on Account (before insert) {}" in
  let trigger_file :=
    {| sf_name := "T.trigger"; sf_read := ReadOk source_code; sf_meta := None |} in
  identifier "Account" ∧ 1 ≤ PyStr.len "Account"
  ∧ ∃ trigger_data,
      out (process_trigger "triggers" trigger_file) = Some trigger_data
      ∧ t_object trigger_data = Some "Account"
      ∧ t_trigger_events trigger_data = extract_trigger_events source_code
      ∧ edge_d ("object_" +:+ "Account") (t_id trigger_data) "HAS_TRIGGER"
          ("Trigger events: "
           +:+ PyStr.join ", " (extract_trigger_events source_code))
        ∈ relationships (eff (process_trigger "triggers" trigger_file)).
Proof.
  intros source_code trigger_file.
  apply (trigger_object_is_kept "triggers" trigger_file source_code empty_metadata
           "Account").
  - reflexivity.
  - vm_compute. reflexivity.
Defined.

(** ** Ids and names of the records of a run *)

Lemma ids_of_objects t :
  map o_id (out (objects_pass t)) = map (λ od, "object_" +:+ od_name od) (st_objects t)
  ∧ map o_name (out (objects_pass t)) = map od_name (st_objects t).
Proof.
  rewrite out_objects_pass, !map_map. split; apply map_ext; intros od;
    by destruct (object_profile (path_join (source_dir t) "objects") od)
      as (? & ? & _).
Qed.

Lemma ids_of_classes t :
  map k_id (out (classes_pass t))
  = map (λ f, "class_" +:+ PyStr.stem (sf_name f)) (List.filter loads (st_classes t)).
Proof.
  unfold classes_pass. rewrite out_collect_flat by (intros; framed).
  induction (st_classes t) as [|f l IH]; [done|]. cbn [flat_map List.filter].
  rewrite map_app, IH. unfold out at 1, loads. rewrite process_apex_class_init.
  by destruct (load f) as [e|[source_code metadata]].
Qed.

Lemma ids_of_triggers t :
  map t_id (out (triggers_pass t))
  = map (λ f, "trigger_" +:+ PyStr.stem (sf_name f)) (List.filter loads (st_triggers t)).
Proof.
  unfold triggers_pass. rewrite out_collect_flat by (intros; framed).
  induction (st_triggers t) as [|f l IH]; [done|]. cbn [flat_map List.filter].
  rewrite map_app, IH. unfold out at 1, loads. rewrite process_trigger_init.
  by destruct (load f) as [e|[source_code metadata]].
Qed.

Lemma NoDup_prefixed {A} (p : string) (g : A → string) (f : A → bool) (l : list A) :
  NoDup (map g l) → NoDup (map (λ x, p +:+ g x) (List.filter f l)).
Proof.
  intros Hl. rewrite <- (map_map g (λ n, p +:+ n)).
  apply NoDup_map_inj; [intros x y; apply append_inj_r|].
  induction l as [|x l IH]; simpl; [constructor|].
  apply NoDup_cons in Hl as [Hx Hl]. destruct (f x); [|by apply IH].
  simpl. apply NoDup_cons. split; [|by apply IH].
  intros (y & Hy & [Hin _]%elem_of_filter_bool)%list_elem_of_fmap.
  apply Hx, list_elem_of_fmap. by exists y.
Qed.

Lemma filter_all_true {A} (l : list A) : List.filter (λ _, true) l = l.
Proof. induction l as [|x l IH]; simpl; [done|]. by rewrite IH. Qed.

(** X23.  Object directories with distinct names yield object records with
    distinct ids (and the names of the directories, in order); class
    files with distinct stems yield class records with distinct ids, and
    so do trigger files.  An id of one of the three kinds is never an id
    of another. *)
Theorem record_ids_are_distinct (t : source_tree) :
  NoDup (map od_name (st_objects t)) →
  NoDup (map (λ f, PyStr.stem (sf_name f)) (st_classes t)) →
  NoDup (map (λ f, PyStr.stem (sf_name f)) (st_triggers t)) →
  let md := (run t).1 in
  map o_name (am_objects md) = map od_name (st_objects t)
  ∧ NoDup (map o_id (am_objects md) ++ map k_id (am_classes md)
           ++ map t_id (am_triggers md)).
Proof.
  intros Hobjects Hclasses Htriggers md. subst md. rewrite run_eq.
  cbn [fst am_objects am_classes am_triggers].
  destruct (ids_of_objects t) as [-> ->]. rewrite ids_of_classes, ids_of_triggers.
  split; [done|].
  assert (Hlit : ∀ p q x y, String.get 0 p ≠ String.get 0 q →
            p ≠ "" → q ≠ "" → p +:+ x ≠ q +:+ y).
  { intros [|a p] [|b q] x y Hpq Hp Hq; try done. simpl in Hpq. intros [= -> _]. done. }
  apply NoDup_app. split; [|split].
  - pose proof (NoDup_prefixed "object_" od_name (λ _, true) _ Hobjects) as H.
    by rewrite filter_all_true in H.
  - intros x (od & -> & _)%list_elem_of_fmap [Hx|Hx]%elem_of_app;
      apply list_elem_of_fmap in Hx as (f & Hx & _); revert Hx; by apply Hlit.
  - apply NoDup_app. split; [by apply NoDup_prefixed|].
    split; [|by apply NoDup_prefixed].
    intros x (f & -> & _)%list_elem_of_fmap (f' & Hx & _)%list_elem_of_fmap.
    revert Hx. by apply Hlit.
Qed.

Lemma record_ids_are_distinct_witness :
  let md := (run Examples.broken_tree).1 in
  map o_name (am_objects md) = map od_name (st_objects Examples.broken_tree)
  ∧ NoDup (map o_id (am_objects md) ++ map k_id (am_classes md)
           ++ map t_id (am_triggers md)).
Proof.
  apply (record_ids_are_distinct Examples.broken_tree).
  - apply NoDup_singleton.
  - apply NoDup_nil_2.
  - apply NoDup_singleton.
Defined.

(** *** The classes a trigger names *)

Lemma filter_class_block (ty : string) (id : string) (classes : list string) :
  List.filter (has_type ty)
    (map (λ cls,
       if PyStr.contains "Handler" cls || PyStr.contains "Helper" cls then
         edge_d id ("class_" +:+ cls) "DELEGATES_TO_HANDLER"
           "Trigger delegates business logic to handler class"
       else
         edge_d id ("class_" +:+ cls) "CALLS_CLASS"
           "Trigger calls methods in this class") classes)
  = if (ty =? "DELEGATES_TO_HANDLER")%string then
      map (λ cls, edge_d id ("class_" +:+ cls) "DELEGATES_TO_HANDLER"
                    "Trigger delegates business logic to handler class")
        (List.filter is_handler classes)
    else if (ty =? "CALLS_CLASS")%string then
      map (λ cls, edge_d id ("class_" +:+ cls) "CALLS_CLASS"
                    "Trigger calls methods in this class")
        (List.filter (λ cls, negb (is_handler cls)) classes)
    else [].
Proof.
  destruct (String.eqb_spec ty "DELEGATES_TO_HANDLER") as [->|H1];
    [|destruct (String.eqb_spec ty "CALLS_CLASS") as [->|H2]];
    (induction classes as [|cls classes IH]; [done|]);
    cbn [map List.filter]; rewrite IH; unfold is_handler, has_type;
    destruct (PyStr.contains "Handler" cls || PyStr.contains "Helper" cls);
    cbn [negb r_type edge_d]; try done.
  - by destruct (String.eqb_spec "DELEGATES_TO_HANDLER" ty) as [<-|].
  - by destruct (String.eqb_spec "CALLS_CLASS" ty) as [<-|].
Qed.

(** The list of edges proposed for a trigger has exactly one edge to each
    class of the classes category: DELEGATES_TO_HANDLER when the name
    contains [Handler] or [Helper], CALLS_CLASS otherwise. *)
Lemma trigger_class_edges_proposed (trigger_id : string) (dependencies : deps)
    (trigger_object : option string) :
  let edges := trigger_relationships trigger_id dependencies trigger_object in
  let classes := category dependencies "classes" in
  List.filter (has_type "DELEGATES_TO_HANDLER") edges
  = map (λ cls, edge_d trigger_id ("class_" +:+ cls) "DELEGATES_TO_HANDLER"
                  "Trigger delegates business logic to handler class")
      (List.filter is_handler classes)
  ∧ List.filter (has_type "CALLS_CLASS") edges
    = map (λ cls, edge_d trigger_id ("class_" +:+ cls) "CALLS_CLASS"
                    "Trigger calls methods in this class")
        (List.filter (λ cls, negb (is_handler cls)) classes)
  ∧ length (List.filter (has_type "DELEGATES_TO_HANDLER") edges)
    + length (List.filter (has_type "CALLS_CLASS") edges)
    = length classes.
Proof.
  intros edges classes.
  assert (H : ∀ ty, ty = "DELEGATES_TO_HANDLER" ∨ ty = "CALLS_CLASS" →
            List.filter (has_type ty) edges
            = List.filter (has_type ty)
                (map (λ cls,
                   if PyStr.contains "Handler" cls || PyStr.contains "Helper" cls then
                     edge_d trigger_id ("class_" +:+ cls) "DELEGATES_TO_HANDLER"
                       "Trigger delegates business logic to handler class"
                   else
                     edge_d trigger_id ("class_" +:+ cls) "CALLS_CLASS"
                       "Trigger calls methods in this class") classes)).
  { intros ty Hty. subst edges classes. unfold trigger_relationships.
    rewrite !List.filter_app.
    match goal with
    | |- _ ++ ?b ++ ?c = _ => assert (Hb : b = []); [|assert (Hc : c = [])]
    end.
    - apply filter_map_none. intros obj. by destruct Hty as [-> | ->].
    - apply filter_flat_map_none. intros field. apply filter_dotted_none.
      intros a b. by destruct Hty as [-> | ->].
    - by rewrite Hb, Hc, !app_nil_r. }
  rewrite !H by auto. rewrite !filter_class_block. simpl.
  split; [done|]. split; [done|]. rewrite !length_map.
  clear H. generalize classes. clear. intros l.
  induction l as [|cls l IH]; cbn [List.filter length]; [done|].
  destruct (is_handler cls); cbn [negb length]; lia.
Qed.

(** ** Whether a pattern matches does not depend on its groups *)

Lemma is_Some_or_else {A} (a b : option A) :
  is_Some (or_else a b) ↔ is_Some a ∨ is_Some b.
Proof.
  destruct a as [x|]; simpl.
  - split; [by left|by eexists].
  - split; [by right|]. by intros [[? [=]]|?].
Qed.

Lemma same_position_advance s s' :
  same_position s s' → same_position (advance s) (advance s').
Proof.
  intros [Hb Ha]. unfold advance, same_position. rewrite Ha.
  destruct (after s') as [|c rest] eqn:E; [split; [done|by rewrite Ha, E]|].
  cbn [before after]. by rewrite Hb.
Qed.

Lemma step_if_succeeds p s s' k k' :
  same_position s s' → succeeds_with k k' →
  is_Some (step_if p s k) → is_Some (step_if p s' k').
Proof.
  intros Hs Hk. pose proof (same_position_advance s s' Hs) as Hadv.
  unfold step_if. destruct Hs as [Hb Ha]. rewrite Ha.
  destruct (after s') as [|c rest] eqn:E; [done|]. destruct (p c); [|done].
  by apply Hk.
Qed.

Lemma at_boundary_same s s' : same_position s s' → at_boundary s = at_boundary s'.
Proof. intros [Hb Ha]. unfold at_boundary. by rewrite Hb, Ha. Qed.

Lemma star_loop_succeeds body body' g k k' n s s' :
  (∀ s s' k k', same_position s s' → succeeds_with k k' →
     is_Some (body s k) → is_Some (body' s' k')) →
  same_position s s' → succeeds_with k k' →
  is_Some (star_loop body g k n s) → is_Some (star_loop body' g k' n s').
Proof.
  intros Hbody. revert s s'. induction n as [|n IH]; intros s s' Hs Hk.
  - simpl. by apply Hk.
  - rewrite !star_loop_S. cbv zeta.
    assert (Hmore : is_Some (body s (λ x, if length (after x) <? length (after s)
                                          then star_loop body g k n x else None)) →
                    is_Some (body' s' (λ x, if length (after x) <? length (after s')
                                            then star_loop body' g k' n x else None))).
    { apply Hbody; [done|]. intros a b Hab. destruct Hs as [_ Has].
      pose proof Hab as [Hb Ha]. rewrite <- Has, <- Ha.
      destruct (_ <? _); [|by intros [? [=]]]. by apply IH. }
    pose proof (Hk s s' Hs) as Hstop.
    destruct g; rewrite !is_Some_or_else; intros [H|H]; auto.
Qed.

(** Patterns that differ in their groups only match at the same places,
    whatever groups are set where the match starts. *)
Lemma similar_succeeds fl r r' :
  similar r r' →
  ∀ s s' k k', same_position s s' → succeeds_with k k' →
    is_Some (mt fl r s k) → is_Some (mt fl r' s' k').
Proof.
  induction 1 as [|c| |neg items| |r1 r1' r2 r2' _ IH1 _ IH2
                  |r1 r1' r2 r2' _ IH1 _ IH2|g r r' _ IH|i r r' _ IH|i r r' _ IH];
    intros s s' k k' Hs Hk.
  - simpl. by apply Hk.
  - by apply step_if_succeeds.
  - by apply step_if_succeeds.
  - by apply step_if_succeeds.
  - cbn [mt]. rewrite (at_boundary_same s s' Hs).
    destruct (at_boundary s'); [|done]. by apply Hk.
  - cbn [mt]. apply IH1; [done|]. intros a b Hab. by apply IH2.
  - cbn [mt]. rewrite !is_Some_or_else. intros [H|H]; [left|right].
    + by apply (IH1 s s' k k').
    + by apply (IH2 s s' k k').
  - rewrite !mt_star. pose proof Hs as [_ Ha]. rewrite Ha.
    by apply star_loop_succeeds.
  - cbn [mt]. apply IH; [done|]. intros a b Hab. apply Hk.
    destruct Hab. by split.
  - cbn [mt]. apply IH; [done|]. intros a b Hab. apply Hk.
    destruct Hab. by split.
Qed.

Lemma similar_refl r : similar r r.
Proof.
  induction r as [|c| |neg items|r1 IH1 r2 IH2|r1 IH1 r2 IH2|g r IH|i r IH|].
  - apply similar_Eps.
  - apply similar_Lit.
  - apply similar_Dot.
  - apply similar_Class.
  - by apply similar_Seq.
  - by apply similar_Alt.
  - by apply similar_Star.
  - by apply similar_Group_l, similar_Group_r.
  - apply similar_WordB.
Qed.

Lemma succeeds_with_Some k : succeeds_with k Some.
Proof. intros a b _ _. by eexists. Qed.

(** A pattern that leads to another matches only where the other does. *)
Lemma leads_succeeds fl r r' :
  leads r r' →
  ∀ s s' k, same_position s s' →
    is_Some (mt fl r s k) → is_Some (mt fl r' s' Some).
Proof.
  induction 1 as [r r' Hsim|r r' rest Hsim|r1 r1' r2 r2' Hsim _ IH]; intros s s' k Hs.
  - apply (similar_succeeds fl r r' Hsim); [done|apply succeeds_with_Some].
  - cbn [mt]. apply (similar_succeeds fl r r' Hsim); [done|apply succeeds_with_Some].
  - cbn [mt]. apply (similar_succeeds fl r1 r1' Hsim); [done|].
    intros a b Hab. by apply IH.
Qed.

Lemma search_from_leads fl r r' bef aft :
  leads r r' →
  is_Some (search_from fl r bef aft) → is_Some (search_from fl r' bef aft).
Proof.
  intros Hleads. revert bef. induction aft as [|c aft IH]; intros bef; simpl.
  - destruct (mt fl r _ _) eqn:E; [|by intros [? [=]]]. intros _.
    destruct (leads_succeeds fl r r' Hleads _ _ Some (conj eq_refl eq_refl)
                (ex_intro _ _ E)) as [e' ->].
    by eexists.
  - destruct (mt fl r' _ _) eqn:E'; [by eexists|].
    destruct (mt fl r _ _) eqn:E; [|apply IH]. intros _.
    destruct (leads_succeeds fl r r' Hleads _ _ Some (conj eq_refl eq_refl)
                (ex_intro _ _ E)) as [e' He'].
    rewrite He' in E'. discriminate E'.
Qed.

(** The header pattern of the events ends a header pattern of the
    object. *)
Lemma events_pattern_leads : leads trigger_events_pattern trigger_object_pattern.
Proof.
  unfold trigger_events_pattern, trigger_object_pattern. cbn [seqs].
  do 6 (apply leads_Seq; [apply similar_refl|]).
  apply leads_Seq; [apply similar_Group_r, similar_refl|].
  apply leads_Seq; [apply similar_refl|].
  apply leads_prefix, similar_refl.
Qed.

(** A source in which the events of a header are found has a header
    object. *)
Lemma events_need_an_object source_code :
  extract_trigger_object source_code = None → extract_trigger_events source_code = [].
Proof.
  unfold extract_trigger_object, extract_trigger_events, search.
  destruct (search_from flag_I trigger_events_pattern [] _) as [m|] eqn:E; [|done].
  destruct (search_from_leads flag_I _ _ [] (PyStr.chars source_code)
              events_pattern_leads (ex_intro _ _ E)) as [m' ->].
  discriminate.
Qed.

(** X25.  The events of a trigger record are always the events read from
    its source: [process_trigger] stores them only when the header names
    an object, but a source without a header object has no header events
    either, since the pattern of the events begins as the pattern of the
    object does. *)
Theorem trigger_events_are_always_recorded (dir : string) (trigger_file : source_file)
    (source_code : string) (metadata : value) :
  load trigger_file = inr (source_code, metadata) →
  ∃ trigger_data,
    out (process_trigger dir trigger_file) = Some trigger_data
    ∧ t_trigger_events trigger_data = extract_trigger_events source_code
    ∧ t_object trigger_data = extract_trigger_object source_code
    ∧ (extract_trigger_object source_code = None →
       extract_trigger_events source_code = []).
Proof.
  intros Hload. unfold out. rewrite process_trigger_init, Hload. cbv zeta.
  eexists. split; [reflexivity|]. cbn [t_trigger_events t_object].
  destruct (extract_trigger_object source_code) as [object_name|] eqn:Hobject.
  - destruct (trigger_object_is_an_identifier _ _ Hobject) as (_ & _ & ->). done.
  - cbn [truthy]. rewrite (events_need_an_object _ Hobject). done.
Qed.

Lemma trigger_events_are_always_recorded_witness :
  let source_code := "trigger T on Account (before insert, after update) {}" in
  let trigger_file :=
    {| sf_name := "T.trigger"; sf_read := ReadOk source_code; sf_meta := None |} in
  ∃ trigger_data,
    out (process_trigger "triggers" trigger_file) = Some trigger_data
    ∧ t_trigger_events trigger_data = extract_trigger_events source_code
    ∧ t_object trigger_data = extract_trigger_object source_code
    ∧ (extract_trigger_object source_code = None →
       extract_trigger_events source_code = []).
Proof.
  intros source_code trigger_file.
  exact (trigger_events_are_always_recorded "triggers" trigger_file source_code
           empty_metadata eq_refl).
Defined.

(** ** The events of a trigger header *)

Lemma elem_of_rev {A} (x : A) (l : list A) : x ∈ rev l ↔ x ∈ l.
Proof. by rewrite !list_elem_of_In, <- in_rev. Qed.

Lemma lstrip_l_no_leading_space l : no_leading_space (PyStr.lstrip_l l).
Proof.
  induction l as [|c l IH]; simpl; [done|].
  destruct (PyStr.is_space c) eqn:E; [done|]. exact E.
Qed.

Lemma lstrip_l_suffix l : ∃ pre, l = pre ++ PyStr.lstrip_l l.
Proof.
  induction l as [|c l [pre IH]]; simpl; [by exists []|].
  destruct (PyStr.is_space c); [|by exists []].
  exists (c :: pre). simpl. by rewrite <- IH.
Qed.

Lemma lstrip_l_subset l c : c ∈ PyStr.lstrip_l l → c ∈ l.
Proof.
  destruct (lstrip_l_suffix l) as [pre H]. intros Hc. rewrite H.
  apply elem_of_app. by right.
Qed.

Lemma strip_trimmed s : trimmed (PyStr.strip s).
Proof.
  unfold trimmed, PyStr.strip. rewrite chars_str, rev_involutive.
  split; [|apply lstrip_l_no_leading_space].
  pose proof (lstrip_l_no_leading_space (PyStr.chars s)) as Hx.
  destruct (lstrip_l_suffix (rev (PyStr.lstrip_l (PyStr.chars s)))) as [pre Hy].
  revert Hx Hy. generalize (PyStr.lstrip_l (PyStr.chars s)). intros x Hx.
  generalize (PyStr.lstrip_l (rev x)). intros y Hy.
  assert (Hxy : x = rev y ++ rev pre).
  { by rewrite <- (rev_involutive x), Hy, rev_app_distr. }
  destruct (rev y) as [|c l] eqn:E; [done|]. rewrite Hxy in Hx. exact Hx.
Qed.

Lemma strip_subset s c : c ∈ PyStr.chars (PyStr.strip s) → c ∈ PyStr.chars s.
Proof.
  unfold PyStr.strip. rewrite chars_str.
  rewrite elem_of_rev. intros Hc%lstrip_l_subset.
  rewrite elem_of_rev in Hc. by apply lstrip_l_subset.
Qed.

Lemma split_l_pieces sep cur l x :
  x ∈ PyStr.split_l sep cur l →
  ∃ a, x = PyStr.str a ∧ (sep ∉ cur → sep ∉ a) ∧ ∀ c, c ∈ a → c ∈ cur ∨ c ∈ l.
Proof.
  revert cur. induction l as [|c l IH]; intros cur; simpl.
  - intros ->%list_elem_of_singleton. exists (rev cur). split; [done|].
    split; [by rewrite elem_of_rev|]. intros c. rewrite elem_of_rev. by left.
  - destruct (Ascii.eqb_spec c sep) as [->|Hne].
    + intros [->|Hx]%elem_of_cons.
      * exists (rev cur). split; [done|].
        split; [by rewrite elem_of_rev|]. intros c. rewrite elem_of_rev. by left.
      * apply IH in Hx as (a & -> & Hsep & Hsub). exists a. split; [done|].
        split; [intros _; apply Hsep, not_elem_of_nil|].
        intros c [[]%elem_of_nil|Hc]%Hsub. right. by right.
    + intros (a & -> & Hsep & Hsub)%IH. exists a. split; [done|]. split.
      * intros Hcur. apply Hsep. apply not_elem_of_cons. split; [congruence|done].
      * intros c' [[->|Hc]%elem_of_cons|Hc]%Hsub; [right; by left|by left|right; by right].
Qed.

Lemma events_group source_code m :
  search trigger_events_pattern source_code flag_I = Some m →
  ∃ w, group m 1 = PyStr.str w ∧ ")"%char ∉ w.
Proof.
  unfold search. intros (cs & Hcaps & Hcapt)%search_from_sound.
  assert (Hlin : linear_groups trigger_events_pattern
                 = Some [(1, plus (Class true [CChar ")"]))]) by reflexivity.
  apply (capt_linear _ _ _ _ Hlin) in Hcapt. simpl in Hcapt.
  apply Forall2_cons_inv_l in Hcapt as ([i t] & cs' & [Hi (w & Ht & Hw)] & Hnil & ->).
  apply Forall2_nil_inv_l in Hnil as ->. simpl in Hi, Ht, Hw. subst i t.
  exists w. split; [unfold group; by rewrite Hcaps|].
  assert (Honly : only flag_I (λ c, negb (Ascii.eqb c ")"))
                    (plus (Class true [CChar ")"])) = true)
    by (vm_compute; reflexivity).
  pose proof (only_sound _ _ _ w Honly Hw) as Hall.
  rewrite Forall_forall in Hall. intros Hin. specialize (Hall _ Hin). done.
Qed.

(** X26.  The events read from a trigger header are the texts between the
    commas of the parenthesized list, trimmed: no event contains a comma
    or a closing parenthesis, none begins or ends with white space, and
    there is at least one event exactly when a header is found. *)
Theorem trigger_events_are_clean (source_code : string) :
  (∀ event, event ∈ extract_trigger_events source_code →
     free_of "," event ∧ free_of ")" event ∧ trimmed event)
  ∧ (extract_trigger_events source_code = []
     ↔ search trigger_events_pattern source_code flag_I = None).
Proof.
  unfold extract_trigger_events.
  destruct (search trigger_events_pattern source_code flag_I) as [m|] eqn:E.
  - destruct (events_group _ _ E) as (w & -> & Hw). split.
    + intros event (piece & -> & Hpiece)%list_elem_of_fmap.
      unfold PyStr.split in Hpiece. rewrite chars_str in Hpiece.
      apply split_l_pieces in Hpiece as (a & -> & Hsep & Hsub).
      split; [|split; [|apply strip_trimmed]].
      * intros Hc%strip_subset. rewrite chars_str in Hc.
        by apply Hsep; [apply not_elem_of_nil|].
      * intros Hc%strip_subset. rewrite chars_str in Hc.
        apply Hsub in Hc as [[]%elem_of_nil|Hc]. by apply Hw.
    + split; [|done]. unfold PyStr.split. intros Hnil%fmap_nil_inv.
      by apply split_l_not_nil in Hnil.
  - split; [by intros event ?%elem_of_nil|done].
Qed.

Lemma analyze_layout_complexity_eq rels :
  analyze_layout_complexity rels
  = Counter (map (λ rel, PyStr.replace (r_from rel) "layout_" "")
               (List.filter counted_for_layout rels)).
Proof.
  unfold analyze_layout_complexity, Counter.
  generalize (@nil (string * nat)). induction rels as [|rel rels IH]; intros acc;
    simpl; [done|].
  rewrite IH. unfold layout_complexity_step, counted_for_layout.
  by destruct (_ && _).
Qed.

Lemma is_prefix_app p l : PyStr.is_prefix p (p ++ l) = true.
Proof. induction p as [|c p IH]; simpl; [done|]. by rewrite Ascii.eqb_refl. Qed.

Lemma contains_prefix p x : PyStr.contains p (p +:+ x) = true.
Proof.
  unfold PyStr.contains. rewrite chars_app.
  destruct (PyStr.chars p ++ PyStr.chars x) eqn:E; simpl;
    rewrite <- E, is_prefix_app; done.
Qed.

Lemma layout_ids t :
  Forall (λ ld, PyStr.contains "layout_" (l_id ld) = true) (out (layouts_pass t)).
Proof.
  unfold layouts_pass. rewrite out_collect_flat by (intros; framed).
  apply Forall_flat_map. apply Forall_forall. intros f _.
  unfold out. rewrite process_layout_init.
  destruct (xf_parse f) as [e|root]; simpl; [constructor|].
  constructor; [|constructor]. simpl. unfold layout_id_of. apply contains_prefix.
Qed.

Lemma filter_type_other ty (rels : list relationship) :
  Forall (λ r, r_type r ≠ ty) rels → List.filter (has_type ty) rels = [].
Proof.
  intros H. apply filter_none. intros r Hr. rewrite Forall_forall in H.
  unfold has_type. destruct (String.eqb_spec (r_type r) ty) as [Hty|]; [|done].
  by apply H in Hty.
Qed.

Lemma class_edges_display_nothing id d :
  Forall (λ r, r_type r ≠ "DISPLAYS_FIELD") (class_relationships id d).
Proof. unfold class_relationships. all_edges; discriminate. Qed.

Lemma trigger_edges_display_nothing td :
  Forall (λ r, r_type r ≠ "DISPLAYS_FIELD") (trigger_edges td).
Proof.
  unfold trigger_edges, has_trigger_edge, trigger_relationships.
  all_edges; discriminate.
Qed.

Lemma structural_edges_display_nothing o :
  Forall (λ r, r_type r ≠ "DISPLAYS_FIELD") (structural_edges o).
Proof. unfold structural_edges. all_edges; discriminate. Qed.

Lemma filter_displays_layout ld :
  List.filter (has_type "DISPLAYS_FIELD") (layout_edges ld) = displays ld.
Proof.
  unfold layout_edges, layout_relationships, displays.
  cbn [List.filter]. unfold has_type at 1. cbn [r_type edge_d].
  change (("HAS_LAYOUT" =? "DISPLAYS_FIELD")%string) with false. cbv iota.
  rewrite List.filter_app, filter_map_all by (intros; reflexivity).
  rewrite filter_flat_map_none; [by rewrite app_nil_r|].
  intros rl. unfold related_list_relationships.
  destruct (negb _); [|done]. cbn [List.filter]. unfold has_type at 1.
  cbn [r_type edge_d].
  change (("SHOWS_RELATED_LIST" =? "DISPLAYS_FIELD")%string) with false. cbv iota.
  apply filter_map_none. intros field. reflexivity.
Qed.

Lemma filter_flat_map_blocks {A} (P : relationship → bool)
    (f g : A → list relationship) (l : list A) :
  (∀ x, List.filter P (f x) = g x) →
  List.filter P (flat_map f l) = flat_map g l.
Proof.
  intros H. induction l as [|x l IH]; simpl; [done|].
  by rewrite List.filter_app, H, IH.
Qed.

(** The DISPLAYS_FIELD edges of a result are those of its layouts. *)
Lemma displays_of_result md :
  List.filter (has_type "DISPLAYS_FIELD") (edges_of md)
  = flat_map displays (am_layouts md).
Proof.
  unfold edges_of. rewrite !List.filter_app.
  rewrite (filter_flat_map_none _ structural_edges)
    by (intros; apply filter_type_other, structural_edges_display_nothing).
  rewrite (filter_flat_map_none _ class_edges)
    by (intros; apply filter_type_other, class_edges_display_nothing).
  rewrite (filter_flat_map_none _ trigger_edges)
    by (intros; apply filter_type_other, trigger_edges_display_nothing).
  rewrite (filter_flat_map_none _ workflow_edges) by (intros; reflexivity).
  rewrite (filter_flat_map_blocks _ layout_edges displays)
    by apply filter_displays_layout.
  by rewrite app_nil_r.
Qed.

Lemma filter_and {A} (f g : A → bool) (l : list A) :
  List.filter (λ x, f x && g x) l = List.filter g (List.filter f l).
Proof.
  induction l as [|x l IH]; simpl; [done|].
  destruct (f x); simpl; [|done]. destruct (g x); by rewrite IH.
Qed.

Lemma filter_all {A} (f : A → bool) (l : list A) :
  Forall (λ x, f x = true) l → List.filter f l = l.
Proof.
  induction 1 as [|x l Hx _ IH]; simpl; [done|]. by rewrite Hx, IH.
Qed.

Lemma length_flat_map_displays lds :
  length (flat_map displays lds)
  = sum_list (map (λ ld, length (l_fields_on_layout ld)) lds).
Proof.
  induction lds as [|ld lds IH]; simpl; [done|].
  rewrite length_app, IH. unfold displays at 1. by rewrite length_map.
Qed.

(** X27.  On the edges of a run, the layout analysis skips no
    DISPLAYS_FIELD edge: every such edge comes from a layout record, whose
    id contains [layout_].  The counts it returns (one entry per name read
    from a layout id) therefore add up to the number of DISPLAYS_FIELD
    edges, which is the total number of fields on the layouts of the
    run. *)
Theorem layout_complexity_of_a_run (t : source_tree) :
  let layout_fields := analyze_layout_complexity (relationships (run t).2) in
  NoDup (map fst layout_fields)
  ∧ sum_list (map snd layout_fields)
    = edges_of_type "DISPLAYS_FIELD" (relationships (run t).2)
  ∧ sum_list (map snd layout_fields)
    = sum_list (map (λ ld, length (l_fields_on_layout ld)) (am_layouts (run t).1)).
Proof.
  intros layout_fields. subst layout_fields.
  rewrite analyze_layout_complexity_eq. split; [apply Counter_NoDup|].
  rewrite Counter_sum, length_map, relationships_of_run.
  assert (Hids : Forall (λ ld, PyStr.contains "layout_" (l_id ld) = true)
                   (am_layouts (run t).1)).
  { rewrite run_eq. apply layout_ids. }
  revert Hids. generalize (run t).1. intros md Hids.
  unfold edges_of_type, counted_for_layout.
  rewrite (filter_and (has_type "DISPLAYS_FIELD")), displays_of_result.
  rewrite filter_all; [split; [done|apply length_flat_map_displays]|].
  apply Forall_flat_map. eapply Forall_impl; [exact Hids|].
  intros ld Hld. unfold displays. apply Forall_fmap, Forall_forall.
  by intros field _.
Qed.

(** * The edges in the converter's state *)

(** ** The edges one file adds to a state *)

Lemma relationships_after_class dir f st source_code metadata :
  load f = inr (source_code, metadata) →
  relationships (process_apex_class dir f st).2
  = relationships st
    ++ class_relationships ("class_" +:+ PyStr.stem (sf_name f))
         (extract_comprehensive_dependencies source_code (PyStr.stem (sf_name f))
            "ApexClass").
Proof.
  intros Hload. rewrite (framed_eq _ st) by framed.
  cbn [snd app_state relationships]. unfold eff.
  by rewrite process_apex_class_init, Hload.
Qed.

Lemma relationships_after_trigger dir f st source_code metadata :
  load f = inr (source_code, metadata) →
  relationships (process_trigger dir f st).2
  = relationships st
    ++ has_trigger_edge ("trigger_" +:+ PyStr.stem (sf_name f))
         (extract_trigger_object source_code) (extract_trigger_events source_code)
    ++ trigger_relationships ("trigger_" +:+ PyStr.stem (sf_name f))
         (extract_comprehensive_dependencies source_code (PyStr.stem (sf_name f))
            "ApexTrigger")
         (extract_trigger_object source_code).
Proof.
  intros Hload. rewrite (framed_eq _ st) by framed.
  cbn [snd app_state relationships]. unfold eff.
  by rewrite process_trigger_init, Hload.
Qed.

Lemma after_layout dir f st root :
  xf_parse f = Xml.Parsed root →
  let layout_name := PyStr.replace (PyStr.stem (xf_name f)) ".layout-meta" "" in
  let object_name := List.hd "" (PyStr.split layout_name "-") in
  (process_layout dir f st).1
  = Some {| l_id := layout_id_of layout_name; l_type := "Layout";
            l_name := layout_name; l_object := object_name;
            l_metadata := xml_to_dict root;
            l_fields_on_layout := _extract_layout_fields root;
            l_sections := _extract_layout_sections root;
            l_related_lists := _extract_related_lists root |}
  ∧ relationships (process_layout dir f st).2
    = relationships st
      ++ layout_relationships (layout_id_of layout_name) object_name
           (_extract_layout_fields root) (_extract_related_lists root).
Proof.
  intros Hparse. cbv zeta. rewrite (framed_eq _ st) by framed.
  cbn [fst snd app_state relationships]. unfold out, eff.
  by rewrite process_layout_init, Hparse.
Qed.

Lemma filter_has_trigger_edge ty id o evs :
  ty ≠ "HAS_TRIGGER" → List.filter (has_type ty) (has_trigger_edge id o evs) = [].
Proof.
  intros Hty. unfold has_trigger_edge. destruct (truthy o); [|done].
  cbn [List.filter]. unfold has_type. cbn [r_type edge_d].
  by destruct (String.eqb_spec "HAS_TRIGGER" ty) as [<-|].
Qed.

(** ** The types of the edges of each pass *)

Lemma structural_edges_types o :
  Forall (λ r, of_types structural_types r = true) (structural_edges o).
Proof. unfold structural_edges. all_edges. Qed.

Lemma layout_edges_types ld :
  Forall (λ r, of_types layout_types r = true) (layout_edges ld).
Proof.
  unfold layout_edges, layout_relationships, related_list_relationships. all_edges.
Qed.

Lemma class_edges_types cd :
  Forall (λ r, of_types class_types r = true) (class_edges cd).
Proof. unfold class_edges, class_relationships. all_edges. Qed.

Lemma trigger_edges_types td :
  Forall (λ r, of_types trigger_types r = true) (trigger_edges td).
Proof.
  unfold trigger_edges, has_trigger_edge, trigger_relationships. all_edges.
Qed.

Lemma workflow_edges_types w :
  Forall (λ r, of_types workflow_types r = true) (workflow_edges w).
Proof. unfold workflow_edges. all_edges. Qed.

Lemma filter_other_types ty tys (l : list relationship) :
  Comprehensive.mem ty tys = false →
  Forall (λ r, of_types tys r = true) l →
  List.filter (has_type ty) l = [].
Proof.
  intros Hty Hl. apply filter_none. intros r Hr.
  rewrite Forall_forall in Hl. specialize (Hl r Hr).
  unfold has_type, of_types in *.
  destruct (String.eqb_spec (r_type r) ty) as [Heq|]; [|done].
  by rewrite Heq, Hty in Hl.
Qed.

Lemma filter_pass_other_types {A} ty tys (edges : A → list relationship) (l : list A) :
  Comprehensive.mem ty tys = false →
  (∀ x, Forall (λ r, of_types tys r = true) (edges x)) →
  List.filter (has_type ty) (flat_map edges l) = [].
Proof.
  intros Hty Hl. apply filter_flat_map_none. intros x.
  by apply (filter_other_types ty tys).
Qed.

(** ** Object edges *)

(** A trigger record of a run holds the owning object its header names. *)
Lemma trigger_records_of_run t :
  Forall (λ td, t_object td = extract_trigger_object (t_source_code td))
    (out (triggers_pass t)).
Proof.
  unfold triggers_pass. rewrite out_collect_flat by (intros; framed).
  apply Forall_flat_map, Forall_forall. intros f _.
  unfold out. rewrite process_trigger_init.
  destruct (load f) as [e|[source_code metadata]]; [constructor|].
  cbv zeta. constructor; [|constructor]. cbn [kept fst t_object t_source_code].
  destruct (extract_trigger_object source_code) as [object_name|] eqn:Hobject; [|done].
  by destruct (trigger_object_is_an_identifier _ _ Hobject) as (_ & _ & ->).
Qed.

Lemma filter_affects_trigger_edges td :
  t_object td = extract_trigger_object (t_source_code td) →
  List.filter (has_type "AFFECTS_OBJECT") (trigger_edges td) = affects_edges td.
Proof.
  intros Hobject. unfold trigger_edges, affects_edges. cbv zeta.
  rewrite List.filter_app, filter_has_trigger_edge by done.
  rewrite (proj1 (object_edges_proposed _ _ _)). by rewrite Hobject.
Qed.

Lemma filter_flat_map_in {A} (P : relationship → bool)
    (f g : A → list relationship) (l : list A) :
  Forall (λ x, List.filter P (f x) = g x) l →
  List.filter P (flat_map f l) = flat_map g l.
Proof.
  induction 1 as [|x l Hx _ IH]; simpl; [done|].
  by rewrite List.filter_app, Hx, IH.
Qed.

(** C6.  What the synthesizer emits into the converter's list.  Processing
    a trigger file adds, to whatever the list held, one AFFECTS_OBJECT edge
    from the trigger to each name of the objects category extracted from
    its source except the owning object [O] its header names (none is
    excepted when the header names no object), and no other AFFECTS_OBJECT
    edge; processing a class file adds one USES_OBJECT edge for every name
    of the extracted objects category, with no exclusion.  So the
    AFFECTS_OBJECT and USES_OBJECT edges of a run are exactly those of its
    trigger and class records. *)
Theorem object_edges :
  (∀ (dir : string) (file : source_file) (source_code : string) (metadata : value)
     (st : converter),
     load file = inr (source_code, metadata) →
     let name := PyStr.stem (sf_name file) in
     let O := extract_trigger_object source_code in
     List.filter (has_type "AFFECTS_OBJECT")
       (relationships (process_trigger dir file st).2)
     = List.filter (has_type "AFFECTS_OBJECT") (relationships st)
       ++ map (λ obj, edge_d ("trigger_" +:+ name) ("object_" +:+ obj) "AFFECTS_OBJECT"
                        ("Trigger performs operations on " +:+ obj))
            (List.filter (λ obj, negb (bool_decide (Some obj = O)))
               (category
                  (extract_comprehensive_dependencies source_code name "ApexTrigger")
                  "objects"))
     ∧ List.filter (has_type "USES_OBJECT")
         (relationships (process_apex_class dir file st).2)
       = List.filter (has_type "USES_OBJECT") (relationships st)
         ++ map (λ obj, edge_d ("class_" +:+ name) ("object_" +:+ obj) "USES_OBJECT"
                          "References object in SOQL/DML operations")
              (category
                 (extract_comprehensive_dependencies source_code name "ApexClass")
                 "objects"))
  ∧ ∀ t : source_tree,
      List.filter (has_type "AFFECTS_OBJECT") (relationships (run t).2)
      = flat_map affects_edges (am_triggers (run t).1)
      ∧ List.filter (has_type "USES_OBJECT") (relationships (run t).2)
        = flat_map uses_edges (am_classes (run t).1).
Proof.
  split.
  - intros dir file source_code metadata st Hload name O. split.
    + rewrite (relationships_after_trigger _ _ _ _ _ Hload), !List.filter_app.
      rewrite filter_has_trigger_edge by done.
      by rewrite (proj1 (object_edges_proposed _ _ _)).
    + rewrite (relationships_after_class _ _ _ _ _ Hload), List.filter_app.
      by rewrite (proj2 (object_edges_proposed _ _ None)).
  - intros t. rewrite relationships_of_run.
    pose proof (trigger_records_of_run t) as Hrecords.
    rewrite run_eq. cbn [fst]. unfold edges_of.
    cbn [am_objects am_layouts am_classes am_triggers am_workflows].
    rewrite !List.filter_app. split.
    + rewrite (filter_pass_other_types _ structural_types structural_edges)
        by (done || apply structural_edges_types).
      rewrite (filter_pass_other_types _ layout_types layout_edges)
        by (done || apply layout_edges_types).
      rewrite (filter_pass_other_types _ class_types class_edges)
        by (done || apply class_edges_types).
      rewrite (filter_pass_other_types _ workflow_types workflow_edges)
        by (done || apply workflow_edges_types).
      rewrite app_nil_r. cbn [app]. apply filter_flat_map_in.
      eapply Forall_impl; [exact Hrecords|]. apply filter_affects_trigger_edges.
    + rewrite (filter_pass_other_types _ structural_types structural_edges)
        by (done || apply structural_edges_types).
      rewrite (filter_pass_other_types _ layout_types layout_edges)
        by (done || apply layout_edges_types).
      rewrite (filter_pass_other_types _ trigger_types trigger_edges)
        by (done || apply trigger_edges_types).
      rewrite (filter_pass_other_types _ workflow_types workflow_edges)
        by (done || apply workflow_edges_types).
      rewrite app_nil_r. cbn [app]. apply filter_flat_map_in, Forall_forall.
      intros cd _. unfold class_edges, uses_edges.
      by rewrite (proj2 (object_edges_proposed _ _ None)).
Qed.

Lemma object_edges_witness :
  List.filter (has_type "AFFECTS_OBJECT")
    (relationships (process_trigger "triggers" Examples.account_trigger init).2)
  = [edge_d "trigger_T" "object_Contact" "AFFECTS_OBJECT"
       "Trigger performs operations on Contact"]
  ∧ List.filter (has_type "USES_OBJECT")
      (relationships (process_apex_class "classes" Examples.account_trigger init).2)
    = [edge_d "class_T" "object_Contact" "USES_OBJECT"
         "References object in SOQL/DML operations";
       edge_d "class_T" "object_Account" "USES_OBJECT"
         "References object in SOQL/DML operations"].
Proof.
  destruct (proj1 object_edges "triggers" Examples.account_trigger
              Examples.account_trigger_source empty_metadata init eq_refl)
    as [Htrigger _].
  destruct (proj1 object_edges "classes" Examples.account_trigger
              Examples.account_trigger_source empty_metadata init eq_refl)
    as [_ Hclass].
  rewrite Htrigger, Hclass. split; vm_compute; reflexivity.
Defined.

(** ** The classes a trigger names, in the state *)

(** X24.  Processing a trigger file adds, to whatever the converter's list
    held, exactly one edge from the trigger to each class of the classes
    category extracted from its source: DELEGATES_TO_HANDLER when the name
    contains [Handler] or [Helper] (as written, capitals included),
    CALLS_CLASS otherwise; it adds no other edge of these two types. *)
Theorem trigger_class_edges (dir : string) (trigger_file : source_file)
    (source_code : string) (metadata : value) (st : converter) :
  load trigger_file = inr (source_code, metadata) →
  let trigger_name := PyStr.stem (sf_name trigger_file) in
  let trigger_id := "trigger_" +:+ trigger_name in
  let classes :=
    category (extract_comprehensive_dependencies source_code trigger_name "ApexTrigger")
      "classes" in
  let after := relationships (process_trigger dir trigger_file st).2 in
  List.filter (has_type "DELEGATES_TO_HANDLER") after
  = List.filter (has_type "DELEGATES_TO_HANDLER") (relationships st)
    ++ map (λ cls, edge_d trigger_id ("class_" +:+ cls) "DELEGATES_TO_HANDLER"
                     "Trigger delegates business logic to handler class")
         (List.filter is_handler classes)
  ∧ List.filter (has_type "CALLS_CLASS") after
    = List.filter (has_type "CALLS_CLASS") (relationships st)
      ++ map (λ cls, edge_d trigger_id ("class_" +:+ cls) "CALLS_CLASS"
                       "Trigger calls methods in this class")
           (List.filter (λ cls, negb (is_handler cls)) classes)
  ∧ length (List.filter (has_type "DELEGATES_TO_HANDLER") after)
    + length (List.filter (has_type "CALLS_CLASS") after)
    = length (List.filter (has_type "DELEGATES_TO_HANDLER") (relationships st))
      + length (List.filter (has_type "CALLS_CLASS") (relationships st))
      + length classes.
Proof.
  intros Hload trigger_name trigger_id classes after. subst after.
  rewrite (relationships_after_trigger _ _ _ _ _ Hload), !List.filter_app.
  rewrite !filter_has_trigger_edge by done. cbn [app].
  destruct (trigger_class_edges_proposed trigger_id
              (extract_comprehensive_dependencies source_code trigger_name "ApexTrigger")
              (extract_trigger_object source_code)) as (Hd & Hc & Hlen).
  cbv zeta in Hd, Hc, Hlen. fold trigger_name trigger_id.
  split; [by rewrite Hd|]. split; [by rewrite Hc|].
  rewrite !length_app. fold classes in Hlen. lia.
Qed.

Lemma trigger_class_edges_witness :
  let trigger_file := Examples.scenario_A_file in
  let after := relationships (process_trigger "triggers" trigger_file init).2 in
  List.filter (has_type "DELEGATES_TO_HANDLER") after
  = [edge_d "trigger_T" "class_AccountHandler" "DELEGATES_TO_HANDLER"
       "Trigger delegates business logic to handler class"]
  ∧ List.filter (has_type "CALLS_CLASS") after = []
  ∧ length (List.filter (has_type "DELEGATES_TO_HANDLER") after)
    + length (List.filter (has_type "CALLS_CLASS") after)
    = 1.
Proof.
  intros trigger_file after.
  destruct (trigger_class_edges "triggers" trigger_file Examples.scenario_A_source
              empty_metadata init eq_refl) as (Hd & Hc & Hlen).
  fold after in Hd, Hc, Hlen. rewrite Hlen, Hd, Hc.
  repeat split; vm_compute; reflexivity.
Defined.

(** ** Method calls, in the state *)

(** X21.  Every entry of the methods category extracted from a class file
    is a qualified call [Class.method] whose class is an identifier and an
    entry of the classes category of the same record; after the file is
    processed the converter's list holds, for the call, a CALLS_METHOD
    edge from the class and a DEPENDS_ON_CLASS edge to the same target. *)
Theorem method_calls_pair_with_class_edges (dir : string) (class_file : source_file)
    (source_code : string) (metadata : value) (st : converter) (x : string) :
  load class_file = inr (source_code, metadata) →
  let class_name := PyStr.stem (sf_name class_file) in
  let dependencies :=
    extract_comprehensive_dependencies source_code class_name "ApexClass" in
  let after := relationships (process_apex_class dir class_file st).2 in
  x ∈ category dependencies "methods" →
  ∃ c m, x = c +:+ "." +:+ m ∧ identifier c
         ∧ c ∈ category dependencies "classes"
         ∧ edge_d ("class_" +:+ class_name) ("class_" +:+ c) "DEPENDS_ON_CLASS"
             "Calls methods or instantiates class"
           ∈ after
         ∧ edge_d ("class_" +:+ class_name) ("class_" +:+ c) "CALLS_METHOD"
             ("Calls method " +:+ m)
           ∈ after.
Proof.
  intros Hload class_name dependencies after Hx. subst after.
  rewrite (relationships_after_class _ _ _ _ _ Hload).
  destruct (method_calls_pair_proposed source_code class_name "ApexClass"
              ("class_" +:+ class_name) x Hx) as (c & m & Hx' & Hid & Hc & Hd & Hm).
  exists c, m. split; [done|]. split; [done|]. split; [done|].
  split; apply elem_of_app; by right.
Qed.

Lemma method_calls_pair_with_class_edges_witness :
  let class_file :=
    {| sf_name := "Demo.cls"; sf_read := ReadOk "AccountHandler.run(x);";
       sf_meta := None |} in
  let after := relationships (process_apex_class "classes" class_file init).2 in
  ∃ c m, "AccountHandler.run" = c +:+ "." +:+ m ∧ identifier c
         ∧ c ∈ category
                 (extract_comprehensive_dependencies "AccountHandler.run(x);" "Demo"
                    "ApexClass") "classes"
         ∧ edge_d "class_Demo" ("class_" +:+ c) "DEPENDS_ON_CLASS"
             "Calls methods or instantiates class"
           ∈ after
         ∧ edge_d "class_Demo" ("class_" +:+ c) "CALLS_METHOD" ("Calls method " +:+ m)
           ∈ after.
Proof.
  intros class_file after.
  apply (method_calls_pair_with_class_edges "classes" class_file
           "AccountHandler.run(x);" empty_metadata init "AccountHandler.run" eq_refl).
  assert (H : category (extract_comprehensive_dependencies "AccountHandler.run(x);"
                          "Demo" "ApexClass") "methods" = ["AccountHandler.run"])
    by (vm_compute; reflexivity).
  change (PyStr.stem (sf_name class_file)) with "Demo".
  rewrite H. by left.
Defined.

(** ** The content of a layout, in the state *)

(** X19.  Processing a layout file that parses returns a record whose
    fields are without repetition, and leaves in the converter's list, for
    every field of every recorded section, a DISPLAYS_FIELD edge from the
    layout (the field is among the fields of the record); for every
    recorded related list, which names an object, a SHOWS_RELATED_LIST
    edge to that object and a DISPLAYS_RELATED_FIELD edge for each of its
    fields. *)
Theorem layout_content_has_edges (dir : string) (layout_file : xml_file)
    (layout_root : Xml.element) (st : converter) :
  xf_parse layout_file = Xml.Parsed layout_root →
  let after := relationships (process_layout dir layout_file st).2 in
  ∃ ld,
    (process_layout dir layout_file st).1 = Some ld
    ∧ l_fields_on_layout ld = _extract_layout_fields layout_root
    ∧ l_sections ld = _extract_layout_sections layout_root
    ∧ l_related_lists ld = _extract_related_lists layout_root
    ∧ NoDup (l_fields_on_layout ld)
    ∧ (∀ section field,
         section ∈ l_sections ld →
         field ∈ s_fields section →
         field ∈ l_fields_on_layout ld
         ∧ edge_d (l_id ld) ("field_" +:+ l_object ld +:+ "_" +:+ field)
             "DISPLAYS_FIELD" ("Field " +:+ field +:+ " is displayed on layout")
           ∈ after)
    ∧ (∀ related_list,
         related_list ∈ l_related_lists ld →
         rl_object related_list ≠ ""
         ∧ edge_d (l_id ld) ("object_" +:+ rl_object related_list) "SHOWS_RELATED_LIST"
             ("Layout shows related " +:+ rl_object related_list +:+ " records")
           ∈ after
         ∧ ∀ field, field ∈ rl_fields related_list →
             edge_d (l_id ld)
               ("field_" +:+ rl_object related_list +:+ "_" +:+ field)
               "DISPLAYS_RELATED_FIELD" ("Related list displays field " +:+ field)
             ∈ after).
Proof.
  intros Hparse after. subst after.
  destruct (after_layout dir layout_file st layout_root Hparse) as [Hout Hrels].
  cbv zeta in Hout, Hrels. rewrite Hout, Hrels. eexists. split; [reflexivity|].
  cbn [l_fields_on_layout l_sections l_related_lists l_id l_object].
  destruct (layout_content_proposed
              (layout_id_of (PyStr.replace (PyStr.stem (xf_name layout_file))
                               ".layout-meta" ""))
              (List.hd "" (PyStr.split (PyStr.replace (PyStr.stem (xf_name layout_file))
                                          ".layout-meta" "") "-"))
              layout_root) as (Hnd & Hsec & Hrl).
  cbv zeta in Hnd, Hsec, Hrl.
  split; [done|]. split; [done|]. split; [done|]. split; [done|]. split.
  - intros section field Hsection Hfield.
    destruct (Hsec section field Hsection Hfield) as [Hin Hedge].
    split; [done|]. apply elem_of_app. by right.
  - intros related_list Hin.
    destruct (Hrl related_list Hin) as (Hobj & Hshow & Hfields).
    split; [done|]. split; [apply elem_of_app; by right|].
    intros field Hfield. apply elem_of_app. right. by apply Hfields.
Qed.

Lemma layout_content_has_edges_witness :
  let layout_file := Examples.account_layout in
  let layout_root := Examples.account_layout_root in
  let after := relationships (process_layout "layouts" layout_file init).2 in
  ∃ ld,
    (process_layout "layouts" layout_file init).1 = Some ld
    ∧ l_fields_on_layout ld = _extract_layout_fields layout_root
    ∧ l_sections ld = _extract_layout_sections layout_root
    ∧ l_related_lists ld = _extract_related_lists layout_root
    ∧ NoDup (l_fields_on_layout ld)
    ∧ (∀ section field,
         section ∈ l_sections ld →
         field ∈ s_fields section →
         field ∈ l_fields_on_layout ld
         ∧ edge_d (l_id ld) ("field_" +:+ l_object ld +:+ "_" +:+ field)
             "DISPLAYS_FIELD" ("Field " +:+ field +:+ " is displayed on layout")
           ∈ after)
    ∧ (∀ related_list,
         related_list ∈ l_related_lists ld →
         rl_object related_list ≠ ""
         ∧ edge_d (l_id ld) ("object_" +:+ rl_object related_list) "SHOWS_RELATED_LIST"
             ("Layout shows related " +:+ rl_object related_list +:+ " records")
           ∈ after
         ∧ ∀ field, field ∈ rl_fields related_list →
             edge_d (l_id ld)
               ("field_" +:+ rl_object related_list +:+ "_" +:+ field)
               "DISPLAYS_RELATED_FIELD" ("Related list displays field " +:+ field)
             ∈ after).
Proof.
  intros layout_file layout_root after.
  exact (layout_content_has_edges "layouts" layout_file layout_root init eq_refl).
Defined.

(** ** Distinct edges in a run *)

Lemma NoDup_map_filter {A B} (g : A → B) (f : A → bool) (l : list A) :
  NoDup (map g l) → NoDup (map g (List.filter f l)).
Proof.
  induction l as [|x l IH]; simpl; intros H; [constructor|].
  apply NoDup_cons in H as [Hx Hl]. destruct (f x); simpl; [|by apply IH].
  apply NoDup_cons. split; [|by apply IH].
  intros (y & Hy & [Hin _]%elem_of_filter_bool)%list_elem_of_fmap.
  apply Hx, list_elem_of_fmap. by exists y.
Qed.

(** The edges of a pass are distinct when the records have distinct ids,
    each record's edges are distinct and name the record as proposer. *)
Lemma NoDup_pass {A} (id : A → string) (edges : A → list relationship)
    (P : relationship → bool) (l : list A) :
  NoDup (map id l) →
  (∀ x, x ∈ l → NoDup (map triple (List.filter P (edges x)))) →
  (∀ x, Forall (λ r, proposer (triple r) = id x) (edges x)) →
  NoDup (map triple (List.filter P (flat_map edges l))).
Proof.
  intros Hid Hnd Hown. induction l as [|x l IH]; simpl; [constructor|].
  apply NoDup_cons in Hid as [Hx Hid].
  rewrite List.filter_app, map_app. apply NoDup_app. split; [apply Hnd; by left|].
  split; [|apply IH; [done|intros y Hy; apply Hnd; by right]].
  intros tr (r & -> & [Hr _]%elem_of_filter_bool)%list_elem_of_fmap
            (r' & Heq & [Hr' _]%elem_of_filter_bool)%list_elem_of_fmap.
  apply elem_of_flat_map_inv in Hr' as (y & Hy & Hr').
  apply Hx.
  pose proof (Hown x) as H1. pose proof (Hown y) as H2.
  rewrite Forall_forall in H1, H2.
  rewrite <- (H1 r Hr), Heq, (H2 r' Hr'). apply list_elem_of_fmap. by exists y.
Qed.

Lemma types_of_pass {A} (tys : list string) (edges : A → list relationship)
    (P : relationship → bool) (l : list A) :
  (∀ x, Forall (λ r, of_types tys r = true) (edges x)) →
  Forall (λ tr, Comprehensive.mem tr.2 tys = true)
    (map triple (List.filter P (flat_map edges l))).
Proof.
  intros H. apply Forall_forall.
  intros tr (r & -> & [Hr _]%elem_of_filter_bool)%list_elem_of_fmap.
  apply elem_of_flat_map_inv in Hr as (x & _ & Hr).
  specialize (H x). rewrite Forall_forall in H. by apply H.
Qed.

Lemma other_pass (tys tys' : list string) (l : list (string * string * string)) :
  disjoint_types tys' tys = true →
  Forall (λ tr, Comprehensive.mem tr.2 tys' = true) l →
  Forall (λ tr, ¬ Comprehensive.mem tr.2 tys = true) l.
Proof.
  intros Hd Hl. eapply Forall_impl; [exact Hl|]. intros tr Hin Hin'.
  unfold disjoint_types in Hd. rewrite forallb_forall in Hd.
  apply mem_spec, list_elem_of_In, Hd in Hin. by rewrite Hin' in Hin.
Qed.

(** *** The records of a run and their ids *)

Lemma ids_of_children (dir oid o ty prefix suffix kind : string)
    (process : string → xml_file → string → M (option component))
    (files : list xml_file) :
  (∀ d f n, framed (process d f n)) →
  (∀ f, out (process dir f o)
        = match xf_parse f with
          | Xml.Parsed root =>
              Some {| c_id := prefix +:+ o +:+ "_" +:+ component_name suffix f;
                      c_type := kind; c_name := component_name suffix f;
                      c_object := o; c_metadata := xml_to_dict root |}
          | Xml.ParseError _ => None
          end) →
  map c_id (out (process_children dir oid o ty process files))
  = map (λ f, prefix +:+ o +:+ "_" +:+ component_name suffix f)
      (List.filter parses files).
Proof.
  intros Hframed Hout. rewrite out_process_children by done.
  induction files as [|f files IH]; [done|]. cbn [flat_map List.filter].
  rewrite map_app, IH, Hout. unfold parses. by destruct (xf_parse f).
Qed.

Lemma NoDup_child_ids (prefix o suffix : string) (files : list xml_file) :
  NoDup (map (component_name suffix) files) →
  NoDup (map (λ f, prefix +:+ o +:+ "_" +:+ component_name suffix f)
           (List.filter parses files)).
Proof.
  intros H. rewrite <- (map_map (component_name suffix) (λ n, prefix +:+ o +:+ "_" +:+ n)).
  apply NoDup_map_inj; [|by apply NoDup_map_filter].
  intros x y Hxy. by do 3 apply append_inj_r in Hxy.
Qed.

Lemma object_record_children t o :
  distinct_names t → o ∈ out (objects_pass t) →
  NoDup (map c_id (o_fields o)) ∧ NoDup (map c_id (o_listViews o))
  ∧ NoDup (map c_id (o_webLinks o)).
Proof.
  intros (_ & Hchildren & _). rewrite out_objects_pass.
  intros (od & -> & Hod)%list_elem_of_fmap.
  rewrite Forall_forall in Hchildren. destruct (Hchildren od Hod) as (Hf & Hl & Hw).
  unfold out. rewrite process_custom_object_eq. fold (@out (list component)).
  cbn [fst o_fields o_listViews o_webLinks].
  unfold fields_pass, listViews_pass, webLinks_pass. repeat split.
  - rewrite (ids_of_children _ _ _ _ "field_" ".field-meta" "CustomField")
      by (auto using framed_process_field;
          intros f; unfold out; rewrite process_field_init; by destruct (xf_parse f)).
    by apply NoDup_child_ids.
  - rewrite (ids_of_children _ _ _ _ "listview_" ".listView-meta" "ListView")
      by (auto using framed_process_listview;
          intros f; unfold out; rewrite process_listview_init; by destruct (xf_parse f)).
    by apply NoDup_child_ids.
  - rewrite (ids_of_children _ _ _ _ "weblink_" ".webLink-meta" "WebLink")
      by (auto using framed_process_weblink;
          intros f; unfold out; rewrite process_weblink_init; by destruct (xf_parse f)).
    by apply NoDup_child_ids.
Qed.

Lemma ids_of_layouts t :
  map l_id (out (layouts_pass t))
  = map (λ f, layout_id_of (component_name ".layout-meta" f))
      (List.filter parses (st_layouts t)).
Proof.
  unfold layouts_pass. rewrite out_collect_flat by (intros; framed).
  induction (st_layouts t) as [|f l IH]; [done|]. cbn [flat_map List.filter].
  rewrite map_app, IH. unfold out at 1, parses. rewrite process_layout_init.
  by destruct (xf_parse f).
Qed.

Lemma ids_of_workflows t :
  map c_id (out (workflows_pass t))
  = map (λ f, "workflow_" +:+ component_name ".workflow-meta" f)
      (List.filter parses (st_workflows t)).
Proof.
  unfold workflows_pass. rewrite out_collect_flat by (intros; framed).
  induction (st_workflows t) as [|f l IH]; [done|]. cbn [flat_map List.filter].
  rewrite map_app, IH. unfold out at 1, parses. rewrite process_workflow_init.
  by destruct (xf_parse f).
Qed.

Lemma layout_records_of_run t :
  Forall (λ ld, NoDup (l_fields_on_layout ld)) (out (layouts_pass t)).
Proof.
  unfold layouts_pass. rewrite out_collect_flat by (intros; framed).
  apply Forall_flat_map, Forall_forall. intros f _.
  unfold out. rewrite process_layout_init.
  destruct (xf_parse f) as [e|root]; [constructor|].
  cbv zeta. constructor; [|constructor]. cbn [fst l_fields_on_layout].
  unfold _extract_layout_fields, PyStr.list_set. apply NoDup_elements.
Qed.

Lemma class_records_of_run t :
  Forall (λ cd, ∃ src name kind,
            k_comprehensive_dependencies cd
            = extract_comprehensive_dependencies src name kind)
    (out (classes_pass t)).
Proof.
  unfold classes_pass. rewrite out_collect_flat by (intros; framed).
  apply Forall_flat_map, Forall_forall. intros f _.
  unfold out. rewrite process_apex_class_init.
  destruct (load f) as [e|[source_code metadata]]; [constructor|].
  cbv zeta. constructor; [|constructor]. cbn [fst k_comprehensive_dependencies].
  by eexists _, _, _.
Qed.

Lemma trigger_dependencies_of_run t :
  Forall (λ td, ∃ src name kind,
            t_comprehensive_dependencies td
            = extract_comprehensive_dependencies src name kind)
    (out (triggers_pass t)).
Proof.
  unfold triggers_pass. rewrite out_collect_flat by (intros; framed).
  apply Forall_flat_map, Forall_forall. intros f _.
  unfold out. rewrite process_trigger_init.
  destruct (load f) as [e|[source_code metadata]]; [constructor|].
  cbv zeta. constructor; [|constructor]. cbn [fst t_comprehensive_dependencies].
  by eexists _, _, _.
Qed.

(** *** The edges of one record *)

Lemma filter_in_run (l : list relationship) :
  List.filter one_edge_per_name_in_run l
  = List.filter (λ r, negb (Comprehensive.mem (r_type r)
                              ["SHOWS_RELATED_LIST"; "DISPLAYS_RELATED_FIELD"]))
      (List.filter one_edge_per_name l).
Proof. apply filter_and. Qed.

Lemma NoDup_structural_edges o :
  NoDup (map c_id (o_fields o)) → NoDup (map c_id (o_listViews o)) →
  NoDup (map c_id (o_webLinks o)) →
  NoDup (map triple (structural_edges o)).
Proof.
  intros Hf Hl Hw. unfold structural_edges. rewrite !map_app, !map_map.
  assert (Hblock : ∀ ty l, NoDup (map c_id l) →
            NoDup (map (λ d, triple (edge (o_id o) (c_id d) ty)) l)).
  { intros ty l H. rewrite <- (map_map c_id (λ i, triple (edge (o_id o) i ty))).
    apply NoDup_map_inj; [|done]. by intros x y [= ->]. }
  assert (Htyped : ∀ ty l,
            Forall (λ tr, tr.2 = ty) (map (λ d, triple (edge (o_id o) (c_id d) ty)) l)).
  { intros ty l. apply Forall_forall. by intros tr (d & -> & _)%list_elem_of_fmap. }
  apply (NoDup_app_typed "HAS_FIELD"); [by apply Hblock| |apply Htyped|].
  - apply (NoDup_app_typed "HAS_LISTVIEW"); [by apply Hblock|by apply Hblock
      |apply Htyped|].
    eapply other_type; [|apply Htyped]. done.
  - apply Forall_app. split; (eapply other_type; [|apply Htyped]); done.
Qed.

Lemma NoDup_layout_edges ld :
  NoDup (l_fields_on_layout ld) →
  NoDup (map triple (List.filter one_edge_per_name_in_run (layout_edges ld))).
Proof.
  intros Hfields. unfold layout_edges, layout_relationships.
  cbn [List.filter]. change (one_edge_per_name_in_run (edge_d _ _ "HAS_LAYOUT" _))
    with true. cbv iota.
  rewrite List.filter_app, filter_map_all by (intros; reflexivity).
  rewrite filter_flat_map_none; [rewrite app_nil_r|].
  - cbn [map]. apply NoDup_cons. split.
    + intros (r & Heq & (field & -> & _)%list_elem_of_fmap)%list_elem_of_fmap.
      discriminate Heq.
    + rewrite map_map. apply NoDup_map_inj; [|done].
      intros x y [= Hxy]. by do 3 apply append_inj_r in Hxy.
  - intros rl. unfold related_list_relationships.
    destruct (negb _); [|done]. cbn [List.filter].
    change (one_edge_per_name_in_run (edge_d _ _ "SHOWS_RELATED_LIST" _)) with false.
    cbv iota. apply filter_map_none. intros field. reflexivity.
Qed.

Lemma Forall_triple_filter (Q : string → Prop) (P : relationship → bool)
    (l : list relationship) :
  Forall (λ r, Q (r_type r)) l → Forall (λ tr, Q tr.2) (map triple (List.filter P l)).
Proof.
  intros H. apply Forall_forall.
  intros tr (r & -> & [Hr _]%elem_of_filter_bool)%list_elem_of_fmap.
  rewrite Forall_forall in H. by apply H.
Qed.

Lemma NoDup_class_edges cd :
  (∃ src name kind,
     k_comprehensive_dependencies cd = extract_comprehensive_dependencies src name kind) →
  NoDup (map triple (List.filter one_edge_per_name_in_run (class_edges cd))).
Proof.
  intros (src & name & kind & Hd). rewrite filter_in_run. apply NoDup_map_filter.
  unfold class_edges. rewrite Hd.
  apply (edges_distinct_per_component src name kind (k_id cd) None).
Qed.

Lemma NoDup_trigger_edges td :
  (∃ src name kind,
     t_comprehensive_dependencies td = extract_comprehensive_dependencies src name kind) →
  NoDup (map triple (List.filter one_edge_per_name_in_run (trigger_edges td))).
Proof.
  intros (src & name & kind & Hd). rewrite filter_in_run. apply NoDup_map_filter.
  unfold trigger_edges. cbv zeta. rewrite List.filter_app, map_app.
  apply (NoDup_app_typed "HAS_TRIGGER").
  - unfold has_trigger_edge. destruct (truthy _); [apply NoDup_singleton|constructor].
  - rewrite Hd. apply edges_distinct_per_component.
  - apply (Forall_triple_filter (λ ty, ty = "HAS_TRIGGER")).
    unfold has_trigger_edge. destruct (truthy _); by repeat constructor.
  - apply (Forall_triple_filter (λ ty, ¬ ty = "HAS_TRIGGER")).
    unfold trigger_relationships. all_edges; discriminate.
Qed.

Lemma structural_proposer o :
  Forall (λ r, proposer (triple r) = o_id o) (structural_edges o).
Proof. unfold structural_edges. all_edges. Qed.

Lemma layout_proposer ld :
  Forall (λ r, proposer (triple r) = l_id ld) (layout_edges ld).
Proof.
  unfold layout_edges, layout_relationships, related_list_relationships. all_edges.
Qed.

Lemma class_proposer cd :
  Forall (λ r, proposer (triple r) = k_id cd) (class_edges cd).
Proof. unfold class_edges, class_relationships. all_edges. Qed.

Lemma trigger_proposer td :
  Forall (λ r, proposer (triple r) = t_id td) (trigger_edges td).
Proof.
  unfold trigger_edges, has_trigger_edge, trigger_relationships. all_edges.
Qed.

Lemma workflow_proposer w :
  Forall (λ r, proposer (triple r) = c_id w) (workflow_edges w).
Proof. unfold workflow_edges. all_edges. Qed.

(** C1, amended.  The converter appends every proposed edge and removes
    none, so the accumulated collection is a list in which a
    (from, to, type) triple can occur more than once.  What holds of a
    run: when the components of each kind have distinct names (objects,
    the fields, list views and web links of each object, classes,
    triggers, workflows; for layouts, distinct ids), the edges the run has
    accumulated over all its passes hold no (from, to, type) triple twice
    among the types with one edge per name, which are all types but
    ACCESSES_FIELD, CALLS_METHOD, CALLS_WEBSERVICE, MODIFIES_FIELD,
    SHOWS_RELATED_LIST and DISPLAYS_RELATED_FIELD. *)
Theorem run_edges_distinct_per_name (t : source_tree) :
  distinct_names t →
  NoDup (map triple
           (List.filter one_edge_per_name_in_run (relationships (run t).2))).
Proof.
  intros Hnames. pose proof (object_record_children t) as Hchildren.
  specialize (Hchildren).
  pose proof Hnames as (Hobjects & _ & Hlayouts & Hclasses & Htriggers & Hworkflows).
  rewrite relationships_of_run, run_eq. cbn [fst]. unfold edges_of.
  cbn [am_objects am_layouts am_classes am_triggers am_workflows].
  rewrite !List.filter_app, !map_app.
  apply (NoDup_app_split (λ tr, Comprehensive.mem tr.2 structural_types = true));
    [| |apply types_of_pass, structural_edges_types|].
  { apply (NoDup_pass o_id); [| |apply structural_proposer].
    - rewrite (proj1 (ids_of_objects t)).
      pose proof (NoDup_prefixed "object_" od_name (λ _, true) _ Hobjects) as H.
      by rewrite filter_all_true in H.
    - intros o Ho. destruct (Hchildren o Hnames Ho) as (Hf & Hl & Hw).
      by apply NoDup_map_filter, NoDup_structural_edges. }
  2: { rewrite !Forall_app. repeat split.
       - eapply (other_pass structural_types layout_types); [reflexivity|].
         apply types_of_pass, layout_edges_types.
       - eapply (other_pass structural_types class_types); [reflexivity|].
         apply types_of_pass, class_edges_types.
       - eapply (other_pass structural_types trigger_types); [reflexivity|].
         apply types_of_pass, trigger_edges_types.
       - eapply (other_pass structural_types workflow_types); [reflexivity|].
         apply types_of_pass, workflow_edges_types. }
  apply (NoDup_app_split (λ tr, Comprehensive.mem tr.2 layout_types = true));
    [| |apply types_of_pass, layout_edges_types|].
  { apply (NoDup_pass l_id); [| |apply layout_proposer].
    - rewrite ids_of_layouts.
      by apply (NoDup_map_filter (λ f, layout_id_of (component_name ".layout-meta" f))).
    - intros ld Hld. apply NoDup_layout_edges.
      pose proof (layout_records_of_run t) as H. rewrite Forall_forall in H.
      by apply H. }
  2: { rewrite !Forall_app. repeat split.
       - eapply (other_pass layout_types class_types); [reflexivity|].
         apply types_of_pass, class_edges_types.
       - eapply (other_pass layout_types trigger_types); [reflexivity|].
         apply types_of_pass, trigger_edges_types.
       - eapply (other_pass layout_types workflow_types); [reflexivity|].
         apply types_of_pass, workflow_edges_types. }
  apply (NoDup_app_split (λ tr, Comprehensive.mem tr.2 class_types = true));
    [| |apply types_of_pass, class_edges_types|].
  { apply (NoDup_pass k_id); [| |apply class_proposer].
    - rewrite ids_of_classes. by apply NoDup_prefixed.
    - intros cd Hcd. apply NoDup_class_edges.
      pose proof (class_records_of_run t) as H. rewrite Forall_forall in H.
      by apply H. }
  2: { rewrite !Forall_app. repeat split.
       - eapply (other_pass class_types trigger_types); [reflexivity|].
         apply types_of_pass, trigger_edges_types.
       - eapply (other_pass class_types workflow_types); [reflexivity|].
         apply types_of_pass, workflow_edges_types. }
  apply (NoDup_app_split (λ tr, Comprehensive.mem tr.2 trigger_types = true));
    [| |apply types_of_pass, trigger_edges_types|].
  { apply (NoDup_pass t_id); [| |apply trigger_proposer].
    - rewrite ids_of_triggers. by apply NoDup_prefixed.
    - intros td Htd. apply NoDup_trigger_edges.
      pose proof (trigger_dependencies_of_run t) as H. rewrite Forall_forall in H.
      by apply H. }
  2: { eapply (other_pass trigger_types workflow_types); [reflexivity|].
       apply types_of_pass, workflow_edges_types. }
  apply (NoDup_pass c_id); [| |apply workflow_proposer].
  - rewrite ids_of_workflows.
    rewrite <- (map_map (component_name ".workflow-meta") (λ n, "workflow_" +:+ n)).
    apply NoDup_map_inj; [intros x y; apply append_inj_r|].
    by apply NoDup_map_filter.
  - intros w _. apply NoDup_map_filter, NoDup_singleton.
Qed.

Lemma run_edges_distinct_per_name_witness :
  NoDup (map triple
           (List.filter one_edge_per_name_in_run
              (relationships (run Examples.org_tree).2))).
Proof.
  apply (run_edges_distinct_per_name Examples.org_tree).
  unfold distinct_names.
  repeat split; apply (bool_decide_unpack _); vm_compute; exact I.
Defined.

(** Each of the six types left out can repeat in a run over a tree whose
    components have distinct names. *)
Lemma left_out_types_repeat :
  distinct_names Examples.repeating_tree
  ∧ Forall (λ ty, ¬ NoDup (List.filter (λ tr, (tr.2 =? ty)%string)
                             (map triple (relationships (run Examples.repeating_tree).2))))
      ["ACCESSES_FIELD"; "CALLS_METHOD"; "CALLS_WEBSERVICE"; "MODIFIES_FIELD";
       "SHOWS_RELATED_LIST"; "DISPLAYS_RELATED_FIELD"].
Proof.
  split.
  - unfold distinct_names.
    repeat split; apply (bool_decide_unpack _); vm_compute; exact I.
  - assert (H : map triple (relationships (run Examples.repeating_tree).2)
      = [("object_Account", "layout_Account-Account_Layout", "HAS_LAYOUT");
         ("layout_Account-Account_Layout", "object_Contact", "SHOWS_RELATED_LIST");
         ("layout_Account-Account_Layout", "field_Contact_NAME",
          "DISPLAYS_RELATED_FIELD");
         ("layout_Account-Account_Layout", "object_Contact", "SHOWS_RELATED_LIST");
         ("layout_Account-Account_Layout", "field_Contact_NAME",
          "DISPLAYS_RELATED_FIELD");
         ("class_Caller", "object_A_B", "USES_OBJECT");
         ("class_Caller", "class_Foo", "DEPENDS_ON_CLASS");
         ("class_Caller", "field_A_B_C", "ACCESSES_FIELD");
         ("class_Caller", "field_A_B_C", "ACCESSES_FIELD");
         ("class_Caller", "class_Foo", "CALLS_METHOD");
         ("class_Caller", "class_Foo", "CALLS_METHOD");
         ("class_Caller", "webservice_http___a_b", "CALLS_WEBSERVICE");
         ("class_Caller", "webservice_http___a_b", "CALLS_WEBSERVICE");
         ("object_Account", "trigger_T", "HAS_TRIGGER");
         ("trigger_T", "object_A_B", "AFFECTS_OBJECT");
         ("trigger_T", "field_A_B_C", "MODIFIES_FIELD");
         ("trigger_T", "field_A_B_C", "MODIFIES_FIELD")])
      by (vm_compute; reflexivity).
    rewrite H. apply (bool_decide_unpack _). vm_compute. exact I.
Qed.

(** Distinct file names are not enough: two field files of one object
    directory whose names differ can yield the same field name, and the
    run then holds one HAS_FIELD triple twice. *)
Lemma same_name_files_repeat :
  NoDup (map xf_name (od_fields Examples.same_name_dir))
  ∧ ¬ NoDup (map triple
               (relationships
                  (run (with_objects Examples.empty_tree [Examples.same_name_dir])).2)).
Proof.
  split.
  - apply (bool_decide_unpack _). vm_compute. exact I.
  - apply (bool_decide_eq_false_1 _). by vm_compute.
Qed.
